(** * Reddit "ultra" search service: aggregation and scoring pipeline

    A shallow embedding of the post-processing pipeline of
    [RedditUltraSearchService] (deduplication, confidence scoring, quality
    filter, ranking, variation generation and the option-driven entry point
    [searchWithAdvancedOptions]) together with the properties the
    specification states about it.

    Conventions of the embedding:
    - JavaScript strings are [string]s of 8-bit characters; the case
      conversions are the ASCII ones, which is what [toLowerCase] and
      [toUpperCase] do on the ASCII identifiers and URLs handled here.
    - JavaScript numbers are exact rationals ([Q]) where the code divides
      (similarity, confidence) and integers ([Z]) where it only counts
      (Reddit score, option values).  No property below depends on how a
      quotient is rounded.
    - A JavaScript [Map] or [Set] is an insertion-ordered association list
      or list; candidate objects are distinct records (the extractor builds
      a fresh object for every hit), so in-place mutation of the object held
      by the map is a replacement of the entry at the same position. *)

From Stdlib Require Import ZArith QArith Qminmax Qround List String Ascii Bool Arith.
From Stdlib Require Import Lia Lqa Permutation Sorted DecimalString.
Import ListNotations.

Local Open Scope string_scope.

(** ** JavaScript string primitives used by the service *)
Module JS.

Definition isUpperChar (c : ascii) : bool :=
  let n := nat_of_ascii c in ((65 <=? n) && (n <=? 90))%nat.

Definition isLowerChar (c : ascii) : bool :=
  let n := nat_of_ascii c in ((97 <=? n) && (n <=? 122))%nat.

Definition isDigitChar (c : ascii) : bool :=
  let n := nat_of_ascii c in ((48 <=? n) && (n <=? 57))%nat.

Definition isLetterChar (c : ascii) : bool := isUpperChar c || isLowerChar c.

Definition isAlnumChar (c : ascii) : bool := isLetterChar c || isDigitChar c.

(** The printable ASCII range, space to tilde. *)
Definition isPrintableChar (c : ascii) : bool :=
  let n := nat_of_ascii c in ((32 <=? n) && (n <=? 126))%nat.

Definition charToLower (c : ascii) : ascii :=
  if isUpperChar c then ascii_of_nat (nat_of_ascii c + 32) else c.

Definition charToUpper (c : ascii) : ascii :=
  if isLowerChar c then ascii_of_nat (nat_of_ascii c - 32) else c.

Fixpoint strMap (f : ascii -> ascii) (s : string) : string :=
  match s with
  | EmptyString => EmptyString
  | String c r => String (f c) (strMap f r)
  end.

Fixpoint strForall (p : ascii -> bool) (s : string) : bool :=
  match s with
  | EmptyString => true
  | String c r => p c && strForall p r
  end.

(** [s.toLowerCase()] and [s.toUpperCase()]. *)
Definition toLowerCase : string -> string := strMap charToLower.
Definition toUpperCase : string -> string := strMap charToUpper.

(** [s.startsWith(p)]. *)
Definition startsWith (s p : string) : bool := prefix p s.

(** [s.includes(sub)]. *)
Fixpoint includes (s sub : string) : bool :=
  if prefix sub s then true
  else match s with
       | EmptyString => false
       | String _ r => includes r sub
       end.

(** [s.slice(0, n)] and [s.slice(n)] for [0 <= n]. *)
Fixpoint strTake (n : nat) (s : string) : string :=
  match n, s with
  | S k, String c r => String c (strTake k r)
  | _, _ => EmptyString
  end.

Fixpoint strDrop (n : nat) (s : string) : string :=
  match n, s with
  | S k, String _ r => strDrop k r
  | _, _ => s
  end.

(** [s.replace(/c/g, rep)] for a single character [c]. *)
Fixpoint replaceAllChar (c : ascii) (rep : string) (s : string) : string :=
  match s with
  | EmptyString => EmptyString
  | String d r =>
      if Ascii.eqb d c then rep ++ replaceAllChar c rep r
      else String d (replaceAllChar c rep r)
  end.

(** [s.replace(/^p/, '')] for a literal prefix [p]. *)
Definition stripPrefix (p s : string) : string :=
  if prefix p s then strDrop (String.length p) s else s.

(** [s.replace(/c$/, '')] for a single character [c]. *)
Fixpoint stripLastChar (c : ascii) (s : string) : string :=
  match s with
  | EmptyString => EmptyString
  | String d EmptyString => if Ascii.eqb d c then EmptyString else s
  | String d r => String d (stripLastChar c r)
  end.

Fixpoint dropWhile {A} (p : A -> bool) (l : list A) : list A :=
  match l with
  | [] => []
  | x :: r => if p x then dropWhile p r else l
  end.

(** [/\d+$/.test(s)]: the string ends with a digit. *)
Definition endsWithDigit (s : string) : bool :=
  match rev (list_ascii_of_string s) with
  | c :: _ => isDigitChar c
  | [] => false
  end.

(** [s.replace(/\d+$/, '')]: the whole trailing run of digits is removed. *)
Definition stripTrailingDigits (s : string) : string :=
  string_of_list_ascii
    (rev (dropWhile isDigitChar (rev (list_ascii_of_string s)))).

(** String concatenation with a number, [s + i]. *)
Definition natToString (n : nat) : string :=
  NilEmpty.string_of_uint (Nat.to_uint n).

(** [x || d] on numbers: zero is falsy. *)
Definition orElseQ (x d : Q) : Q := if Qeq_bool x 0 then d else x.

(** [x || 0] on a possibly missing integer. *)
Definition orZeroZ (x : option Z) : Z :=
  match x with Some z => z | None => 0%Z end.

(** [Math.min(Math.max(x, 0), 100)]. *)
Definition clamp100 (x : Q) : Q := Qmin (Qmax x 0) 100.

(** [arr.slice(0, n)]: a negative end counts from the end of the array. *)
Definition slice0 {A} (n : Z) (l : list A) : list A :=
  if (n <? 0)%Z then firstn (Z.to_nat (Z.of_nat (List.length l) + n)) l
  else firstn (Z.to_nat n) l.

(** An insertion-ordered [Map]: [set] on a present key keeps its position. *)
Section OrderedMap.
Context {K V : Type} (keqb : K -> K -> bool).

Fixpoint mapGet (k : K) (m : list (K * V)) : option V :=
  match m with
  | [] => None
  | (k', v) :: r => if keqb k k' then Some v else mapGet k r
  end.

Fixpoint mapSet (k : K) (v : V) (m : list (K * V)) : list (K * V) :=
  match m with
  | [] => [(k, v)]
  | (k', v') :: r =>
      if keqb k k' then (k, v) :: r else (k', v') :: mapSet k v r
  end.

Fixpoint mapDelete (k : K) (m : list (K * V)) : list (K * V) :=
  match m with
  | [] => []
  | (k', v') :: r =>
      if keqb k k' then r else (k', v') :: mapDelete k r
  end.

Definition mapValues (m : list (K * V)) : list V := map snd m.
Definition mapKeys (m : list (K * V)) : list K := map fst m.
End OrderedMap.

(** An insertion-ordered [Set] of strings. *)
Definition setHas (x : string) (s : list string) : bool :=
  existsb (String.eqb x) s.

Definition setAdd (x : string) (s : list string) : list string :=
  if setHas x s then s else s ++ [x].

End JS.
Import JS.

(** ** Username similarity *)
Module Similarity.

(** One row of the dynamic-programming matrix of [levenshteinDistance]:
    [prev] is row [i-1] from column [j-1] on, [left] is [matrix[i][j-1]]. *)
Fixpoint levRow (c2 : ascii) (s1 : list ascii) (prev : list nat) (left : nat)
  : list nat :=
  match s1, prev with
  | c1 :: s1', diag :: ((up :: _) as prev') =>
      let v := if Ascii.eqb c2 c1 then diag
               else Nat.min (diag + 1) (Nat.min (left + 1) (up + 1)) in
      v :: levRow c2 s1' prev' v
  | _, _ => []
  end.

Definition levStep (s1 : list ascii) (st : list nat * nat) (c2 : ascii)
  : list nat * nat :=
  let '(prev, i) := st in
  (S i :: levRow c2 s1 prev (S i), S i).

(** [levenshteinDistance(str1, str2)]: row 0 is [0..|str1|], one row per
    character of [str2], result [matrix[|str2|][|str1|]]. *)
Definition levenshteinDistance (str1 str2 : string) : nat :=
  let s1 := list_ascii_of_string str1 in
  let s2 := list_ascii_of_string str2 in
  let row0 := seq 0 (S (List.length s1)) in
  last (fst (fold_left (levStep s1) s2 (row0, 0%nat))) 0%nat.

Definition calculateUsernameSimilarity (username1 username2 : string) : Q :=
  let u1 := toLowerCase username1 in
  let u2 := toLowerCase username2 in
  if String.eqb u1 u2 then 1
  else if includes u1 u2 || includes u2 u1 then 8 # 10
  else
    let maxLen := Nat.max (String.length u1) (String.length u2) in
    let distance := levenshteinDistance u1 u2 in
    Qmax 0 (inject_Z (Z.of_nat maxLen - Z.of_nat distance)
            / inject_Z (Z.of_nat maxLen)).

Definition isSimilarToSearchUsername (username searchUsername : string) : bool :=
  negb (Qle_bool (calculateUsernameSimilarity username searchUsername) (6 # 10)).

End Similarity.
Import Similarity.

(** ** Data model *)
Module Model.

(** The [redditSource] summary attached to every extracted link. *)
Record RedditSource := mkRedditSource {
  postUrl : string;
  postTitle : string;
  subreddit : option string;
  redditScore : option Z;
  foundIn : string
}.

(** The part of [metadata.enrichment] that is computed from the link. *)
Record Enrichment := mkEnrichment {
  originalSearchUsername : string;
  confidenceLevel : string;
  qualityScore : Q
}.

Record Metadata := mkMetadata {
  groupType : string;
  isInviteLink : option bool;
  patternMatched : option nat;
  searchMethod : string;
  redditSource : RedditSource;
  mergedSources : option (list RedditSource);
  enrichment : option Enrichment
}.

(** A candidate link.  The display fields [title], [description], [source]
    and [timestamp] are carried along unchanged by every stage and are left
    out. *)
Record Link := mkLink {
  url : string;
  username : string;
  kind : string;
  confidence : Q;
  verified : bool;
  metadata : Metadata
}.

Definition setMergedSources (ms : list RedditSource) (l : Link) : Link :=
  let m := metadata l in
  mkLink (url l) (username l) (kind l) (confidence l) (verified l)
    (mkMetadata (groupType m) (isInviteLink m) (patternMatched m)
       (searchMethod m) (redditSource m) (Some ms) (enrichment m)).

Definition setConfidence (c : Q) (l : Link) : Link :=
  mkLink (url l) (username l) (kind l) c (verified l) (metadata l).

Definition setEnrichment (e : Enrichment) (l : Link) : Link :=
  let m := metadata l in
  mkLink (url l) (username l) (kind l) (confidence l) (verified l)
    (mkMetadata (groupType m) (isInviteLink m) (patternMatched m)
       (searchMethod m) (redditSource m) (mergedSources m) (Some e)).

(** [link.metadata.mergedSources || []] and its length. *)
Definition mergedList (l : Link) : list RedditSource :=
  match mergedSources (metadata l) with Some ms => ms | None => [] end.

Definition mergedCount (l : Link) : nat := List.length (mergedList l).

(** The provenance of a candidate: its own source followed by the merged
    ones; its size is what the ranker calls [aSources]. *)
Definition provenance (l : Link) : list RedditSource :=
  redditSource (metadata l) :: mergedList l.

(** A link found by [extractTelegramLinks] in a post. *)
Record TelegramRef := mkTelegramRef {
  ref_url : string;
  ref_username : string;
  ref_type : string
}.

(** The fields of a Reddit post or comment that [calculateBasicConfidence]
    reads. *)
Record PostData := mkPostData {
  d_subreddit : option string;
  d_score : option Z;
  d_num_comments : option Z
}.

Record RawMetadata := mkRawMetadata {
  m_subreddit : option string;
  m_score : option Z;
  m_telegramLinks : list TelegramRef
}.

(** A raw hit, as built by [createResultFromPost] and
    [createResultFromComment]: the fields the post-processing reads. *)
Record RawResult := mkRawResult {
  r_url : string;
  r_title : string;
  r_description : string;
  r_metadata : RawMetadata
}.

(** The regular-expression matching the extractor relies on; the engine is
    outside the service and is taken as an interface. *)
Class RegexEngine := {
  (** the [exec] loop over [ultraPatterns]: pattern index, [match[0]],
      [match[1]], in the order the matches are visited *)
  ultraPatternMatches : string -> list (nat * (string * string));
  (** [/telegram|t\.me|channel|group|chat|invite/i.test(text)] *)
  hasTelegramContext : string -> bool;
  (** [flexibleUsernameMatch(text, username)] *)
  flexibleUsernameMatch : string -> string -> bool;
  (** [text.match(/\b[a-zA-Z][a-zA-Z0-9_]{4,31}\b/g) || []] *)
  identifierTokens : string -> list string
}.

End Model.
Import Model.

(** ** The service: extraction, deduplication, scoring, filter, ranking *)
Module Service.

Definition commonWords : list string :=
  [ "telegram"; "channel"; "group"; "admin"; "support"; "help";
    "about"; "contact"; "join"; "invite"; "link"; "chat";
    "the"; "and"; "for"; "are"; "with"; "this"; "that";
    "news"; "info"; "update"; "post"; "share"; "here"; "there";
    "official"; "main"; "real"; "true"; "new"; "old" ].

Definition suspicious : list string :=
  [ "admin"; "support"; "help"; "bot"; "official";
    "scam"; "fake"; "test"; "example"; "sample" ].

(** [list.includes(x)] on strings. *)
Definition listIncludes (l : list string) (x : string) : bool :=
  existsb (String.eqb x) l.

Definition isCommonWord (word : string) : bool :=
  listIncludes commonWords (toLowerCase word).

Definition isSuspiciousUsername (username : string) : bool :=
  listIncludes suspicious (toLowerCase username).

(** [/^[a-zA-Z][a-zA-Z0-9_]*[a-zA-Z0-9]$/.test(username)]. *)
Fixpoint identifierTail (s : string) : bool :=
  match s with
  | EmptyString => false
  | String c EmptyString => isAlnumChar c
  | String c r => (isAlnumChar c || Ascii.eqb c "_") && identifierTail r
  end.

Definition identifierShape (s : string) : bool :=
  match s with
  | EmptyString => false
  | String c r => isLetterChar c && identifierTail r
  end.

Definition isValidTelegramUsername (username : string) : bool :=
  negb (String.eqb username "")
  && (5 <=? String.length username)%nat
  && (String.length username <=? 32)%nat
  && identifierShape username
  && negb (isCommonWord username).

(** [x > k] and [x < k] on a possibly missing number: [undefined]
    compares false. *)
Definition optGt (x : option Z) (k : Z) : bool :=
  match x with Some z => (k <? z)%Z | None => false end.

Definition optLt (x : option Z) (k : Z) : bool :=
  match x with Some z => (z <? k)%Z | None => false end.

(** [opt || d] on a possibly missing string: the empty string is falsy. *)
Definition orElseS (x : option string) (d : string) : string :=
  match x with
  | Some s => if String.eqb s "" then d else s
  | None => d
  end.

Definition bonus (b : bool) (k : Q) : Q := if b then k else 0.

Definition calculateBasicConfidence (data : PostData) (username : string) : Q :=
  let confidence := 50 in
  let confidence := confidence + bonus (optGt (d_score data) 10) 10 in
  let confidence := confidence + bonus (optGt (d_score data) 50) 15 in
  let confidence := confidence + bonus (optGt (d_score data) 100) 20 in
  let confidence := confidence + bonus (optGt (d_num_comments data) 5) 5 in
  let confidence := confidence + bonus (optGt (d_num_comments data) 20) 10 in
  let subreddit := toLowerCase (orElseS (d_subreddit data) "") in
  let confidence := confidence + bonus (includes subreddit "telegram") 25 in
  let confidence := confidence + bonus (includes subreddit "crypto") 15 in
  let confidence := confidence - bonus (optLt (d_score data) 0) 20 in
  clamp100 confidence.

Definition patternBonuses : list Q := [25; 25; 30; 30; 15; 20; 20; 10; 15; 10].

(** The pattern bonus [patternBonuses[patternIndex] || 10]. *)
Definition patternBonus (patternIndex : nat) : Q :=
  match nth_error patternBonuses patternIndex with
  | Some b => orElseQ b 10
  | None => 10
  end.

(** The three contributions of [calculateAdvancedConfidence]. *)
Definition similarityBonus (extractedUsername searchUsername : string) : Q :=
  calculateUsernameSimilarity extractedUsername searchUsername * 30.

Definition extractionPopularityBonus (redditScore : Z) : Q :=
  bonus (10 <? redditScore)%Z 10 + bonus (50 <? redditScore)%Z 15.

Definition calculateAdvancedConfidence (extractedUsername : string)
  (sourceResult : RawResult) (searchUsername : string) (patternIndex : nat) : Q :=
  let confidence := 50 in
  let confidence := confidence + patternBonus patternIndex in
  let confidence := confidence + similarityBonus extractedUsername searchUsername in
  let redditScore := orZeroZ (m_score (r_metadata sourceResult)) in
  let confidence := confidence + extractionPopularityBonus redditScore in
  clamp100 confidence.

Definition determineGroupType (username : string) (sourceResult : RawResult)
  (originalMatch : string) : string :=
  let text := toLowerCase (r_title sourceResult ++ " " ++ r_description sourceResult) in
  if includes text "group" || includes text "chat"
     || includes originalMatch "joinchat" then "group"
  else if includes text "channel" || includes text "broadcast" then "channel"
  else if includes text "bot" || includes (toLowerCase username) "bot" then "bot"
  else if includes text "news" || includes text "update" then "news"
  else "general".

Definition constructTelegramUrl (username : string) (isInvite : bool)
  (originalUrl : string) : string :=
  if isInvite && negb (String.eqb originalUrl "") then
    if startsWith originalUrl "http" then originalUrl
    else "https://" ++ originalUrl
  else "https://t.me/" ++ username.

Definition sourceOf (sourceResult : RawResult) : RedditSource :=
  mkRedditSource (r_url sourceResult) (r_title sourceResult)
    (m_subreddit (r_metadata sourceResult))
    (m_score (r_metadata sourceResult))
    ("r/" ++ orElseS (m_subreddit (r_metadata sourceResult)) "unknown").

Definition createUltraTelegramResult (link : TelegramRef)
  (sourceResult : RawResult) (searchUsername : string) : Link :=
  let confidence :=
    calculateAdvancedConfidence (ref_username link) sourceResult searchUsername 0 in
  let groupType := determineGroupType (ref_username link) sourceResult (ref_url link) in
  mkLink (constructTelegramUrl (ref_username link) false (ref_url link))
    (ref_username link) groupType confidence false
    (mkMetadata groupType None None "ultra_extraction"
       (sourceOf sourceResult) None None).

Definition createUltraAdvancedTelegramLink (extractedUsername originalMatch : string)
  (sourceResult : RawResult) (searchUsername : string) (patternIndex : nat) : Link :=
  let isInvite := includes originalMatch "joinchat" || includes originalMatch "+" in
  let url := constructTelegramUrl extractedUsername isInvite originalMatch in
  let confidence :=
    calculateAdvancedConfidence extractedUsername sourceResult searchUsername
      patternIndex in
  let groupType := determineGroupType extractedUsername sourceResult originalMatch in
  mkLink url extractedUsername groupType confidence false
    (mkMetadata groupType (Some isInvite) (Some patternIndex) "ultra_extraction"
       (sourceOf sourceResult) None None).

Section WithRegex.
Context {RE : RegexEngine}.

Definition ultraAdvancedLinkExtraction (text : string) (sourceResult : RawResult)
  (searchUsername : string) : list Link :=
  flat_map
    (fun m =>
       let '(index, (match0, extractedUsername)) := m in
       if isValidTelegramUsername extractedUsername then
         [createUltraAdvancedTelegramLink extractedUsername match0 sourceResult
            searchUsername index]
       else [])
    (ultraPatternMatches text).

Definition inferredLink (possibleUsername : string) (result : RawResult) : Link :=
  mkLink ("https://t.me/" ++ possibleUsername) possibleUsername "inferred"
    45 false
    (mkMetadata "inferred" None None "inference" (sourceOf result) None None).

Definition inferPossibleTelegramLinks (result : RawResult)
  (searchUsername : string) : list Link :=
  let text := toLowerCase (r_title result ++ " " ++ r_description result) in
  if hasTelegramContext text && flexibleUsernameMatch text searchUsername then
    flat_map
      (fun possibleUsername =>
         if isValidTelegramUsername possibleUsername
            && isSimilarToSearchUsername possibleUsername searchUsername
         then [inferredLink possibleUsername result]
         else [])
      (identifierTokens text)
  else [].

Definition extractAllTelegramLinksUltra (results : list RawResult)
  (username : string) : list Link :=
  flat_map
    (fun result =>
       (map (fun link => createUltraTelegramResult link result username)
          (m_telegramLinks (r_metadata result))
        ++ ultraAdvancedLinkExtraction
             (r_title result ++ " " ++ r_description result ++ " " ++ r_url result)%string
             result username
        ++ inferPossibleTelegramLinks result username)%list)
    results.

End WithRegex.

(** [s.replace(/^https?:\/\//, '')]. *)
Definition stripScheme (s : string) : string :=
  if prefix "http://" s then strDrop 7 s
  else if prefix "https://" s then strDrop 8 s
  else s.

Definition normalizeTelegramUrl (url : string) : string :=
  stripLastChar "/" (stripPrefix "www." (stripScheme (toLowerCase url))).

(** [a < b] on numbers. *)
Definition Qltb (a b : Q) : bool := negb (Qle_bool b a).

(** The key under which the deduplicator stores a link. *)
Definition dedupKey (link : Link) : string :=
  toLowerCase (normalizeTelegramUrl (url link)).

(** One iteration of the [forEach] of [ultraIntelligentDeduplication] on the
    map [uniqueLinks].  Of the incoming [link] the loop reads the URL, the
    confidence and [redditSource], none of which it ever writes; the only
    field it writes, [mergedSources], is read from the stored candidate
    alone.  A candidate object occurring twice in the input is therefore
    treated exactly as two equal records are. *)
Definition dedupStep (uniqueLinks : list (string * Link)) (link : Link)
  : list (string * Link) :=
  let key := dedupKey link in
  match mapGet String.eqb key uniqueLinks with
  | Some existing =>
      if Qltb (orElseQ (confidence existing) 0) (orElseQ (confidence link) 0)
      then
        mapSet String.eqb key
          (setMergedSources
             (mergedList existing ++ [redditSource (metadata existing)]) link)
          uniqueLinks
      else
        mapSet String.eqb key
          (setMergedSources
             (mergedList existing ++ [redditSource (metadata link)]) existing)
          uniqueLinks
  | None => mapSet String.eqb key link uniqueLinks
  end.

Definition dedupMap (links : list Link) : list (string * Link) :=
  fold_left dedupStep links [].

Definition ultraIntelligentDeduplication (links : list Link) : list Link :=
  mapValues (dedupMap links).

(** The signal classes of [ultraAdvancedScoring], one definition per block
    of the source. *)
Definition popularityBonus (redditScore : Z) : Q :=
  bonus (10 <? redditScore)%Z 10
  + bonus (50 <? redditScore)%Z 15
  + bonus (200 <? redditScore)%Z 20.

Definition specializationBonus (foundIn : string) : Q :=
  let subreddit := toLowerCase foundIn in
  bonus (includes subreddit "telegram") 25
  + bonus (includes subreddit "crypto") 15.

Definition searchMethodBonus (method : string) : Q :=
  if String.eqb method "direct_extraction" then 20
  else if String.eqb method "pattern_match" then 15
  else if String.eqb method "reverse_search" then 10
  else if String.eqb method "inference" then 5
  else 0.

(** [!link.metadata?.isInviteLink]. *)
Definition notInvite (isInvite : option bool) : bool :=
  match isInvite with Some true => false | _ => true end.

Definition canonicalBonus (isInvite : option bool) : Q :=
  bonus (notInvite isInvite) 10.

Definition corroborationBonus (merged : nat) : Q :=
  inject_Z (Z.of_nat merged) * 5.

Definition trustBonus (postTitle : string) : Q :=
  let context := toLowerCase postTitle in
  bonus (includes context "official") 15
  + bonus (includes context "verified") 15.

Definition scamPenalty (postTitle : string) : Q :=
  let context := toLowerCase postTitle in
  bonus (includes context "scam" || includes context "fake") 25.

(** The confidence accumulated by [ultraAdvancedScoring] before the clamp. *)
Definition rawScore (searchUsername : string) (link : Link) : Q :=
  let src := redditSource (metadata link) in
  let confidence := orElseQ (confidence link) 50 in
  let confidence := confidence + similarityBonus (username link) searchUsername in
  let confidence := confidence + popularityBonus (orZeroZ (redditScore src)) in
  let confidence := confidence + specializationBonus (foundIn src) in
  let confidence := confidence + searchMethodBonus (searchMethod (metadata link)) in
  let confidence := confidence + canonicalBonus (isInviteLink (metadata link)) in
  let confidence := confidence + corroborationBonus (mergedCount link) in
  let confidence := confidence + trustBonus (postTitle src) in
  let confidence := confidence - scamPenalty (postTitle src) in
  confidence.

Definition scoreLink (searchUsername : string) (link : Link) : Link :=
  setConfidence (clamp100 (rawScore searchUsername link)) link.

Definition ultraAdvancedScoring (links : list Link) (searchUsername : string)
  : list Link :=
  map (scoreLink searchUsername) links.

(** The predicate of [ultraQualityFilter], test by test. *)
Definition passesQuality (link : Link) : bool :=
  if Qltb (confidence link) 30 then false
  else if String.eqb (username link) ""
          || (String.length (username link) <? 5)%nat then false
  else if isCommonWord (username link) then false
  else if isSuspiciousUsername (username link) then false
  else true.

Definition ultraQualityFilter (links : list Link) (searchUsername : string)
  : list Link :=
  filter passesQuality links.

(** The comparator passed to [sort] by [ultraIntelligentRanking]. *)
Definition isExact (searchUsername : string) (a : Link) : bool :=
  String.eqb (toLowerCase (username a)) (toLowerCase searchUsername).

Definition ownScore (a : Link) : Z :=
  orZeroZ (redditScore (redditSource (metadata a))).

Definition rankCompare (searchUsername : string) (a b : Link) : Q :=
  let aExact := isExact searchUsername a in
  let bExact := isExact searchUsername b in
  if aExact && negb bExact then -1
  else if negb aExact && bExact then 1
  else if negb (Qeq_bool (confidence b) (confidence a)) then
    orElseQ (confidence b) 0 - orElseQ (confidence a) 0
  else
    let aScore := ownScore a in
    let bScore := ownScore b in
    if negb (bScore =? aScore)%Z then inject_Z (bScore - aScore)
    else
      let aSources := (mergedCount a + 1)%nat in
      let bSources := (mergedCount b + 1)%nat in
      inject_Z (Z.of_nat bSources - Z.of_nat aSources).

(** [Array.prototype.sort(compare)]: the sort is stable, so for a consistent
    comparator its result is the one of a stable insertion sort, where an
    element stays in front of a later one unless the comparator is
    positive. *)
Section StableSort.
Context {A : Type} (compare : A -> A -> Q).

Fixpoint sortInsert (x : A) (l : list A) : list A :=
  match l with
  | [] => [x]
  | y :: r =>
      if Qle_bool (compare x y) 0 then x :: y :: r
      else y :: sortInsert x r
  end.

Fixpoint stableSort (l : list A) : list A :=
  match l with
  | [] => []
  | x :: r => sortInsert x (stableSort r)
  end.
End StableSort.

Definition ultraIntelligentRanking (links : list Link) (searchUsername : string)
  : list Link :=
  stableSort (rankCompare searchUsername) links.

Definition getConfidenceLevel (confidence : Q) : string :=
  if Qle_bool 80 confidence then "very_high"
  else if Qle_bool 60 confidence then "high"
  else if Qle_bool 40 confidence then "medium"
  else if Qle_bool 20 confidence then "low"
  else "very_low".

Definition calculateQualityScore (link : Link) : Q :=
  let src := redditSource (metadata link) in
  let score := 0 in
  let score := score + Qmin (orElseQ (confidence link) 0) 40 in
  let score := score + Qmin (inject_Z (orZeroZ (redditScore src)) / 10) 20 in
  let score := score + inject_Z (Z.of_nat (mergedCount link)) * 5 in
  let score := score + bonus (includes (foundIn src) "telegram") 15 in
  let score := score + bonus (notInvite (isInviteLink (metadata link))) 10 in
  let score := score + bonus (verified link) 10 in
  Qmin score 100.

(** [enrichMetadata]; the timestamp and the textual recommendation are
    display data and are left out. *)
Definition enrichLink (username : string) (link : Link) : Link :=
  setEnrichment
    (mkEnrichment username (getConfidenceLevel (confidence link))
       (calculateQualityScore link))
    link.

Definition enrichMetadata (links : list Link) (username : string) : list Link :=
  map (enrichLink username) links.

(** The stages after extraction, in the order of
    [ultraIntelligentProcessing]. *)
Definition postProcess (telegramLinks : list Link) (username : string)
  : list Link :=
  let deduplicatedLinks := ultraIntelligentDeduplication telegramLinks in
  let scoredLinks := ultraAdvancedScoring deduplicatedLinks username in
  let highQualityLinks := ultraQualityFilter scoredLinks username in
  let enrichedLinks := enrichMetadata highQualityLinks username in
  ultraIntelligentRanking enrichedLinks username.

Definition ultraIntelligentProcessing {RE : RegexEngine}
  (allResults : list RawResult) (username : string) : list Link :=
  postProcess (extractAllTelegramLinksUltra allResults username) username.

(** *** Username variations *)

Definition capitalizeFirst (str : string) : string :=
  toUpperCase (strTake 1 str) ++ toLowerCase (strDrop 1 str).

Definition prefixes : list string :=
  [ "the"; "real"; "official"; "main"; "new"; "crypto"; "btc" ].

Definition suffixes : list string :=
  [ "official"; "real"; "main"; "channel"; "group"; "bot" ].

(** The [Set] built by [generateMassiveVariations], in insertion order. *)
Definition variationSet (username : string) : list string :=
  let original := toLowerCase username in
  let variations := [] in
  let variations := setAdd original variations in
  let variations := setAdd (toUpperCase username) variations in
  let variations := setAdd (capitalizeFirst username) variations in
  let variations :=
    if includes original "_" then
      let variations := setAdd (replaceAllChar "_" "" original) variations in
      let variations := setAdd (replaceAllChar "_" "-" original) variations in
      setAdd (replaceAllChar "_" "." original) variations
    else
      let variations := setAdd (original ++ "_") variations in
      let variations := setAdd (original ++ "-") variations in
      fold_left
        (fun variations i =>
           let variations :=
             setAdd (strTake i original ++ "_" ++ strDrop i original) variations in
           setAdd (strTake i original ++ "-" ++ strDrop i original) variations)
        (seq 1 (String.length original - 1)) variations in
  let variations :=
    if endsWithDigit original then
      let base := stripTrailingDigits original in
      fold_left (fun variations i => setAdd (base ++ natToString i) variations)
        (seq 0 21) variations
    else
      fold_left (fun variations i => setAdd (original ++ natToString i) variations)
        (seq 0 21) variations in
  let variations :=
    fold_left
      (fun variations prefix =>
         let variations := setAdd (prefix ++ original) variations in
         setAdd (prefix ++ "_" ++ original) variations)
      prefixes variations in
  let variations :=
    fold_left
      (fun variations suffix =>
         let variations := setAdd (original ++ suffix) variations in
         setAdd (original ++ "_" ++ suffix) variations)
      suffixes variations in
  let start := Nat.max 3 (String.length original - 3) in
  fold_left (fun variations len => setAdd (strTake len original) variations)
    (seq start (String.length original - start)) variations.

Definition lengthInBounds (v : string) : bool :=
  ((3 <=? String.length v) && (String.length v <=? 35))%nat.

Definition generateMassiveVariations (username : string) : list string :=
  firstn 100 (filter lengthInBounds (variationSet username)).

(** *** The entry point with options and its cache *)

Record Options := mkOptions {
  useCache : option bool;
  exportFormat : option string;
  maxResults : option Z;
  minConfidence : option Z;
  includeStats : option bool;
  phases : option (list string);
  subredditFilter : option string;
  timeFilter : option string
}.

(** A destructuring default: it applies to a missing field only. *)
Definition dflt {A} (d : A) (x : option A) : A :=
  match x with Some v => v | None => d end.

Definition Options_eq_dec (a b : Options) : {a = b} + {a <> b}.
Proof.
  repeat decide equality.
Defined.

(** The cache key [`reddit_ultra_${username}_${JSON.stringify(options)}`];
    the string determines the user name and the options, and is kept as
    that pair. *)
Definition CacheKey : Type := (string * Options)%type.

Definition keyEqb (a b : CacheKey) : bool :=
  String.eqb (fst a) (fst b)
  && (if Options_eq_dec (snd a) (snd b) then true else false).

Definition getCacheKey (username : string) (options : Options) : CacheKey :=
  (username, options).

Record CacheEntry := mkCacheEntry {
  data : list Link;
  timestamp : Z
}.

Definition Cache : Type := list (CacheKey * CacheEntry).

(** Ten minutes, in milliseconds. *)
Definition cacheExpiry : Z := (10 * 60 * 1000)%Z.

Definition getCachedResults (cache : Cache) (username : string)
  (options : Options) (now : Z) : option (list Link) :=
  match mapGet keyEqb (getCacheKey username options) cache with
  | Some cached =>
      if (now - timestamp cached <? cacheExpiry)%Z then Some (data cached)
      else None
  | None => None
  end.

Definition setCachedResults (cache : Cache) (username : string)
  (options : Options) (results : list Link) (now : Z) : Cache :=
  let cache :=
    mapSet keyEqb (getCacheKey username options) (mkCacheEntry results now) cache in
  if (100 <? List.length cache)%nat then
    match stableSort
            (fun a b => inject_Z (timestamp (snd a) - timestamp (snd b))) cache with
    | oldest :: _ => mapDelete keyEqb (fst oldest) cache
    | [] => cache
    end
  else cache.

(** The state of the service object: its cache, and the number of searches
    it has started against the provider (each one issues the authentication
    request and the queries of the eight phases). *)
Record ServiceState := mkState {
  cache : Cache;
  searchRuns : nat
}.

(** What the outside world supplies to one call: whether the provider
    accepts the credentials, the raw hits the queries return, and the clock
    readings of the cache lookup and of the cache store. *)
Record Env := mkEnv {
  authenticated : bool;
  providerResults : list RawResult;
  clockLookup : Z;
  clockStore : Z
}.

(** The only error raised on this path: [authenticate] rethrows a failed
    token request. *)
Inductive SearchError := AuthenticationError.


Record ConfidenceDistribution := mkDistribution {
  high : nat;
  medium : nat;
  low : nat
}.

Definition calculateConfidenceDistribution (results : list Link)
  : ConfidenceDistribution :=
  fold_left
    (fun d r =>
       if Qle_bool 70 (confidence r) then mkDistribution (S (high d)) (medium d) (low d)
       else if Qle_bool 40 (confidence r) then
         mkDistribution (high d) (S (medium d)) (low d)
       else mkDistribution (high d) (medium d) (S (low d)))
    results (mkDistribution 0 0 0).

(** The response object; of the statistics only the confidence distribution
    is kept, the others are further summaries of [results]. *)
Record Response := mkResponse {
  results : list Link;
  meta_searchUsername : string;
  meta_totalFound : nat;
  meta_options : Options;
  statistics : option ConfidenceDistribution
}.

(** The three shapes the call returns: the cached array, the exported
    rendering of the results, or the response object. *)
Inductive Returned :=
| RetCached (cached : list Link)
| RetExported (format : string) (rows : list Link)
| RetResponse (response : Response).

Definition returnedResults (r : Returned) : list Link :=
  match r with
  | RetCached cached => cached
  | RetExported _ rows => rows
  | RetResponse response => results response
  end.

(** The results a call hands back to its caller; none when it throws. *)
Definition resultsOf (r : SearchError + Returned) : list Link :=
  match r with
  | inr ret => returnedResults ret
  | inl _ => []
  end.

(** [if (subredditFilter)]: [null], [undefined] and the empty string are
    falsy. *)
Definition truthyS (x : option string) : option string :=
  match x with
  | Some s => if String.eqb s "" then None else Some s
  | None => None
  end.

(** The filtering and truncation applied to the results of the search. *)
Definition applyOptions (options : Options) (results : list Link) : list Link :=
  let maxResults := dflt 1000%Z (maxResults options) in
  let minConfidence := dflt 0%Z (minConfidence options) in
  let filteredResults :=
    filter (fun r => Qle_bool (inject_Z minConfidence) (confidence r)) results in
  let filteredResults :=
    match truthyS (subredditFilter options) with
    | Some f =>
        filter (fun r => includes (foundIn (redditSource (metadata r))) f)
          filteredResults
    | None => filteredResults
    end in
  slice0 maxResults filteredResults.

Section Entry.
Context {RE : RegexEngine}.

Definition searchTelegramGroupsUltraExhaustive (env : Env) (st : ServiceState)
  (username : string) : ServiceState * (SearchError + list Link) :=
  let st := mkState (cache st) (S (searchRuns st)) in
  if authenticated env then
    (st, inr (ultraIntelligentProcessing (providerResults env) username))
  else (st, inl AuthenticationError).

Definition searchWithAdvancedOptions (env : Env) (st : ServiceState)
  (username : string) (options : Options)
  : ServiceState * (SearchError + Returned) :=
  let useCache := dflt true (useCache options) in
  let exportFormat := dflt "json" (exportFormat options) in
  let includeStats := dflt false (includeStats options) in
  match (if useCache
         then getCachedResults (cache st) username options (clockLookup env)
         else None) with
  | Some cached => (st, inr (RetCached cached))
  | None =>
      match searchTelegramGroupsUltraExhaustive env st username with
      | (st, inl e) => (st, inl e)
      | (st, inr results) =>
          let filteredResults := applyOptions options results in
          let st :=
            if useCache then
              mkState
                (setCachedResults (cache st) username options filteredResults
                   (clockStore env))
                (searchRuns st)
            else st in
          let response :=
            mkResponse filteredResults username (List.length filteredResults)
              options
              (if includeStats
               then Some (calculateConfidenceDistribution filteredResults)
               else None) in
          if negb (String.eqb exportFormat "json") then
            (st, inr (RetExported exportFormat filteredResults))
          else (st, inr (RetResponse response))
      end
  end.

(** A sequence of calls on one service object, starting from a state. *)
Definition Call : Type := (Env * string * Options)%type.

Definition runCalls (st : ServiceState) (calls : list Call) : ServiceState :=
  fold_left
    (fun st c => let '(env, username, options) := c in
                 fst (searchWithAdvancedOptions env st username options))
    calls st.

(** The service object as the constructor leaves it. *)
Definition initialState : ServiceState := mkState [] 0.

End Entry.

End Service.
Import Service.

(** ** Invariants and auxiliary notions *)
Module Notions.

(** A string without upper-case letters. *)
Definition lowered (s : string) : bool :=
  strForall (fun c => negb (isUpperChar c)) s.

(** The normalized form of a candidate's URL. *)
Definition normalizedUrl (l : Link) : string := normalizeTelegramUrl (url l).

(** Every entry of the map is stored under the key of its own URL. *)
Definition keyed (m : list (string * Link)) : Prop :=
  Forall (fun e => fst e = dedupKey (snd e)) m.

(** The value the map holds for the key of [link] after a collision with
    [existing]. *)
Definition mergeSurvivor (existing link : Link) : Link :=
  if Qltb (orElseQ (confidence existing) 0) (orElseQ (confidence link) 0)
  then setMergedSources
         (mergedList existing ++ [redditSource (metadata existing)]) link
  else setMergedSources
         (mergedList existing ++ [redditSource (metadata link)]) existing.

(** The source entry a candidate was extracted from. *)
Definition ownSource (c : Link) : RedditSource := redditSource (metadata c).

(** Every cache entry satisfies a property of result lists, relative to
    the options of its key. *)
Definition cacheHolds (P : Options -> list Link -> Prop) (c : Cache) : Prop :=
  Forall (fun e => P (snd (fst e)) (data (snd e))) c.

End Notions.
Import Notions.

(** ** The wording of the specification *)
Module Spec.

(** A confidence within the documented range. *)
Definition confOk (l : Link) : Prop := 0 <= confidence l /\ confidence l <= 100.

(** The order of the ranking, key by key: [a] may stand in front of [b]. *)
Definition tieBreak (a b : Link) : Prop :=
  confidence b < confidence a
  \/ (confidence a == confidence b
      /\ ((ownScore b < ownScore a)%Z
          \/ (ownScore a = ownScore b /\ (mergedCount b <= mergedCount a)%nat))).

Definition rankBefore (searchUsername : string) (a b : Link) : Prop :=
  match isExact searchUsername a, isExact searchUsername b with
  | true, false => True
  | false, true => False
  | _, _ => tieBreak a b
  end.

(** Two candidates that agree on the four keys. *)
Definition sameKeys (searchUsername : string) (a b : Link) : bool :=
  Bool.eqb (isExact searchUsername a) (isExact searchUsername b)
  && Qeq_bool (confidence a) (confidence b)
  && (ownScore a =? ownScore b)%Z
  && (mergedCount a =? mergedCount b)%nat.

(** A candidate the filter contract keeps: confidence at least 30, a user
    name of at least 5 characters that is neither a stop word nor on the
    suspicious list (both lists are matched on the lower-cased name). *)
Definition Kept (c : Link) : Prop :=
  30 <= confidence c
  /\ (5 <= String.length (username c))%nat
  /\ ~ In (toLowerCase (username c)) commonWords
  /\ ~ In (toLowerCase (username c)) suspicious.

Definition keptBySpec (c : Link) : bool :=
  Qle_bool 30 (confidence c)
  && (5 <=? String.length (username c))%nat
  && negb (existsb (String.eqb (toLowerCase (username c))) commonWords)
  && negb (existsb (String.eqb (toLowerCase (username c))) suspicious).

(** The largest total a signal class can add to a confidence. *)
Definition maxContribution {A : Type} (f : A -> Q) (M : Q) : Prop :=
  (forall x, f x <= M) /\ (exists x, f x == M).

Definition similarityOf (p : string * string) : Q :=
  similarityBonus (fst p) (snd p).

(** The ordering of signal magnitudes as the specification words it, for a
    given popularity and pattern-specificity signal. *)
Definition signalOrder (popularity : Z -> Q) {I : Type} (pattern : I -> Q) : Prop :=
  forall pop sim spec pat,
    maxContribution popularity pop ->
    maxContribution similarityOf sim ->
    maxContribution specializationBonus spec ->
    maxContribution pattern pat ->
    pop < sim /\ sim < spec /\ spec < pat.




(** The two bounds the specification puts on the results of every run. *)
Definition withinOptions (options : Options) (l : list Link) : Prop :=
  Forall (fun c => inject_Z (dflt 0%Z (minConfidence options)) <= confidence c) l
  /\ (Z.of_nat (List.length l) <= dflt 1000%Z (maxResults options))%Z.

Definition resultsWithinOptions : Prop :=
  forall (RE : RegexEngine) (calls : list Call) (env : Env) (username : string)
         (options : Options),
    withinOptions options
      (resultsOf (snd (searchWithAdvancedOptions env (runCalls initialState calls)
                         username options))).

(** The scam penalty outweighs every single bonus, as the specification
    words it, for the similarity bonus. *)
Definition penaltyDominatesSimilarity : Prop :=
  forall title extractedUsername searchUsername,
    scamPenalty title == 25 ->
    similarityBonus extractedUsername searchUsername < scamPenalty title.

(** Provenance monotonicity of a merge, as the specification words it. *)
Definition mergeMonotone : Prop :=
  forall existing link survivor,
    dedupKey existing = dedupKey link ->
    ultraIntelligentDeduplication [existing; link] = [survivor] ->
    (Nat.max (List.length (provenance existing)) (List.length (provenance link))
     <= List.length (provenance survivor))%nat.

End Spec.
Import Spec.

(** ** Sample data *)
Module Samples.

(** An engine that finds nothing beyond the links already attached to a
    hit.  On the texts of the two sample hits below this is what the regular
    expressions of the service answer: none of the [ultraPatterns] matches
    them and they carry none of the Telegram keywords. *)
Definition quietEngine : RegexEngine :=
  {| ultraPatternMatches := fun _ => [];
     hasTelegramContext := fun _ => false;
     flexibleUsernameMatch := fun _ _ => false;
     identifierTokens := fun _ => [] |}.

(** Two link posts whose target URL ([data.url], scanned by
    [extractTelegramLinks]) is a Telegram link. *)
Definition sampleHit : RawResult :=
  mkRawResult "https://reddit.com/r/crypto/comments/1" "weekly thread" "r/crypto"
    (mkRawMetadata (Some "crypto") (Some 12%Z)
       [ mkTelegramRef "https://t.me/alphachannel" "alphachannel" "direct" ]).

Definition otherHit : RawResult :=
  mkRawResult "https://reddit.com/r/crypto/comments/2" "daily thread" "r/crypto"
    (mkRawMetadata (Some "crypto") (Some 3%Z)
       [ mkTelegramRef "https://t.me/alphachannel_news" "alphachannel_news"
           "direct" ]).

Definition sampleEnv : Env := mkEnv true [sampleHit; otherHit] 0 0.

Definition noOptions : Options :=
  mkOptions None None None None None None None None.

Definition sampleSource (title : string) (score : Z) : RedditSource :=
  mkRedditSource "https://reddit.com/r/telegram/comments/1" title
    (Some "telegram") (Some score) "r/telegram".

Definition sampleLink (u : string) (c : Q) (title : string)
  (merged : option (list RedditSource)) : Link :=
  mkLink u "alphachannel" "general" c false
    (mkMetadata "general" None None "ultra_extraction" (sampleSource title 12)
       merged None).

(** A stored candidate with one merged entry, and an incoming candidate
    for the same destination that carries only its own source. *)
Definition storedLink : Link :=
  sampleLink "https://t.me/alphachannel" 80 "first"
    (Some [sampleSource "zeroth" 7]).

Definition incomingLink : Link :=
  sampleLink "t.me/AlphaChannel/" 60 "second" None.

(** A stored candidate without merged entries, and an incoming candidate
    for the same destination that already carries two merged entries. *)
Definition singleLink : Link :=
  sampleLink "https://t.me/alphachannel" 80 "first" None.

Definition mergedLink : Link :=
  sampleLink "t.me/AlphaChannel/" 60 "second"
    (Some [sampleSource "third" 3; sampleSource "fourth" 4]).

Definition storedMap : list (string * Link) :=
  [(dedupKey storedLink, storedLink)].

(** A second candidate for the destination of [storedLink], with the same
    confidence. *)
Definition tiedLink : Link :=
  sampleLink "http://www.t.me/alphachannel" 80 "tied" None.


Definition optionsMaxResults (n : Z) : Options :=
  mkOptions None None (Some n) None None None None None.

(** A candidate for another destination. *)
Definition newsLink : Link :=
  mkLink "https://t.me/alphachannel_news" "alphachannel_news" "general" 70 false
    (mkMetadata "general" None None "ultra_extraction" (sampleSource "news" 3)
       None None).

(** A cache at its capacity: 100 entries, stored at the instants 0 to 99. *)
Definition fullCache : Cache :=
  map (fun i => (getCacheKey ("user" ++ natToString i) noOptions,
                 mkCacheEntry [] (Z.of_nat i)))
    (seq 0 100).

End Samples.
Import Samples.

(** ** Reference notions for the remaining functions *)
Module Reference.

(** The edit distance of two words, by the usual recursion on their last
    letters; the words are given last letter first. *)
Fixpoint editDistance (x : list ascii) : list ascii -> nat :=
  match x with
  | [] => fun y => List.length y
  | a :: x' =>
      fix against (y : list ascii) : nat :=
        match y with
        | [] => S (List.length x')
        | b :: y' =>
            if Ascii.eqb a b then editDistance x' y'
            else Nat.min (editDistance x' y' + 1)
                   (Nat.min (against y' + 1) (editDistance x' y + 1))
        end
  end.

(** The row of the matrix of [levenshteinDistance] that belongs to the
    prefix [x] of the second word, from the column of the prefix [p] of the
    first word on ([rest] is what follows [p]). *)
Fixpoint distanceRow (x p rest : list ascii) : list nat :=
  editDistance x p ::
  match rest with
  | [] => []
  | c :: r => distanceRow x (c :: p) r
  end.

(** A character of [[a-zA-Z0-9_]]. *)
Definition identifierChar (c : ascii) : bool := isAlnumChar c || Ascii.eqb c "_".

Definition firstChar (s : string) : option ascii :=
  match s with
  | EmptyString => None
  | String c _ => Some c
  end.

Fixpoint lastChar (s : string) : option ascii :=
  match s with
  | EmptyString => None
  | String c EmptyString => Some c
  | String _ r => lastChar r
  end.

(** Where a candidate comes from: a link already attached to the hit, a
    match of one of the patterns, or the inference pass. *)
Inductive Origin := Attached | Matched | Inferred.

Definition originOf (l : Link) : Origin :=
  if String.eqb (searchMethod (metadata l)) "inference" then Inferred
  else match isInviteLink (metadata l) with
       | Some _ => Matched
       | None => Attached
       end.

(** What holds of a candidate the extractor has just built from the hits
    [raw] for the searched name. *)
Definition extractedFrom (raw : list RawResult) (searchUsername : string)
  (l : Link) : Prop :=
  (exists r, In r raw /\ redditSource (metadata l) = sourceOf r)
  /\ mergedSources (metadata l) = None
  /\ verified l = false
  /\ match originOf l with
     | Attached => url l = ("https://t.me/" ++ username l)%string
     | Matched => isValidTelegramUsername (username l) = true
     | Inferred =>
         isValidTelegramUsername (username l) = true
         /\ isSimilarToSearchUsername (username l) searchUsername = true
         /\ confidence l = 45
         /\ url l = ("https://t.me/" ++ username l)%string
     end.

(** A candidate as the extractor builds it: without merged sources. *)
Definition unmerged (l : Link) : Prop := mergedSources (metadata l) = None.

(** The sources held by the map of the deduplicator, candidate after
    candidate. *)
Definition heldSources (m : list (string * Link)) : list RedditSource :=
  flat_map (fun e => provenance (snd e)) m.

(** A candidate that differs from [x] in its merged sources at most. *)
Definition sameCandidate (x y : Link) : Prop :=
  y = x \/ exists ms, y = setMergedSources ms x.

(** For every candidate seen so far the map holds, under its key, a
    candidate of at least its confidence. *)
Definition covered (m : list (string * Link)) (seen : list Link) : Prop :=
  forall x, In x seen ->
    exists y, mapGet String.eqb (dedupKey x) m = Some y
              /\ confidence x <= confidence y.

(** The tests of [ultraQualityFilter] that look at the user name. *)
Definition passesNameTests (link : Link) : bool :=
  negb (String.eqb (username link) ""
        || (String.length (username link) <? 5)%nat)
  && negb (isCommonWord (username link))
  && negb (isSuspiciousUsername (username link)).

(** The confidence a candidate has when it leaves the extractor: at least
    60 from [calculateAdvancedConfidence], or the 45 of an inferred one. *)
Definition solid (l : Link) : Prop :=
  60 <= confidence l
  \/ (confidence l == 45
      /\ searchMethod (metadata l) = "inference"
      /\ isInviteLink (metadata l) = None).

(** An explicitly extracted candidate whose name is the searched one. *)
Definition explicitExact (searchUsername : string) (l : Link) : Prop :=
  isExact searchUsername l = true
  /\ searchMethod (metadata l) = "ultra_extraction".

(** Such a candidate comes with a confidence of at least 90. *)
Definition exactIsStrong (searchUsername : string) (l : Link) : Prop :=
  explicitExact searchUsername l -> 90 <= confidence l.

(** Such a candidate, unless it is an invite link, is scored 100. *)
Definition exactIsTop (searchUsername : string) (l : Link) : Prop :=
  explicitExact searchUsername l ->
  notInvite (isInviteLink (metadata l)) = true ->
  confidence l == 100.

(** No entry of the cache is younger than the clock reading [now]. *)
Definition notAfter (now : Z) (c : Cache) : Prop :=
  Forall (fun e => (timestamp (snd e) <= now)%Z) c.

(** The order in which [setCachedResults] sorts the entries. *)
Definition olderFirst (a b : CacheKey * CacheEntry) : Prop :=
  (timestamp (snd a) <= timestamp (snd b))%Z.

End Reference.
Import Reference.

(** ** Further functions of the service *)
Module Validation.








End Validation.
Import Validation.

(** ** The requests to the provider *)
Module Client.

(** [this.requestDelay], in milliseconds. *)
Definition requestDelay : Z := 500.

(** What one call of [performSearchWithRetry] did: the value it returned or
    the error it threw, the number of requests it sent and the time it spent
    in [delay]. *)
Record Attempts (E R : Type) := mkAttempts {
  outcome : E + R;
  requests : nat;
  waited : Z
}.
Arguments mkAttempts {E R}.
Arguments outcome {E R}.
Arguments requests {E R}.
Arguments waited {E R}.

(** The loop of [performSearchWithRetry] from the iteration [attempt] on,
    with [remaining = retries - attempt]; [respond i] is what [performSearch]
    does at the attempt of index [i]: it returns data or throws. *)
Fixpoint retryLoop {E R : Type} (respond : nat -> E + R)
  (attempt remaining : nat) : Attempts E R :=
  match respond attempt with
  | inr response => mkAttempts (inr response) 1 0
  | inl error =>
      match remaining with
      | O => mkAttempts (inl error) 1 0
      | S k =>
          let later := retryLoop respond (S attempt) k in
          mkAttempts (outcome later) (S (requests later))
            (requestDelay * 2 + waited later)
      end
  end.

Definition performSearchWithRetry {E R : Type} (respond : nat -> E + R)
  (retries : nat) : Attempts E R :=
  retryLoop respond 0 retries.

(** The token fields of the service object. *)
Record TokenState := mkTokenState {
  accessToken : option string;
  tokenExpiry : option Z
}.

(** The answer of the token endpoint: [access_token] and [expires_in]. *)
Record TokenGrant := mkTokenGrant {
  access_token : string;
  expires_in : Z
}.

(** [this.accessToken && this.tokenExpiry && Date.now() < this.tokenExpiry];
    the empty string and 0 are falsy. *)
Definition tokenUsable (st : TokenState) (now : Z) : option string :=
  match accessToken st, tokenExpiry st with
  | Some token, Some expiry =>
      if negb (String.eqb token "") && negb (expiry =? 0)%Z && (now <? expiry)%Z
      then Some token else None
  | _, _ => None
  end.

(** [authenticate]: the new state, the token returned (or the failure
    thrown), and the number of token requests sent.  [nowCheck] and
    [nowStore] are the two readings of the clock, [grant] is what the token
    endpoint answers when it is asked. *)
Definition authenticate {E : Type} (st : TokenState) (nowCheck nowStore : Z)
  (grant : E + TokenGrant) : TokenState * (E + string) * nat :=
  match tokenUsable st nowCheck with
  | Some token => (st, inr token, 0%nat)
  | None =>
      match grant with
      | inr g =>
          (mkTokenState (Some (access_token g))
             (Some (nowStore + expires_in g * 1000 - 60000)%Z),
           inr (access_token g), 1%nat)
      | inl error => (st, inl error, 1%nat)
      end
  end.

End Client.
Import Client.

(** ** Reports and statistics *)
Module Report.

(** The quotation mark. *)
Definition quoteChar : ascii := ascii_of_nat 34.
Definition quote : string := String quoteChar EmptyString.

(** [escapeCsv] on a string value: every quotation mark is doubled and the
    value is put between quotation marks. *)
Definition escapeCsv (value : string) : string :=
  quote ++ replaceAllChar quoteChar (quote ++ quote) value ++ quote.

(** A reader of one quoted field, as CSV readers work: after the opening
    quotation mark a doubled mark stands for one mark and a single mark
    closes the field.  It returns the field and the text after it; it is
    the reference [escapeCsv] is checked against, not code of the service. *)
Fixpoint readQuoted (s : string) : option (string * string) :=
  match s with
  | EmptyString => None
  | String c r =>
      if Ascii.eqb c quoteChar then
        match r with
        | String c' r' =>
            if Ascii.eqb c' quoteChar then
              match readQuoted r' with
              | Some (field, rest) => Some (String quoteChar field, rest)
              | None => None
              end
            else Some (EmptyString, r)
        | EmptyString => Some (EmptyString, EmptyString)
        end
      else
        match readQuoted r with
        | Some (field, rest) => Some (String c field, rest)
        | None => None
        end
  end.

Definition readField (s : string) : option (string * string) :=
  match s with
  | String c r => if Ascii.eqb c quoteChar then readQuoted r else None
  | EmptyString => None
  end.

(** What follows a field in a row: nothing, or a character that is not a
    quotation mark (fields are joined by commas, rows by line feeds). *)
Definition noQuoteAhead (rest : string) : bool :=
  match rest with
  | String c _ => negb (Ascii.eqb c quoteChar)
  | EmptyString => true
  end.

(** [Math.round]: the nearest integer, halves going up. *)
Definition mathRound (x : Q) : Z := Qfloor (x + (1 # 2)).

Definition calculateAverageConfidence (results : list Link) : Z :=
  if (List.length results =? 0)%nat then 0%Z
  else
    mathRound
      (fold_left (fun sum r => sum + orElseQ (confidence r) 0) results 0
       / inject_Z (Z.of_nat (List.length results))).

(** All confidences of a list lie between two bounds. *)
Definition confidencesWithin (lo hi : Z) (results : list Link) : Prop :=
  Forall (fun r => inject_Z lo <= confidence r /\ confidence r <= inject_Z hi)
    results.

End Report.
Import Report.

(** ** The first search phase *)
Module PatternSearch.

Definition exhaustivePatterns (username : string) : list string :=
  [ quote ++ username ++ quote;
    quote ++ "@" ++ username ++ quote;
    quote ++ username ++ quote ++ " telegram";
    quote ++ username ++ quote ++ " channel";
    quote ++ username ++ quote ++ " group";
    quote ++ "t.me/" ++ username ++ quote;
    username ++ " telegram";
    username ++ " t.me";
    username ++ " channel";
    username ++ " group";
    "telegram " ++ username;
    "channel " ++ username;
    "join " ++ username;
    "invite " ++ username;
    username ++ " bot";
    username ++ " community";
    username ++ " discussion" ].

Definition prioritySubreddits : list string :=
  [ "telegram"; "crypto"; "cryptocurrency"; "bitcoin"; "ethereum";
    "telegramchannels"; "TelegramBots"; "CryptoCurrency" ].

(** What the phase has done to the outside: the number of requests sent and
    the time spent in [delay], in milliseconds. *)
Record Net := mkNet { sent : nat; slept : Z }.

(** The array the phase builds, its [queryCount], and the requests and
    waits so far. *)
Record Progress (A : Type) := mkProgress {
  found : list A;
  queryCount : nat;
  net : Net
}.
Arguments mkProgress {A}.
Arguments found {A}.
Arguments queryCount {A}.
Arguments net {A}.

Section Phase.

Context {E R A : Type}.

(** The provider: the answer to the [n]-th request sent, which asks for
    [query] in [subreddit]; a failure is what [performSearch] throws. *)
Variable respond : nat -> string -> option string -> E + R.

(** [processResults] on an answer of the provider: [None] when it throws (an
    answer without a body, a child without [data], a post without a usable
    [created_utc]); it runs inside the [try] of the search it follows.
    [tagged] sets the two metadata fields on the results of a subreddit
    search. *)
Variable processResults : R -> string -> string -> option (list A).
Variable tagged : string -> string -> A -> A.

(** One call of [performSearchWithRetry] with its default of two retries. *)
Definition search (query : string) (subreddit : option string) (n : Net)
  : (E + R) * Net :=
  let a :=
    performSearchWithRetry
      (fun attempt => respond (sent n + attempt)%nat query subreddit) 2 in
  (outcome a, mkNet (sent n + requests a)%nat (slept n + waited a)%Z).

Definition delay (ms : Z) (n : Net) : Net := mkNet (sent n) (slept n + ms)%Z.

(** The body of the inner loop: a subreddit search that fails, or whose
    answer makes [processResults] throw, is skipped: nothing is pushed, the
    query is not counted and the delay is not taken. *)
Definition subredditSearch (username pattern : string) (p : Progress A)
  (subreddit : string) : Progress A :=
  match search pattern (Some subreddit) (net p) with
  | (inr subredditResults, n) =>
      match processResults subredditResults username pattern with
      | Some processed =>
          mkProgress (found p ++ map (tagged pattern subreddit) processed)
            (S (queryCount p)) (delay requestDelay n)
      | None => mkProgress (found p) (queryCount p) n
      end
  | (inl _, n) => mkProgress (found p) (queryCount p) n
  end.

(** The body of the outer loop: a global search that fails, or whose answer
    makes [processResults] throw, skips the count, the delay and the
    subreddit searches of its pattern. *)
Definition patternSearch (username : string) (p : Progress A)
  (pattern : string) : Progress A :=
  match search pattern None (net p) with
  | (inr globalResults, n) =>
      match processResults globalResults username pattern with
      | Some processed =>
          fold_left (subredditSearch username pattern) prioritySubreddits
            (mkProgress (found p ++ processed) (S (queryCount p))
               (delay requestDelay n))
      | None => mkProgress (found p) (queryCount p) n
      end
  | (inl _, n) => mkProgress (found p) (queryCount p) n
  end.

Definition executeExhaustivePatternSearch (username : string) (start : Net)
  : Progress A :=
  fold_left (patternSearch username) (exhaustivePatterns username)
    (mkProgress [] 0%nat start).

End Phase.

(** The cost of a stretch of the phase made of at most [most] searches that
    send at least [least] requests together: the counted queries, the
    requests and the waits between two states of the phase. *)
Definition withinBudget {A : Type} (least most : nat)
  (before after : Progress A) : Prop :=
  (queryCount before <= queryCount after)%nat
  /\ (queryCount after <= queryCount before + most)%nat
  /\ (sent (net before) + least <= sent (net after))%nat
  /\ (sent (net after) <= sent (net before) + 3 * most)%nat
  /\ (queryCount after - queryCount before
      <= sent (net after) - sent (net before))%nat
  /\ (500 * Z.of_nat (queryCount after - queryCount before)
      <= slept (net after) - slept (net before))%Z
  /\ (slept (net after) - slept (net before)
      <= 1000 * Z.of_nat (sent (net after) - sent (net before))
         - 500 * Z.of_nat (queryCount after - queryCount before))%Z.

(** Providers that fail, or answer, every request. *)
Definition alwaysFails {E R : Type}
  (respond : nat -> string -> option string -> E + R) : Prop :=
  forall n query subreddit, exists e, respond n query subreddit = inl e.

Definition alwaysAnswers {E R : Type}
  (respond : nat -> string -> option string -> E + R) : Prop :=
  forall n query subreddit, exists r, respond n query subreddit = inr r.

(** [processResults] returns normally on every answer the provider gives,
    or throws on every one of them. *)
Definition alwaysProcessed {E R A : Type}
  (respond : nat -> string -> option string -> E + R)
  (processResults : R -> string -> string -> option (list A)) : Prop :=
  forall n query subreddit r username pattern,
    respond n query subreddit = inr r ->
    exists processed, processResults r username pattern = Some processed.

Definition neverProcessed {E R A : Type}
  (respond : nat -> string -> option string -> E + R)
  (processResults : R -> string -> string -> option (list A)) : Prop :=
  forall n query subreddit r username pattern,
    respond n query subreddit = inr r ->
    processResults r username pattern = None.

End PatternSearch.
Import PatternSearch.

(** * Properties *)

Local Open Scope list_scope.

(** ** Strings *)
Module StringFacts.

Lemma charToLower_not_upper (c : ascii) : isUpperChar (charToLower c) = false.
Proof.
  destruct c as [[] [] [] [] [] [] [] []]; reflexivity.
Qed.

Lemma lowered_toLowerCase (s : string) : lowered (toLowerCase s) = true.
Proof.
  induction s as [|c r IH]; [reflexivity|].
  change (negb (isUpperChar (charToLower c)) && lowered (toLowerCase r) = true).
  rewrite charToLower_not_upper. exact IH.
Qed.

Lemma toLowerCase_lowered (s : string) :
  lowered s = true -> toLowerCase s = s.
Proof.
  induction s as [|c r IH]; [reflexivity|].
  change (negb (isUpperChar c) && lowered r = true ->
          String (charToLower c) (toLowerCase r) = String c r).
  intros H. apply andb_prop in H. destruct H as [Hc Hr].
  unfold charToLower. apply negb_true_iff in Hc. rewrite Hc.
  f_equal. exact (IH Hr).
Qed.

Lemma lowered_strDrop (n : nat) (s : string) :
  lowered s = true -> lowered (strDrop n s) = true.
Proof.
  revert s. induction n as [|n IH]; intros [|c r] H; auto.
  change (lowered (strDrop n r) = true). apply IH.
  change (negb (isUpperChar c) && lowered r = true) in H.
  apply andb_prop in H. tauto.
Qed.

Lemma lowered_stripLastChar (c : ascii) (s : string) :
  lowered s = true -> lowered (stripLastChar c s) = true.
Proof.
  induction s as [|d r IH]; auto.
  intros H.
  change (negb (isUpperChar d) && lowered r = true) in H.
  apply andb_prop in H. destruct H as [Hd Hr].
  destruct r as [|e r'].
  - change (lowered (if Ascii.eqb d c then EmptyString
                     else String d EmptyString) = true).
    destruct (Ascii.eqb d c); [reflexivity|].
    change (negb (isUpperChar d) && true = true). now rewrite Hd.
  - change (negb (isUpperChar d)
            && lowered (stripLastChar c (String e r')) = true).
    rewrite Hd. exact (IH Hr).
Qed.

Lemma lowered_stripPrefix (p s : string) :
  lowered s = true -> lowered (stripPrefix p s) = true.
Proof.
  intros H. unfold stripPrefix. destruct (prefix p s); auto.
  now apply lowered_strDrop.
Qed.

Lemma lowered_stripScheme (s : string) :
  lowered s = true -> lowered (stripScheme s) = true.
Proof.
  intros H. unfold stripScheme.
  destruct (prefix "http://" s); [now apply lowered_strDrop|].
  destruct (prefix "https://" s); [now apply lowered_strDrop|exact H].
Qed.

Lemma lowered_normalizeTelegramUrl (u : string) :
  lowered (normalizeTelegramUrl u) = true.
Proof.
  unfold normalizeTelegramUrl.
  apply lowered_stripLastChar, lowered_stripPrefix, lowered_stripScheme,
    lowered_toLowerCase.
Qed.

(** The extra [toLowerCase] of the deduplicator changes nothing: the key is
    the normalized URL. *)
Lemma dedupKey_normalized (l : Link) :
  dedupKey l = normalizeTelegramUrl (url l).
Proof.
  unfold dedupKey. apply toLowerCase_lowered, lowered_normalizeTelegramUrl.
Qed.

End StringFacts.
Import StringFacts.

(** ** Insertion-ordered maps *)
Section MapFacts.
Context {K V : Type} (keqb : K -> K -> bool).
Hypothesis keqb_eq : forall a b, keqb a b = true <-> a = b.

Lemma mapGet_In (k : K) (m : list (K * V)) (v : V) :
  mapGet keqb k m = Some v -> In (k, v) m.
Proof.
  induction m as [|[k' v'] r IH]; simpl; [discriminate|].
  destruct (keqb k k') eqn:E.
  - intros H. injection H as ->. apply keqb_eq in E. subst. now left.
  - intros H. right. now apply IH.
Qed.

Lemma mapGet_None (k : K) (m : list (K * V)) :
  mapGet keqb k m = None -> ~ In k (mapKeys m).
Proof.
  induction m as [|[k' v'] r IH]; simpl; [tauto|].
  destruct (keqb k k') eqn:E; [discriminate|].
  intros H [Hk|Hk].
  - subst. assert (keqb k k = true) by now apply keqb_eq. congruence.
  - now apply IH.
Qed.

Lemma mapSet_keys_present (k : K) (v : V) (m : list (K * V)) :
  In k (mapKeys m) -> mapKeys (mapSet keqb k v m) = mapKeys m.
Proof.
  induction m as [|[k' v'] r IH]; simpl; [tauto|].
  destruct (keqb k k') eqn:E; simpl.
  - apply keqb_eq in E. now subst.
  - intros [Hk|Hk].
    + subst. assert (keqb k k = true) by now apply keqb_eq. congruence.
    + f_equal. now apply IH.
Qed.

Lemma mapSet_keys_absent (k : K) (v : V) (m : list (K * V)) :
  ~ In k (mapKeys m) -> mapKeys (mapSet keqb k v m) = mapKeys m ++ [k].
Proof.
  induction m as [|[k' v'] r IH]; simpl; [reflexivity|].
  intros H. destruct (keqb k k') eqn:E; simpl.
  - apply keqb_eq in E. subst. tauto.
  - f_equal. apply IH. tauto.
Qed.

Lemma mapSet_In (k : K) (v : V) (m : list (K * V)) (e : K * V) :
  In e (mapSet keqb k v m) -> e = (k, v) \/ In e m.
Proof.
  induction m as [|[k' v'] r IH]; simpl.
  - intros [H|[]]; auto.
  - destruct (keqb k k'); simpl.
    + intros [H|H]; auto.
    + intros [H|H]; auto. destruct (IH H); auto.
Qed.

Lemma mapDelete_In (k : K) (m : list (K * V)) (e : K * V) :
  In e (mapDelete keqb k m) -> In e m.
Proof.
  induction m as [|[k' v'] r IH]; simpl; [tauto|].
  destruct (keqb k k'); simpl; [auto|].
  intros [H|H]; auto.
Qed.

Lemma mapSet_Forall (P : K * V -> Prop) (k : K) (v : V) (m : list (K * V)) :
  P (k, v) -> Forall P m -> Forall P (mapSet keqb k v m).
Proof.
  intros Hkv Hm. apply Forall_forall. intros e He.
  destruct (mapSet_In _ _ _ _ He) as [->|Hin]; [exact Hkv|].
  now apply (proj1 (Forall_forall P m) Hm).
Qed.

Lemma mapSet_NoDup_keys (k : K) (v : V) (m : list (K * V)) :
  NoDup (mapKeys m) -> NoDup (mapKeys (mapSet keqb k v m)).
Proof.
  intros Hm.
  destruct (mapGet keqb k m) eqn:G.
  - rewrite mapSet_keys_present; [exact Hm|].
    apply mapGet_In in G. now apply (in_map fst) in G.
  - apply mapGet_None in G. rewrite mapSet_keys_absent by exact G.
    apply NoDup_app; [exact Hm|repeat constructor; simpl; tauto|].
    intros x Hx [Hk|[]]. subst. tauto.
Qed.
End MapFacts.

(** ** Numbers *)
Module NumFacts.

Lemma orElseQ_zero (x : Q) : orElseQ x 0 == x.
Proof.
  unfold orElseQ. destruct (Qeq_bool x 0) eqn:E; [|reflexivity].
  apply Qeq_bool_eq in E. now rewrite E.
Qed.

Lemma Qltb_true (a b : Q) : Qltb a b = true <-> a < b.
Proof.
  unfold Qltb. rewrite negb_true_iff. split.
  - intros H. apply Qnot_le_lt. intros Hle.
    apply Qle_bool_iff in Hle. congruence.
  - intros H. destruct (Qle_bool b a) eqn:E; [|reflexivity].
    apply Qle_bool_iff in E. apply Qlt_not_le in H. tauto.
Qed.

Lemma Qltb_false (a b : Q) : Qltb a b = false <-> b <= a.
Proof.
  unfold Qltb. rewrite negb_false_iff. apply Qle_bool_iff.
Qed.

Lemma clamp100_bounds (x : Q) : 0 <= clamp100 x /\ clamp100 x <= 100.
Proof.
  unfold clamp100. split.
  - apply Q.min_glb; [apply Q.le_max_r|discriminate].
  - apply Q.le_min_r.
Qed.

End NumFacts.
Import NumFacts.

(** ** Deduplication *)
Module DedupFacts.

Lemma dedupStep_keyed (m : list (string * Link)) (link : Link) :
  keyed m -> keyed (dedupStep m link).
Proof.
  intros Hm. unfold dedupStep.
  destruct (mapGet String.eqb (dedupKey link) m) as [existing|] eqn:G.
  - apply (mapGet_In _ String.eqb_eq) in G.
    assert (Hk : dedupKey link = dedupKey existing)
      by exact (proj1 (Forall_forall _ m) Hm _ G).
    destruct (Qltb _ _); apply mapSet_Forall; auto.
  - apply mapSet_Forall; auto.
Qed.

Lemma dedupStep_NoDup (m : list (string * Link)) (link : Link) :
  NoDup (mapKeys m) -> NoDup (mapKeys (dedupStep m link)).
Proof.
  intros Hm. unfold dedupStep.
  destruct (mapGet String.eqb (dedupKey link) m) as [existing|];
    [destruct (Qltb _ _)|]; apply (mapSet_NoDup_keys _ String.eqb_eq); exact Hm.
Qed.

Lemma dedupMap_invariant (links : list Link) (m : list (string * Link)) :
  NoDup (mapKeys m) -> keyed m ->
  NoDup (mapKeys (fold_left dedupStep links m))
  /\ keyed (fold_left dedupStep links m).
Proof.
  revert m. induction links as [|l r IH]; intros m Hn Hk; simpl; [auto|].
  apply IH; [now apply dedupStep_NoDup|now apply dedupStep_keyed].
Qed.

Lemma keyed_values (m : list (string * Link)) :
  keyed m -> map normalizedUrl (mapValues m) = mapKeys m.
Proof.
  induction 1 as [|[k v] r Hkv Hr IH]; simpl; [reflexivity|].
  f_equal; [|exact IH].
  simpl in Hkv. unfold normalizedUrl. now rewrite <- dedupKey_normalized.
Qed.

Lemma dedup_unique (links : list Link) :
  NoDup (map normalizedUrl (ultraIntelligentDeduplication links)).
Proof.
  unfold ultraIntelligentDeduplication, dedupMap.
  destruct (dedupMap_invariant links []) as [Hn Hk];
    [constructor|constructor|].
  rewrite keyed_values by exact Hk. exact Hn.
Qed.

Lemma mapGet_mapSet_same (k : string) (v : Link) (m : list (string * Link)) :
  mapGet String.eqb k (mapSet String.eqb k v m) = Some v.
Proof.
  induction m as [|[k' v'] r IH]; simpl.
  - now rewrite String.eqb_refl.
  - destruct (String.eqb k k') eqn:E; simpl.
    + now rewrite String.eqb_refl.
    + now rewrite E.
Qed.

Lemma dedupStep_collision (m : list (string * Link)) (link existing : Link) :
  mapGet String.eqb (dedupKey link) m = Some existing ->
  dedupStep m link = mapSet String.eqb (dedupKey link) (mergeSurvivor existing link) m.
Proof.
  intros G. unfold dedupStep, mergeSurvivor. rewrite G.
  now destruct (Qltb _ _).
Qed.

Lemma mergeSurvivor_provenance (existing link : Link) :
  Permutation (provenance (mergeSurvivor existing link))
    (provenance existing ++ [redditSource (metadata link)]).
Proof.
  unfold mergeSurvivor.
  set (se := redditSource (metadata existing)).
  set (sl := redditSource (metadata link)).
  destruct (Qltb _ _).
  - change (Permutation (sl :: (mergedList existing ++ [se]))
              ((se :: mergedList existing) ++ [sl])).
    eapply Permutation_trans; [apply Permutation_cons_append|].
    apply Permutation_app_tail, Permutation_sym, Permutation_cons_append.
  - change (Permutation (se :: (mergedList existing ++ [sl]))
              ((se :: mergedList existing) ++ [sl])).
    reflexivity.
Qed.

End DedupFacts.
Import DedupFacts.

(** ** Stable sorting *)
Section SortFacts.
Context {A : Type} (compare : A -> A -> Q) (before : A -> A -> Prop).

Hypothesis before_iff :
  forall x y, Qle_bool (compare x y) 0 = true <-> before x y.
Hypothesis before_total : forall x y, ~ before x y -> before y x.
Hypothesis before_trans :
  forall x y z, before x y -> before y z -> before x z.

Lemma sortInsert_perm (x : A) (l : list A) :
  Permutation (sortInsert compare x l) (x :: l).
Proof.
  induction l as [|y r IH]; simpl; [reflexivity|].
  destruct (Qle_bool (compare x y) 0); [reflexivity|].
  rewrite IH. apply perm_swap.
Qed.

Lemma stableSort_perm (l : list A) : Permutation (stableSort compare l) l.
Proof.
  induction l as [|x r IH]; simpl; [reflexivity|].
  rewrite sortInsert_perm. now constructor.
Qed.

Lemma sortInsert_sorted (x : A) (l : list A) :
  StronglySorted before l -> StronglySorted before (sortInsert compare x l).
Proof.
  induction 1 as [|y r Hr IH Hy]; simpl.
  - repeat constructor.
  - destruct (Qle_bool (compare x y) 0) eqn:E.
    + apply before_iff in E. constructor; [now constructor|].
      constructor; [exact E|].
      eapply Forall_impl; [|exact Hy]. intros z Hz. now apply (before_trans x y z).
    + assert (Hyx : before y x).
      { apply before_total. intros Hxy. apply before_iff in Hxy. congruence. }
      constructor; [exact IH|].
      eapply Permutation_Forall; [symmetry; apply sortInsert_perm|].
      now constructor.
Qed.

Lemma stableSort_sorted (l : list A) :
  StronglySorted before (stableSort compare l).
Proof.
  induction l as [|x r IH]; simpl; [constructor|].
  now apply sortInsert_sorted.
Qed.

(** Inserting [x] does not move it behind an element of its own class. *)
Lemma sortInsert_filter (p : A -> bool) (x : A) (l : list A) :
  (forall y, p x = true -> p y = true -> before x y) ->
  filter p (sortInsert compare x l) = filter p (x :: l).
Proof.
  intros Hp. induction l as [|y r IH]; [reflexivity|].
  simpl sortInsert. destruct (Qle_bool (compare x y) 0) eqn:E; [reflexivity|].
  simpl filter in *. rewrite IH.
  destruct (p x) eqn:Px; [|reflexivity].
  destruct (p y) eqn:Py; [|reflexivity].
  specialize (Hp y eq_refl Py). apply before_iff in Hp. congruence.
Qed.

Lemma stableSort_filter (p : A -> bool) (l : list A) :
  (forall x y, p x = true -> p y = true -> before x y) ->
  filter p (stableSort compare l) = filter p l.
Proof.
  intros Hp. induction l as [|x r IH]; [reflexivity|].
  simpl stableSort. rewrite sortInsert_filter by (apply Hp).
  simpl. now rewrite IH.
Qed.
End SortFacts.

(** ** Ranking *)
Module RankFacts.

Lemma tieBreak_compare (s : string) (a b : Link) :
  isExact s a = isExact s b ->
  (Qle_bool (rankCompare s a b) 0 = true <-> tieBreak a b).
Proof.
  intros Hex. unfold rankCompare, tieBreak. rewrite Hex.
  rewrite andb_negb_r. replace (negb (isExact s b) && isExact s b) with false
    by (now destruct (isExact s b)).
  rewrite Qle_bool_iff.
  destruct (Qeq_bool (confidence b) (confidence a)) eqn:Ec; simpl.
  - apply Qeq_bool_eq in Ec.
    destruct (Z.eqb_spec (ownScore b) (ownScore a)) as [Es|Es]; simpl.
    + change 0 with (inject_Z 0). rewrite <- Zle_Qle. split.
      * intros H. right. split; [now symmetry|]. right. split; [auto|lia].
      * intros [H|[_ [H|[_ H]]]]; [lra|lia|lia].
    + change 0 with (inject_Z 0). rewrite <- Zle_Qle. split.
      * intros H. right. split; [now symmetry|]. left. lia.
      * intros [H|[_ [H|[H _]]]]; [lra|lia|congruence].
  - apply Qeq_bool_neq in Ec.
    rewrite !orElseQ_zero. split.
    + intros H. left. apply Qle_lteq in H. destruct H as [H|H].
      * lra.
      * exfalso. apply Ec. lra.
    + intros [H|[H _]]; [lra|]. exfalso. apply Ec. now symmetry.
Qed.

Lemma rankBefore_compare (s : string) (a b : Link) :
  Qle_bool (rankCompare s a b) 0 = true <-> rankBefore s a b.
Proof.
  unfold rankBefore.
  destruct (isExact s a) eqn:Ea, (isExact s b) eqn:Eb.
  - apply tieBreak_compare. congruence.
  - unfold rankCompare. rewrite Ea, Eb. simpl. tauto.
  - unfold rankCompare. rewrite Ea, Eb. simpl. split; [discriminate|tauto].
  - apply tieBreak_compare. congruence.
Qed.

Lemma tieBreak_total (a b : Link) : ~ tieBreak a b -> tieBreak b a.
Proof.
  unfold tieBreak. intros H.
  destruct (Q_dec (confidence a) (confidence b)) as [[Hlt|Hgt]|Heq].
  - now left.
  - exfalso. apply H. now left.
  - right. split; [now symmetry|].
    destruct (Z.lt_trichotomy (ownScore a) (ownScore b)) as [Hs|[Hs|Hs]].
    + now left.
    + right. split; [now symmetry|].
      destruct (Nat.le_gt_cases (mergedCount a) (mergedCount b)) as [Hn|Hn];
        [exact Hn|].
      exfalso. apply H. right. split; [exact Heq|]. right. split; [exact Hs|lia].
    + exfalso. apply H. right. split; [exact Heq|]. now left.
Qed.

Lemma tieBreak_trans (a b c : Link) : tieBreak a b -> tieBreak b c -> tieBreak a c.
Proof.
  unfold tieBreak.
  intros [H1|[E1 [H1|[F1 H1]]]] [H2|[E2 [H2|[F2 H2]]]];
    first [ left; lra
          | right; split; [lra|];
            first [ left; lia | right; split; lia ] ].
Qed.

Lemma rankBefore_total (s : string) (a b : Link) :
  ~ rankBefore s a b -> rankBefore s b a.
Proof.
  unfold rankBefore.
  destruct (isExact s a), (isExact s b); auto using tieBreak_total; tauto.
Qed.

Lemma rankBefore_trans (s : string) (a b c : Link) :
  rankBefore s a b -> rankBefore s b c -> rankBefore s a c.
Proof.
  unfold rankBefore.
  destruct (isExact s a), (isExact s b), (isExact s c);
    eauto using tieBreak_trans; tauto.
Qed.

Lemma sameKeys_before (s : string) (z x y : Link) :
  sameKeys s z x = true -> sameKeys s z y = true -> rankBefore s x y.
Proof.
  unfold sameKeys. intros Hx Hy.
  repeat (apply andb_prop in Hx; destruct Hx as [Hx ?]).
  repeat (apply andb_prop in Hy; destruct Hy as [Hy ?]).
  apply Bool.eqb_prop in Hx, Hy.
  repeat match goal with
         | H : Qeq_bool _ _ = true |- _ => apply Qeq_bool_eq in H
         | H : (_ =? _)%Z = true |- _ => apply Z.eqb_eq in H
         | H : (_ =? _)%nat = true |- _ => apply Nat.eqb_eq in H
         end.
  unfold rankBefore. rewrite <- Hx, <- Hy.
  assert (T : tieBreak x y).
  { right. split; [lra|]. right. split; lia. }
  now destruct (isExact s z).
Qed.

End RankFacts.
Import RankFacts.

(** ** Lists *)
Section ListFacts.
Context {A B : Type} (f : A -> B).

Lemma NoDup_map_filter (p : A -> bool) (l : list A) :
  NoDup (map f l) -> NoDup (map f (filter p l)).
Proof.
  induction l as [|x r IH]; simpl; [auto|].
  intros H. inversion H as [|? ? Hx Hr]; subst.
  destruct (p x); simpl; [|auto].
  constructor; [|auto].
  intros Hin. apply Hx. apply in_map_iff in Hin.
  destruct Hin as [y [Hy Hin]]. apply filter_In in Hin.
  apply in_map_iff. exists y. tauto.
Qed.

Lemma NoDup_map_firstn (n : nat) (l : list A) :
  NoDup (map f l) -> NoDup (map f (firstn n l)).
Proof.
  revert l. induction n as [|n IH]; intros [|x r] H; simpl; try constructor.
  - inversion H as [|? ? Hx Hr]; subst.
    intros Hin. apply Hx. apply in_map_iff in Hin.
    destruct Hin as [y [Hy Hin]]. apply in_map_iff. exists y.
    split; [exact Hy|]. rewrite <- (firstn_skipn n r). apply in_or_app. now left.
  - apply IH. now inversion H.
Qed.

Lemma Forall_firstn (P : A -> Prop) (n : nat) (l : list A) :
  Forall P l -> Forall P (firstn n l).
Proof.
  intros H. apply Forall_forall. intros x Hx.
  apply (proj1 (Forall_forall P l) H).
  rewrite <- (firstn_skipn n l). apply in_or_app. now left.
Qed.

Lemma Forall_filter (P : A -> Prop) (p : A -> bool) (l : list A) :
  Forall P l -> Forall P (filter p l).
Proof.
  intros H. apply Forall_forall. intros x Hx. apply filter_In in Hx.
  now apply (proj1 (Forall_forall P l) H).
Qed.

Lemma fold_left_invariant (P : A -> Prop) (g : A -> B -> A) (l : list B) (a : A) :
  P a -> (forall a b, P a -> P (g a b)) -> P (fold_left g l a).
Proof.
  intros Ha Hg. revert a Ha. induction l as [|b r IH]; simpl; auto.
Qed.
End ListFacts.

Lemma slice0_firstn {A} (n : Z) (l : list A) :
  exists k, slice0 n l = firstn k l.
Proof.
  unfold slice0. destruct (n <? 0)%Z; eauto.
Qed.

(** ** Scoring *)
Module ScoreFacts.

Lemma similarity_range (u1 u2 : string) :
  0 <= calculateUsernameSimilarity u1 u2 /\ calculateUsernameSimilarity u1 u2 <= 1.
Proof.
  unfold calculateUsernameSimilarity.
  destruct (String.eqb _ _); [split; discriminate|].
  destruct (_ || _); [split; discriminate|].
  set (m := Nat.max _ _). set (d := levenshteinDistance _ _).
  split; [apply Q.le_max_l|].
  apply Q.max_lub; [discriminate|].
  destruct m as [|m].
  - unfold Qdiv. simpl (/ inject_Z (Z.of_nat 0)). rewrite Qmult_0_r. discriminate.
  - apply Qle_shift_div_r.
    + change 0 with (inject_Z 0). rewrite <- Zlt_Qlt. lia.
    + rewrite Qmult_1_l. rewrite <- Zle_Qle. lia.
Qed.

Lemma similarity_exact (u : string) : calculateUsernameSimilarity u u = 1.
Proof.
  unfold calculateUsernameSimilarity. now rewrite String.eqb_refl.
Qed.

Lemma calculateBasicConfidence_range (data : PostData) (username : string) :
  0 <= calculateBasicConfidence data username
  /\ calculateBasicConfidence data username <= 100.
Proof. apply clamp100_bounds. Qed.

Lemma calculateAdvancedConfidence_range (u : string) (r : RawResult)
  (s : string) (i : nat) :
  0 <= calculateAdvancedConfidence u r s i
  /\ calculateAdvancedConfidence u r s i <= 100.
Proof. apply clamp100_bounds. Qed.

Lemma scoreLink_confOk (s : string) (l : Link) : confOk (scoreLink s l).
Proof. apply clamp100_bounds. Qed.

Lemma ultraAdvancedScoring_confOk (links : list Link) (s : string) :
  Forall confOk (ultraAdvancedScoring links s).
Proof.
  apply Forall_forall. intros x Hx. apply in_map_iff in Hx.
  destruct Hx as [l [<- _]]. apply scoreLink_confOk.
Qed.

Lemma mergeSurvivor_confOk (existing link : Link) :
  confOk existing -> confOk link -> confOk (mergeSurvivor existing link).
Proof.
  unfold mergeSurvivor. now destruct (Qltb _ _).
Qed.

Lemma dedup_confOk (links : list Link) :
  Forall confOk links -> Forall confOk (ultraIntelligentDeduplication links).
Proof.
  intros H. unfold ultraIntelligentDeduplication, mapValues, dedupMap.
  apply Forall_map.
  assert (G : forall l m,
             Forall confOk l -> Forall (fun e => confOk (snd e)) m ->
             Forall (fun e : string * Link => confOk (snd e)) (fold_left dedupStep l m)).
  { induction l as [|x r IH]; intros m Hl Hm; simpl; [exact Hm|].
    inversion Hl as [|? ? Hx Hr]; subst. apply IH; [exact Hr|].
    destruct (mapGet String.eqb (dedupKey x) m) as [existing|] eqn:E.
    - rewrite (dedupStep_collision _ _ _ E). apply mapSet_Forall; [|exact Hm].
      apply mergeSurvivor_confOk; [|exact Hx].
      apply (mapGet_In _ String.eqb_eq) in E.
      exact (proj1 (Forall_forall _ m) Hm _ E).
    - unfold dedupStep. rewrite E. now apply mapSet_Forall. }
  apply G; [exact H|constructor].
Qed.

Lemma Forall_confOk_map (g : Link -> Link) (links : list Link) :
  (forall l, confidence (g l) = confidence l) ->
  Forall confOk links -> Forall confOk (map g links).
Proof.
  intros Hg H. apply Forall_map. eapply Forall_impl; [|exact H].
  intros l Hl. unfold confOk. now rewrite Hg.
Qed.

Lemma postProcess_confOk (links : list Link) (u : string) :
  Forall confOk (postProcess links u).
Proof.
  unfold postProcess, ultraIntelligentRanking.
  eapply Permutation_Forall; [symmetry; apply stableSort_perm|].
  apply Forall_confOk_map; [reflexivity|].
  apply Forall_filter, ultraAdvancedScoring_confOk.
Qed.

Lemma applyOptions_Forall (P : Link -> Prop) (o : Options) (l : list Link) :
  Forall P l -> Forall P (applyOptions o l).
Proof.
  intros H. unfold applyOptions.
  destruct (slice0_firstn (dflt 1000%Z (maxResults o))
              (match truthyS (subredditFilter o) with
               | Some f =>
                   filter (fun r => includes (foundIn (redditSource (metadata r))) f)
                     (filter (fun r => Qle_bool (inject_Z (dflt 0%Z (minConfidence o)))
                                         (confidence r)) l)
               | None =>
                   filter (fun r => Qle_bool (inject_Z (dflt 0%Z (minConfidence o)))
                                      (confidence r)) l
               end)) as [k ->].
  apply Forall_firstn. destruct (truthyS _); repeat apply Forall_filter; exact H.
Qed.

Section Extraction.
Context {RE : RegexEngine}.

Lemma createUltraAdvancedTelegramLink_confOk (u m0 : string) (r : RawResult)
  (s : string) (i : nat) :
  confOk (createUltraAdvancedTelegramLink u m0 r s i).
Proof. exact (calculateAdvancedConfidence_range u r s i). Qed.

Lemma createUltraTelegramResult_confOk (t : TelegramRef) (r : RawResult)
  (s : string) :
  confOk (createUltraTelegramResult t r s).
Proof. exact (calculateAdvancedConfidence_range (ref_username t) r s 0). Qed.

Lemma inferredLink_confOk (t : string) (r : RawResult) :
  confOk (inferredLink t r).
Proof. split; discriminate. Qed.

Lemma extract_confOk (raw : list RawResult) (u : string) :
  Forall confOk (extractAllTelegramLinksUltra raw u).
Proof.
  unfold extractAllTelegramLinksUltra.
  apply Forall_flat_map, Forall_forall. intros r _.
  apply Forall_app; split; [|apply Forall_app; split].
  - apply Forall_map, Forall_forall. intros t _.
    apply createUltraTelegramResult_confOk.
  - unfold ultraAdvancedLinkExtraction.
    apply Forall_flat_map, Forall_forall. intros [i [m0 m1]] _.
    destruct (isValidTelegramUsername m1); constructor;
      [apply createUltraAdvancedTelegramLink_confOk|constructor].
  - unfold inferPossibleTelegramLinks.
    destruct (_ && _); [|constructor].
    apply Forall_flat_map, Forall_forall. intros t _.
    destruct (_ && _); constructor; [apply inferredLink_confOk|constructor].
Qed.
End Extraction.

End ScoreFacts.
Import ScoreFacts.

(** ** The cache and sequences of calls *)
Module CacheFacts.

Lemma keyEqb_eq (a b : CacheKey) : keyEqb a b = true <-> a = b.
Proof.
  unfold keyEqb. destruct a as [u o], b as [u' o']; simpl.
  destruct (Options_eq_dec o o') as [->|Hne].
  - rewrite andb_true_r, String.eqb_eq. split; [now intros ->|congruence].
  - rewrite andb_false_r. split; [discriminate|congruence].
Qed.

Section Invariant.
Context {RE : RegexEngine}.

(** A property of result lists, relative to the options they were
    computed for, that every fresh computation establishes. *)
Variable P : Options -> list Link -> Prop.
Hypothesis P_fresh :
  forall raw username options,
    P options (applyOptions options (ultraIntelligentProcessing raw username)).
Hypothesis P_nil : forall options, P options [].

Lemma getCachedResults_holds (c : Cache) (u : string) (o : Options) (now : Z)
  (cached : list Link) :
  cacheHolds P c -> getCachedResults c u o now = Some cached -> P o cached.
Proof.
  intros Hc. unfold getCachedResults, getCacheKey.
  destruct (mapGet keyEqb (u, o) c) as [e|] eqn:G; [|discriminate].
  destruct (_ <? _)%Z; [|discriminate].
  intros H. injection H as <-.
  apply (mapGet_In _ keyEqb_eq) in G.
  exact (proj1 (Forall_forall _ c) Hc _ G).
Qed.

Lemma setCachedResults_holds (c : Cache) (u : string) (o : Options)
  (l : list Link) (now : Z) :
  cacheHolds P c -> P o l -> cacheHolds P (setCachedResults c u o l now).
Proof.
  intros Hc Hl. unfold setCachedResults.
  assert (Hs : cacheHolds P (mapSet keyEqb (getCacheKey u o) (mkCacheEntry l now) c))
    by (apply mapSet_Forall; [exact Hl|exact Hc]).
  destruct (_ <? _)%nat; [|exact Hs].
  destruct (stableSort _ _) as [|oldest ?]; [exact Hs|].
  apply Forall_forall. intros e He. apply mapDelete_In in He.
  exact (proj1 (Forall_forall _ _) Hs _ He).
Qed.

Lemma search_holds (env : Env) (st : ServiceState) (u : string) (o : Options) :
  cacheHolds P (cache st) ->
  cacheHolds P (cache (fst (searchWithAdvancedOptions env st u o)))
  /\ P o (resultsOf (snd (searchWithAdvancedOptions env st u o))).
Proof.
  intros Hc. unfold searchWithAdvancedOptions.
  destruct (if dflt true (useCache o)
            then getCachedResults (cache st) u o (clockLookup env)
            else None) as [cached|] eqn:G.
  - simpl. split; [exact Hc|].
    destruct (dflt true (useCache o)); [|discriminate].
    exact (getCachedResults_holds _ _ _ _ _ Hc G).
  - unfold searchTelegramGroupsUltraExhaustive.
    destruct (authenticated env); [|simpl; auto].
    assert (Hf := P_fresh (providerResults env) u o).
    destruct (negb (String.eqb (dflt "json" (exportFormat o)) "json"));
      simpl; (split; [|exact Hf]);
      (destruct (dflt true (useCache o)); simpl;
       [now apply setCachedResults_holds|exact Hc]).
Qed.

Lemma runCalls_holds (calls : list Call) (st : ServiceState) :
  cacheHolds P (cache st) -> cacheHolds P (cache (runCalls st calls)).
Proof.
  unfold runCalls. revert st.
  induction calls as [|[[env u] o] r IH]; intros st Hc; simpl; [exact Hc|].
  apply IH. now apply search_holds.
Qed.

(** Whatever calls came before on a fresh service, the results of a call
    satisfy the property for the options of that call. *)
Lemma every_run (calls : list Call) (env : Env) (u : string) (o : Options) :
  P o (resultsOf (snd (searchWithAdvancedOptions env
                         (runCalls initialState calls) u o))).
Proof.
  apply search_holds, runCalls_holds. constructor.
Qed.
End Invariant.

End CacheFacts.
Import CacheFacts.

(** ** Uniqueness through the later stages *)
Module UniqueFacts.

Lemma postProcess_unique (links : list Link) (u : string) :
  NoDup (map normalizedUrl (postProcess links u)).
Proof.
  unfold postProcess, ultraIntelligentRanking.
  eapply Permutation_NoDup;
    [apply Permutation_map, Permutation_sym, stableSort_perm|].
  unfold enrichMetadata. rewrite map_map.
  change (fun x => normalizedUrl (enrichLink u x)) with normalizedUrl.
  apply NoDup_map_filter.
  unfold ultraAdvancedScoring. rewrite map_map.
  change (fun x => normalizedUrl (scoreLink u x)) with normalizedUrl.
  apply dedup_unique.
Qed.

Lemma applyOptions_unique (o : Options) (l : list Link) :
  NoDup (map normalizedUrl l) -> NoDup (map normalizedUrl (applyOptions o l)).
Proof.
  intros H. unfold applyOptions.
  match goal with |- context [slice0 ?n ?x] =>
    destruct (slice0_firstn n x) as [k ->] end.
  apply NoDup_map_firstn.
  destruct (truthyS _); repeat apply NoDup_map_filter; exact H.
Qed.

End UniqueFacts.
Import UniqueFacts.

(** ** Variations *)
Module VariationFacts.

Lemma setHas_In (x : string) (s : list string) :
  setHas x s = true <-> In x s.
Proof.
  unfold setHas. rewrite existsb_exists. split.
  - intros [y [Hy E]]. apply String.eqb_eq in E. now subst.
  - intros H. exists x. split; [exact H|apply String.eqb_refl].
Qed.

Lemma setAdd_NoDup (x : string) (s : list string) :
  NoDup s -> NoDup (setAdd x s).
Proof.
  intros H. unfold setAdd. destruct (setHas x s) eqn:E; [exact H|].
  apply NoDup_app; [exact H|repeat constructor; simpl; tauto|].
  intros y Hy [<-|[]]. apply setHas_In in Hy. congruence.
Qed.

Ltac nodup_set :=
  repeat first
    [ assumption
    | apply NoDup_nil
    | apply setAdd_NoDup
    | apply (fold_left_invariant (@NoDup string)); [|intros ? ? ?]
    | match goal with
      | |- NoDup (if ?c then _ else _) => destruct c
      end ].

Lemma variationSet_NoDup (username : string) : NoDup (variationSet username).
Proof.
  unfold variationSet. cbv zeta. nodup_set.
Qed.

End VariationFacts.
Import VariationFacts.

(** * The claims *)

(** C1. The list returned by [ultraIntelligentDeduplication] never holds two
    candidates whose URLs have the same normalized form (lower case, scheme,
    leading "www." and trailing slash removed); the later stages only drop
    or reorder candidates, so the results of every call of
    [searchWithAdvancedOptions] on a service object are free of such
    duplicates as well. *)
Theorem dedup_results_unique :
  (forall links : list Link,
      NoDup (map normalizedUrl (ultraIntelligentDeduplication links)))
  /\ (forall (RE : RegexEngine) (calls : list Call) (env : Env)
        (username : string) (options : Options),
         NoDup (map normalizedUrl
                  (resultsOf (snd (searchWithAdvancedOptions env
                                     (runCalls initialState calls)
                                     username options))))).
Proof.
  split; [exact dedup_unique|].
  intros RE calls env username options.
  apply (every_run (fun _ l => NoDup (map normalizedUrl l))).
  - intros raw u o. apply applyOptions_unique, postProcess_unique.
  - intros _. constructor.
Qed.

(** C2, as the specification states it, fails: a merge does not keep the
    merged entries an incoming candidate already carries.  A stored
    candidate with 1 entry and a less confident incoming one with 3 leave a
    survivor with 2 entries, fewer than the larger of the two. *)
Lemma merge_drops_incoming_merged :
  dedupKey singleLink = dedupKey mergedLink
  /\ List.length (provenance singleLink) = 1%nat
  /\ List.length (provenance mergedLink) = 3%nat
  /\ ultraIntelligentDeduplication [singleLink; mergedLink]
     = [setMergedSources [redditSource (metadata mergedLink)] singleLink]
  /\ List.length
       (provenance (setMergedSources [redditSource (metadata mergedLink)] singleLink))
     = 2%nat
  /\ ~ mergeMonotone.
Proof.
  assert (K : dedupKey singleLink = dedupKey mergedLink)
    by (vm_compute; reflexivity).
  assert (D : ultraIntelligentDeduplication [singleLink; mergedLink]
              = [setMergedSources [redditSource (metadata mergedLink)] singleLink])
    by (vm_compute; reflexivity).
  repeat split; try reflexivity; try exact K; try exact D.
  intros H. specialize (H _ _ _ K D). vm_compute in H. lia.
Qed.

(** C2, amended.  When an incoming candidate that carries only its own
    source entry collides with the stored candidate of the same normalized
    URL, the survivor's provenance is the stored candidate's entries plus
    the incoming entry: its size is [m + n] (with [n = 1]), at least
    [max m n], and every entry of both candidates is still there. *)
Theorem merge_keeps_provenance :
  forall (m : list (string * Link)) (link existing : Link),
    mapGet String.eqb (dedupKey link) m = Some existing ->
    mergedSources (metadata link) = None ->
    exists survivor,
      mapGet String.eqb (dedupKey link) (dedupStep m link) = Some survivor
      /\ Permutation (provenance survivor) (provenance existing ++ provenance link)
      /\ List.length (provenance survivor)
         = (List.length (provenance existing) + List.length (provenance link))%nat
      /\ (Nat.max (List.length (provenance existing))
                  (List.length (provenance link))
          <= List.length (provenance survivor))%nat
      /\ (forall s, In s (provenance existing) \/ In s (provenance link) ->
                    In s (provenance survivor)).
Proof.
  intros m link existing G Hnone.
  exists (mergeSurvivor existing link).
  assert (Hl : provenance link = [redditSource (metadata link)])
    by (unfold provenance, mergedList; now rewrite Hnone).
  assert (Hp := mergeSurvivor_provenance existing link). rewrite <- Hl in Hp.
  assert (Hlen := Permutation_length Hp). rewrite length_app in Hlen.
  repeat split.
  - rewrite (dedupStep_collision _ _ _ G). apply mapGet_mapSet_same.
  - exact Hp.
  - exact Hlen.
  - lia.
  - intros s Hs. apply (Permutation_in s (Permutation_sym Hp)).
    apply in_or_app. exact Hs.
Qed.

Lemma merge_keeps_provenance_witness :
  mapGet String.eqb (dedupKey incomingLink) storedMap = Some storedLink
  /\ mergedSources (metadata incomingLink) = None
  /\ exists survivor,
      mapGet String.eqb (dedupKey incomingLink) (dedupStep storedMap incomingLink)
      = Some survivor
      /\ List.length (provenance survivor) = 3%nat.
Proof.
  assert (G : mapGet String.eqb (dedupKey incomingLink) storedMap = Some storedLink)
    by (vm_compute; reflexivity).
  split; [exact G|]. split; [reflexivity|].
  destruct (merge_keeps_provenance storedMap incomingLink storedLink G eq_refl)
    as [survivor [Hs [_ [Hlen _]]]].
  exists survivor. split; [exact Hs|]. rewrite Hlen. reflexivity.
Defined.

(** C3. Every confidence the pipeline produces lies in [0, 100]: each of the
    three scoring functions returns a clamped value; the extractor only
    builds candidates scored by [calculateAdvancedConfidence] (or the
    constant 45 of an inferred link); deduplication, filtering, enrichment
    and ranking keep the confidences they are given; and so do the option
    filters and the cache of [searchWithAdvancedOptions]. *)
Theorem confidence_always_in_range :
  (forall (data : PostData) (username : string),
      0 <= calculateBasicConfidence data username
      /\ calculateBasicConfidence data username <= 100)
  /\ (forall extractedUsername sourceResult searchUsername patternIndex,
         0 <= calculateAdvancedConfidence extractedUsername sourceResult
                searchUsername patternIndex
         /\ calculateAdvancedConfidence extractedUsername sourceResult
              searchUsername patternIndex <= 100)
  /\ (forall links searchUsername,
         Forall confOk (ultraAdvancedScoring links searchUsername))
  /\ (forall (RE : RegexEngine) (allResults : list RawResult) (username : string),
         let telegramLinks := extractAllTelegramLinksUltra allResults username in
         let deduplicatedLinks := ultraIntelligentDeduplication telegramLinks in
         let scoredLinks := ultraAdvancedScoring deduplicatedLinks username in
         let highQualityLinks := ultraQualityFilter scoredLinks username in
         let enrichedLinks := enrichMetadata highQualityLinks username in
         Forall confOk telegramLinks
         /\ Forall confOk deduplicatedLinks
         /\ Forall confOk scoredLinks
         /\ Forall confOk highQualityLinks
         /\ Forall confOk enrichedLinks
         /\ Forall confOk (ultraIntelligentRanking enrichedLinks username))
  /\ (forall (RE : RegexEngine) (calls : list Call) (env : Env)
        (username : string) (options : Options),
         Forall confOk
           (resultsOf (snd (searchWithAdvancedOptions env
                              (runCalls initialState calls) username options)))).
Proof.
  split; [exact calculateBasicConfidence_range|].
  split; [exact calculateAdvancedConfidence_range|].
  split; [exact ultraAdvancedScoring_confOk|].
  split.
  - intros RE allResults username. cbv zeta.
    assert (Hs := ultraAdvancedScoring_confOk
                    (ultraIntelligentDeduplication
                       (extractAllTelegramLinksUltra allResults username))
                    username).
    assert (Hf := Forall_filter confOk passesQuality _ Hs).
    assert (He := Forall_confOk_map (enrichLink username) _
                    (fun l => eq_refl) Hf).
    repeat split.
    + apply extract_confOk.
    + apply dedup_confOk, extract_confOk.
    + exact Hs.
    + exact Hf.
    + exact He.
    + eapply Permutation_Forall; [symmetry; apply stableSort_perm|exact He].
  - intros RE calls env username options.
    apply (every_run (fun _ l => Forall confOk l)).
    + intros raw u o. apply applyOptions_Forall, postProcess_confOk.
    + intros _. constructor.
Qed.




(** C5. [ultraIntelligentRanking] returns a permutation of its input, ordered
    by the four keys in turn (exact match with the searched name first, then
    higher confidence, then higher Reddit score of the candidate's own
    source, then more merged sources), and candidates that agree on all four
    keys keep their relative input order. *)
Theorem ranking_sorted_stable :
  forall (links : list Link) (searchUsername : string),
    Permutation (ultraIntelligentRanking links searchUsername) links
    /\ StronglySorted (rankBefore searchUsername)
         (ultraIntelligentRanking links searchUsername)
    /\ (forall z : Link,
           filter (sameKeys searchUsername z)
             (ultraIntelligentRanking links searchUsername)
           = filter (sameKeys searchUsername z) links).
Proof.
  intros links s. unfold ultraIntelligentRanking. split; [|split].
  - apply stableSort_perm.
  - apply stableSort_sorted.
    + apply rankBefore_compare.
    + apply rankBefore_total.
    + apply rankBefore_trans.
  - intros z. apply stableSort_filter with (before := rankBefore s).
    + apply rankBefore_compare.
    + intros x y. apply sameKeys_before.
Qed.

(** C6. [ultraQualityFilter] keeps, in input order, exactly the candidates
    with confidence at least 30 and a user name of at least 5 characters
    that is neither a stop word nor on the suspicious list. *)
Theorem quality_filter_exact :
  forall (links : list Link) (searchUsername : string),
    ultraQualityFilter links searchUsername = filter keptBySpec links
    /\ (forall c, In c (ultraQualityFilter links searchUsername)
                  <-> In c links /\ Kept c).
Proof.
  assert (Hex : forall x l, existsb (String.eqb x) l = true <-> In x l).
  { intros x l. rewrite existsb_exists. split.
    - intros [y [Hy E]]. apply String.eqb_eq in E. now subst.
    - intros H. exists x. split; [exact H|apply String.eqb_refl]. }
  assert (Hb : forall c, passesQuality c = keptBySpec c).
  { intros c. unfold passesQuality, keptBySpec, Qltb, isCommonWord,
      isSuspiciousUsername, listIncludes.
    destruct (Qle_bool 30 (confidence c)); cbn [negb andb]; [|reflexivity].
    destruct (String.eqb_spec (username c) "") as [E|E].
    - rewrite E. reflexivity.
    - cbn [orb].
      destruct (Nat.ltb_spec (String.length (username c)) 5),
        (Nat.leb_spec 5 (String.length (username c)));
        try lia; try reflexivity; cbn [andb].
      destruct (existsb _ commonWords); cbn [negb andb]; [reflexivity|].
      now destruct (existsb _ suspicious). }
  assert (Hk : forall c, keptBySpec c = true <-> Kept c).
  { intros c. unfold keptBySpec, Kept.
    rewrite !andb_true_iff, !negb_true_iff, Qle_bool_iff, Nat.leb_le.
    rewrite <- !not_true_iff_false, !Hex. tauto. }
  intros links searchUsername. split.
  - unfold ultraQualityFilter. apply filter_ext. exact Hb.
  - intros c. unfold ultraQualityFilter. rewrite filter_In, Hb, Hk. tauto.
Qed.

(** C7, as the specification states it, fails for a negative [maxResults]:
    [slice(0, -1)] drops the last result only, so of the two results of the
    sample search one is returned although -1 allows none. *)
Lemma negative_maxResults_exceeded :
  map url (resultsOf (snd (@searchWithAdvancedOptions quietEngine sampleEnv
                             initialState "alphachannel" noOptions)))
  = ["https://t.me/alphachannel"; "https://t.me/alphachannel_news"]
  /\ map url (resultsOf (snd (@searchWithAdvancedOptions quietEngine sampleEnv
                                initialState "alphachannel"
                                (optionsMaxResults (-1)))))
     = ["https://t.me/alphachannel"]
  /\ ~ resultsWithinOptions.
Proof.
  split; [vm_compute; reflexivity|]. split; [vm_compute; reflexivity|].
  intros H.
  destruct (H quietEngine [] sampleEnv "alphachannel" (optionsMaxResults (-1)))
    as [_ Hlen].
  vm_compute in Hlen. apply Hlen. reflexivity.
Qed.

(** C7, amended.  For every call of [searchWithAdvancedOptions] on a service
    object, every returned candidate has a confidence of at least
    [minConfidence], and, when [maxResults] is not negative, at most
    [maxResults] candidates are returned. *)
Theorem results_within_options :
  forall (RE : RegexEngine) (calls : list Call) (env : Env) (username : string)
         (options : Options),
    Forall (fun c => inject_Z (dflt 0%Z (minConfidence options)) <= confidence c)
      (resultsOf (snd (searchWithAdvancedOptions env (runCalls initialState calls)
                         username options)))
    /\ ((0 <= dflt 1000 (maxResults options))%Z ->
        (Z.of_nat
           (List.length
              (resultsOf (snd (searchWithAdvancedOptions env
                                 (runCalls initialState calls) username options))))
         <= dflt 1000 (maxResults options))%Z).
Proof.
  intros RE calls env username options.
  pose (P := fun (o : Options) (l : list Link) =>
               Forall (fun c => inject_Z (dflt 0%Z (minConfidence o)) <= confidence c) l
               /\ ((0 <= dflt 1000 (maxResults o))%Z ->
                   (Z.of_nat (List.length l) <= dflt 1000 (maxResults o))%Z)).
  assert (HP : P options
                 (resultsOf (snd (searchWithAdvancedOptions env
                                    (runCalls initialState calls) username options)))).
  { apply (every_run P).
    - intros raw u o. unfold P, applyOptions.
      set (byConfidence := filter _ (ultraIntelligentProcessing raw u)).
      assert (Hc : Forall (fun c => inject_Z (dflt 0%Z (minConfidence o))
                                    <= confidence c) byConfidence).
      { apply Forall_forall. intros c Hin. apply filter_In in Hin.
        now apply Qle_bool_iff. }
      set (bySubreddit := match truthyS (subredditFilter o) with
                          | Some f => filter _ byConfidence
                          | None => byConfidence
                          end).
      assert (Hs : Forall (fun c => inject_Z (dflt 0%Z (minConfidence o))
                                    <= confidence c) bySubreddit).
      { unfold bySubreddit. destruct (truthyS _); [now apply Forall_filter|exact Hc]. }
      split.
      + destruct (slice0_firstn (dflt 1000%Z (maxResults o)) bySubreddit) as [k ->].
        now apply Forall_firstn.
      + intros Hn. unfold slice0.
        destruct (Z.ltb_spec (dflt 1000%Z (maxResults o)) 0); [lia|].
        pose proof (firstn_le_length (Z.to_nat (dflt 1000%Z (maxResults o)))
                      bySubreddit).
        lia.
    - intros o. split; [constructor|]. simpl. auto. }
  exact HP.
Qed.

Lemma results_within_options_witness :
  (0 <= dflt 1000 (maxResults (optionsMaxResults 1)))%Z
  /\ (Z.of_nat
        (List.length
           (resultsOf (snd (@searchWithAdvancedOptions quietEngine sampleEnv
                              (@runCalls quietEngine initialState [])
                              "alphachannel" (optionsMaxResults 1)))))
      <= dflt 1000 (maxResults (optionsMaxResults 1)))%Z.
Proof.
  assert (H : (0 <= dflt 1000 (maxResults (optionsMaxResults 1)))%Z)
    by (vm_compute; discriminate).
  split; [exact H|].
  exact (proj2 (results_within_options quietEngine [] sampleEnv "alphachannel"
                  (optionsMaxResults 1)) H).
Defined.

(** ** Signal magnitudes *)
Module MagnitudeFacts.

Ltac by_cases_bonus :=
  unfold bonus;
  repeat match goal with
         | |- context [if ?c then _ else _] => destruct c
         end;
  vm_compute; discriminate.

Lemma max_popularity : maxContribution popularityBonus 45.
Proof.
  split.
  - intros z. unfold popularityBonus. by_cases_bonus.
  - exists 201%Z. reflexivity.
Qed.

Lemma max_extraction_popularity : maxContribution extractionPopularityBonus 25.
Proof.
  split.
  - intros z. unfold extractionPopularityBonus. by_cases_bonus.
  - exists 51%Z. reflexivity.
Qed.

Lemma max_specialization : maxContribution specializationBonus 40.
Proof.
  split.
  - intros f. unfold specializationBonus. cbv zeta. by_cases_bonus.
  - exists "r/telegram_crypto". reflexivity.
Qed.

Lemma max_similarity : maxContribution similarityOf 30.
Proof.
  split.
  - intros [a b]. unfold similarityOf, similarityBonus. simpl.
    pose proof (similarity_range a b). lra.
  - exists ("alphachannel", "AlphaChannel"). reflexivity.
Qed.

Lemma max_searchMethod : maxContribution searchMethodBonus 20.
Proof.
  split.
  - intros m. unfold searchMethodBonus.
    repeat match goal with
           | |- context [if ?c then _ else _] => destruct c
           end; discriminate.
  - exists "direct_extraction". reflexivity.
Qed.

Lemma max_pattern : maxContribution patternBonus 30.
Proof.
  split.
  - intros i. unfold patternBonus, patternBonuses.
    do 10 (destruct i as [|i]; [vm_compute; discriminate|]).
    simpl. destruct i; discriminate.
  - exists 2%nat. reflexivity.
Qed.

Lemma max_scamPenalty : maxContribution scamPenalty 25.
Proof.
  split.
  - intros t. unfold scamPenalty. cbv zeta. by_cases_bonus.
  - exists "SCAM fake giveaway". reflexivity.
Qed.

Lemma max_trust : maxContribution trustBonus 30.
Proof.
  split.
  - intros t. unfold trustBonus. cbv zeta. by_cases_bonus.
  - exists "Official verified channel". reflexivity.
Qed.

End MagnitudeFacts.
Import MagnitudeFacts.

(** C8, as the specification states it, fails on both scorers and in both
    halves: in [ultraAdvancedScoring] popularity can add 45, more than the
    30 of similarity, and the search-method bonus at most 20; in
    [calculateAdvancedConfidence] the pattern bonus (30) stays below the
    specialization bonus (40); and an exact-match similarity bonus (30) is
    larger than the scam penalty (25). *)
Lemma signal_order_refuted :
  popularityBonus 201 == 45
  /\ similarityBonus "alphachannel" "alphachannel" == 30
  /\ scamPenalty "SCAM fake giveaway" == 25
  /\ ~ signalOrder popularityBonus searchMethodBonus
  /\ ~ signalOrder extractionPopularityBonus patternBonus
  /\ ~ penaltyDominatesSimilarity.
Proof.
  split; [reflexivity|]. split; [reflexivity|]. split; [reflexivity|].
  split; [|split].
  - intros H.
    destruct (H 45 30 40 20 max_popularity max_similarity max_specialization
                max_searchMethod) as [H1 _].
    vm_compute in H1. discriminate.
  - intros H.
    destruct (H 25 30 40 30 max_extraction_popularity max_similarity
                max_specialization max_pattern) as [_ [_ H3]].
    vm_compute in H3. discriminate.
  - intros H.
    assert (E : scamPenalty "SCAM fake giveaway" == 25) by reflexivity.
    specialize (H "SCAM fake giveaway" "alphachannel" "alphachannel" E).
    vm_compute in H. discriminate.
Qed.

(** C8, amended.  The largest totals the signal classes can add in
    [ultraAdvancedScoring] are 20 for the search method, 30 for similarity,
    40 for specialization and 45 for popularity (in
    [calculateAdvancedConfidence]: 25 for popularity, 30 for similarity and
    30 for the pattern); the scam or fake penalty is 25, the same as the
    single "telegram" subreddit bonus and less than an exact-match
    similarity bonus. *)
Theorem signal_magnitudes :
  maxContribution searchMethodBonus 20
  /\ maxContribution similarityOf 30
  /\ maxContribution specializationBonus 40
  /\ maxContribution popularityBonus 45
  /\ maxContribution extractionPopularityBonus 25
  /\ maxContribution patternBonus 30
  /\ maxContribution scamPenalty 25
  /\ maxContribution trustBonus 30
  /\ specializationBonus "r/telegram" == 25
  /\ (forall u, similarityBonus u u == 30).
Proof.
  repeat split;
    try apply max_searchMethod; try apply max_similarity;
    try apply max_specialization; try apply max_popularity;
    try apply max_extraction_popularity; try apply max_pattern;
    try apply max_scamPenalty; try apply max_trust.
  intros u. unfold similarityBonus. now rewrite similarity_exact.
Qed.

(** C9. For every printable-ASCII identifier of at least 3 characters,
    [generateMassiveVariations] returns (it is a total function) a list
    without duplicates, of at most 100 variations, each of 3 to 35
    characters. *)
Theorem variations_bounded :
  forall username : string,
    strForall isPrintableChar username = true ->
    (3 <= String.length username)%nat ->
    NoDup (generateMassiveVariations username)
    /\ (List.length (generateMassiveVariations username) <= 100)%nat
    /\ Forall (fun v => (3 <= String.length v)%nat /\ (String.length v <= 35)%nat)
         (generateMassiveVariations username).
Proof.
  intros username _ _. unfold generateMassiveVariations. split; [|split].
  - rewrite <- (map_id (firstn 100 _)). apply NoDup_map_firstn.
    rewrite map_id. apply NoDup_filter, variationSet_NoDup.
  - apply firstn_le_length.
  - apply Forall_firstn, Forall_forall. intros v Hv.
    apply filter_In in Hv. destruct Hv as [_ Hv].
    unfold lengthInBounds in Hv. apply andb_prop in Hv.
    destruct Hv as [H3 H35]. apply Nat.leb_le in H3, H35. now split.
Qed.

Lemma variations_bounded_witness :
  strForall isPrintableChar "abc" = true
  /\ (3 <= String.length "abc")%nat
  /\ (List.length (generateMassiveVariations "abc") <= 100)%nat.
Proof.
  split; [reflexivity|]. split; [apply le_n|].
  exact (proj1 (proj2 (variations_bounded "abc" eq_refl (le_n 3)))).
Defined.

(** ** Ties in the deduplicator *)
Module TieFacts.

Lemma dedupMap_snoc (links : list Link) (b : Link) :
  dedupMap (links ++ [b]) = dedupStep (dedupMap links) b.
Proof.
  unfold dedupMap. now rewrite fold_left_app.
Qed.

Lemma tie_keeps_existing (existing b : Link) :
  confidence b <= confidence existing ->
  mergeSurvivor existing b
  = setMergedSources (mergedList existing ++ [ownSource b]) existing.
Proof.
  intros H. unfold mergeSurvivor.
  destruct (Qltb _ _) eqn:E; [|reflexivity].
  apply Qltb_true in E. rewrite !orElseQ_zero in E.
  exfalso. exact (Qlt_not_le _ _ E H).
Qed.

Lemma higher_replaces_existing (existing b : Link) :
  confidence existing < confidence b ->
  mergeSurvivor existing b
  = setMergedSources (mergedList existing ++ [ownSource existing]) b.
Proof.
  intros H. unfold mergeSurvivor.
  destruct (Qltb _ _) eqn:E; [reflexivity|].
  apply Qltb_false in E. rewrite !orElseQ_zero in E.
  exfalso. exact (Qlt_not_le _ _ H E).
Qed.

(** A run of candidates for one destination, none more confident than
    the first, folds into the first. *)
Lemma ties_fold (k : string) (rest : list Link) (ms : list RedditSource) (a : Link) :
  Forall (fun c => dedupKey c = k /\ confidence c <= confidence a) rest ->
  fold_left dedupStep rest [(k, setMergedSources ms a)]
  = [(k, setMergedSources (ms ++ map ownSource rest) a)].
Proof.
  revert ms. induction rest as [|c r IH]; intros ms H; simpl.
  - now rewrite app_nil_r.
  - inversion H as [|? ? [Hk Hc] Hr]; subst.
    assert (G : mapGet String.eqb (dedupKey c)
                  [(dedupKey c, setMergedSources ms a)]
                = Some (setMergedSources ms a))
      by (simpl; now rewrite String.eqb_refl).
    rewrite (dedupStep_collision _ _ _ G).
    rewrite tie_keeps_existing by exact Hc.
    simpl mapSet. rewrite String.eqb_refl.
    change (setMergedSources
              (mergedList (setMergedSources ms a) ++ [ownSource c])
              (setMergedSources ms a))
      with (setMergedSources (ms ++ [ownSource c]) a).
    rewrite (IH (ms ++ [ownSource c]) Hr).
    now rewrite <- app_assoc.
Qed.

End TieFacts.
Import TieFacts.

(** C10. The comparison of the deduplicator is a strict "greater than": an
    incoming candidate whose confidence equals that of the candidate stored
    for its key leaves the stored one in place, at its position, and adds
    its own source to the stored one's merged sources; only a strictly
    higher confidence replaces the stored candidate.  Hence, of several
    candidates for one destination with equal confidence, the first of the
    input survives and collects the sources of the others in input order.
    The output is a function of the input list. *)
Theorem dedup_tie_keeps_earlier :
  (forall (links : list Link) (existing b : Link),
      mapGet String.eqb (dedupKey b) (dedupMap links) = Some existing ->
      confidence b == confidence existing ->
      dedupMap (links ++ [b])
      = mapSet String.eqb (dedupKey b)
          (setMergedSources (mergedList existing ++ [ownSource b]) existing)
          (dedupMap links))
  /\ (forall (links : list Link) (existing b : Link),
         mapGet String.eqb (dedupKey b) (dedupMap links) = Some existing ->
         confidence existing < confidence b ->
         dedupMap (links ++ [b])
         = mapSet String.eqb (dedupKey b)
             (setMergedSources (mergedList existing ++ [ownSource existing]) b)
             (dedupMap links))
  /\ (forall (a b : Link) (rest : list Link),
         Forall (fun c => dedupKey c = dedupKey a /\ confidence c == confidence a)
           (b :: rest) ->
         ultraIntelligentDeduplication (a :: b :: rest)
         = [setMergedSources (mergedList a ++ map ownSource (b :: rest)) a]).
Proof.
  split; [|split].
  - intros links existing b G E.
    rewrite dedupMap_snoc, (dedupStep_collision _ _ _ G), tie_keeps_existing;
      [reflexivity|].
    rewrite E. apply Qle_refl.
  - intros links existing b G L.
    rewrite dedupMap_snoc, (dedupStep_collision _ _ _ G),
      higher_replaces_existing; [reflexivity|exact L].
  - intros a b rest H.
    unfold ultraIntelligentDeduplication, dedupMap.
    inversion H as [|? ? [Hk Hc] Hr]; subst.
    change (fold_left dedupStep (a :: b :: rest) [])
      with (fold_left dedupStep rest (dedupStep [(dedupKey a, a)] b)).
    assert (G : mapGet String.eqb (dedupKey b) [(dedupKey a, a)] = Some a)
      by (simpl; now rewrite Hk, String.eqb_refl).
    rewrite (dedupStep_collision _ _ _ G), tie_keeps_existing
      by (rewrite Hc; apply Qle_refl).
    simpl mapSet. rewrite Hk, String.eqb_refl.
    rewrite (ties_fold (dedupKey a) rest (mergedList a ++ [ownSource b]) a).
    + simpl. now rewrite <- app_assoc.
    + eapply Forall_impl; [|exact Hr]. intros c [Hck Hcc].
      split; [exact Hck|]. rewrite Hcc. apply Qle_refl.
Qed.

Lemma dedup_tie_keeps_earlier_witness :
  mapGet String.eqb (dedupKey tiedLink) (dedupMap [storedLink]) = Some storedLink
  /\ confidence tiedLink == confidence storedLink
  /\ ultraIntelligentDeduplication ([storedLink] ++ [tiedLink])
     = [setMergedSources [sampleSource "zeroth" 7; ownSource tiedLink] storedLink].
Proof.
  assert (G : mapGet String.eqb (dedupKey tiedLink) (dedupMap [storedLink])
              = Some storedLink) by (vm_compute; reflexivity).
  assert (E : confidence tiedLink == confidence storedLink) by reflexivity.
  split; [exact G|]. split; [exact E|].
  unfold ultraIntelligentDeduplication.
  rewrite (proj1 dedup_tie_keeps_earlier [storedLink] storedLink tiedLink G E).
  reflexivity.
Defined.

(** * Further properties of the service *)

(** ** The edit distance *)
Module DistanceFacts.

Lemma distanceRow_head (x p rest : list ascii) :
  distanceRow x p rest = editDistance x p :: tl (distanceRow x p rest).
Proof. destruct rest; reflexivity. Qed.

Lemma editDistance_nil_r (x : list ascii) : editDistance x [] = List.length x.
Proof. destruct x; reflexivity. Qed.

Lemma levRow_distanceRow (c2 : ascii) (x : list ascii) :
  forall rest p,
    levRow c2 rest (distanceRow x p rest) (editDistance (c2 :: x) p)
    = tl (distanceRow (c2 :: x) p rest).
Proof.
  induction rest as [|c1 r IH]; intros p; [reflexivity|].
  change (distanceRow x p (c1 :: r))
    with (editDistance x p :: distanceRow x (c1 :: p) r).
  rewrite (distanceRow_head x (c1 :: p) r).
  cbn [levRow].
  rewrite <- (distanceRow_head x (c1 :: p) r).
  change (tl (distanceRow (c2 :: x) p (c1 :: r)))
    with (distanceRow (c2 :: x) (c1 :: p) r).
  rewrite (distanceRow_head (c2 :: x) (c1 :: p) r).
  f_equal. apply IH.
Qed.

Lemma levStep_distanceRow (s1 x : list ascii) (c2 : ascii) :
  levStep s1 (distanceRow x [] s1, List.length x) c2
  = (distanceRow (c2 :: x) [] s1, S (List.length x)).
Proof.
  unfold levStep. f_equal.
  rewrite (distanceRow_head (c2 :: x) [] s1).
  f_equal. apply (levRow_distanceRow c2 x s1 []).
Qed.

Lemma fold_levStep (s1 : list ascii) :
  forall s2 x,
    fold_left (levStep s1) s2 (distanceRow x [] s1, List.length x)
    = (distanceRow (rev s2 ++ x) [] s1, List.length (rev s2 ++ x)).
Proof.
  induction s2 as [|c r IH]; intros x; [reflexivity|].
  cbn [fold_left]. rewrite levStep_distanceRow.
  change (S (List.length x)) with (List.length (c :: x)).
  rewrite IH. cbn [rev]. now rewrite <- app_assoc.
Qed.

Lemma distanceRow_nil (rest p : list ascii) :
  distanceRow [] p rest = seq (List.length p) (S (List.length rest)).
Proof.
  revert p. induction rest as [|c r IH]; intros p; [reflexivity|].
  change (distanceRow [] p (c :: r)) with (List.length p :: distanceRow [] (c :: p) r).
  rewrite IH. reflexivity.
Qed.

Lemma distanceRow_last (x : list ascii) :
  forall rest p, last (distanceRow x p rest) 0%nat = editDistance x (rev rest ++ p).
Proof.
  induction rest as [|c r IH]; intros p; [reflexivity|].
  change (distanceRow x p (c :: r))
    with (editDistance x p :: distanceRow x (c :: p) r).
  rewrite (distanceRow_head x (c :: p) r).
  change (last (editDistance x p :: editDistance x (c :: p)
                  :: tl (distanceRow x (c :: p) r)) 0%nat)
    with (last (editDistance x (c :: p) :: tl (distanceRow x (c :: p) r)) 0%nat).
  rewrite <- (distanceRow_head x (c :: p) r), IH.
  simpl rev. now rewrite <- app_assoc.
Qed.

(** The matrix computes the edit distance of the two words. *)
Lemma levenshteinDistance_editDistance (str1 str2 : string) :
  levenshteinDistance str1 str2
  = editDistance (rev (list_ascii_of_string str2)) (rev (list_ascii_of_string str1)).
Proof.
  unfold levenshteinDistance. cbv zeta.
  change (seq 0 (S (List.length (list_ascii_of_string str1))))
    with (seq (List.length (@nil ascii)) (S (List.length (list_ascii_of_string str1)))).
  rewrite <- (distanceRow_nil (list_ascii_of_string str1) []).
  change 0%nat with (List.length (@nil ascii)) at 1.
  rewrite (fold_levStep (list_ascii_of_string str1) (list_ascii_of_string str2) []).
  cbn [fst]. rewrite distanceRow_last. now rewrite !app_nil_r.
Qed.

Lemma editDistance_sym : forall x y, editDistance x y = editDistance y x.
Proof.
  induction x as [|a x IHx]; intros y.
  - now rewrite editDistance_nil_r.
  - induction y as [|b y IHy]; [reflexivity|].
    cbn [editDistance]. rewrite (Ascii.eqb_sym b a).
    destruct (Ascii.eqb a b); [apply IHx|].
    rewrite (IHx y), (IHx (b :: y)).
    change ((fix against (y0 : list ascii) : nat :=
               match y0 with
               | [] => S (List.length x)
               | b0 :: y' =>
                   if Ascii.eqb a b0 then editDistance x y'
                   else Nat.min (editDistance x y' + 1)
                          (Nat.min (against y' + 1) (editDistance x y0 + 1))
               end) y) with (editDistance (a :: x) y).
    rewrite IHy.
    change ((fix against (y0 : list ascii) : nat :=
               match y0 with
               | [] => S (List.length y)
               | b0 :: y' =>
                   if Ascii.eqb b b0 then editDistance y y'
                   else Nat.min (editDistance y y' + 1)
                          (Nat.min (against y' + 1) (editDistance y y0 + 1))
               end) x) with (editDistance (b :: y) x).
    lia.
Qed.

Lemma editDistance_cons (a b : ascii) (x y : list ascii) :
  editDistance (a :: x) (b :: y)
  = if Ascii.eqb a b then editDistance x y
    else Nat.min (editDistance x y + 1)
           (Nat.min (editDistance (a :: x) y + 1) (editDistance x (b :: y) + 1)).
Proof. reflexivity. Qed.

Lemma editDistance_refl (x : list ascii) : editDistance x x = 0%nat.
Proof.
  induction x as [|a x IH]; [reflexivity|].
  now rewrite editDistance_cons, Ascii.eqb_refl.
Qed.

Lemma editDistance_zero : forall x y, editDistance x y = 0%nat -> x = y.
Proof.
  induction x as [|a x IHx]; intros y H.
  - destruct y; [reflexivity|discriminate].
  - destruct y as [|b y]; [discriminate|].
    rewrite editDistance_cons in H.
    destruct (Ascii.eqb_spec a b) as [->|_]; [|lia].
    f_equal. now apply IHx.
Qed.

Lemma editDistance_upper :
  forall x y, (editDistance x y <= Nat.max (List.length x) (List.length y))%nat.
Proof.
  induction x as [|a x IHx]; intros y; [simpl; lia|].
  induction y as [|b y IHy]; [simpl; lia|].
  rewrite editDistance_cons. specialize (IHx y). cbn [List.length].
  destruct (Ascii.eqb a b); lia.
Qed.

Lemma editDistance_lower :
  forall x y, (List.length x <= editDistance x y + List.length y)%nat.
Proof.
  induction x as [|a x IHx]; intros y; [simpl; lia|].
  induction y as [|b y IHy]; [simpl; lia|].
  rewrite editDistance_cons.
  pose proof (IHx y). pose proof (IHx (b :: y)). cbn [List.length] in *.
  destruct (Ascii.eqb a b); lia.
Qed.

Lemma list_ascii_length (s : string) :
  List.length (list_ascii_of_string s) = String.length s.
Proof. induction s; simpl; congruence. Qed.

Lemma list_ascii_inj (s t : string) :
  list_ascii_of_string s = list_ascii_of_string t -> s = t.
Proof.
  intros H. rewrite <- (string_of_list_ascii_of_string s),
    <- (string_of_list_ascii_of_string t). now rewrite H.
Qed.

Lemma levenshteinDistance_sym (s1 s2 : string) :
  levenshteinDistance s1 s2 = levenshteinDistance s2 s1.
Proof.
  rewrite !levenshteinDistance_editDistance. apply editDistance_sym.
Qed.

Lemma levenshteinDistance_zero (s1 s2 : string) :
  levenshteinDistance s1 s2 = 0%nat -> s1 = s2.
Proof.
  rewrite levenshteinDistance_editDistance. intros H.
  apply editDistance_zero in H. apply list_ascii_inj.
  rewrite <- (rev_involutive (list_ascii_of_string s1)),
    <- (rev_involutive (list_ascii_of_string s2)).
  now rewrite H.
Qed.

Lemma levenshteinDistance_upper (s1 s2 : string) :
  (levenshteinDistance s1 s2 <= Nat.max (String.length s1) (String.length s2))%nat.
Proof.
  rewrite levenshteinDistance_editDistance.
  pose proof (editDistance_upper (rev (list_ascii_of_string s2))
                (rev (list_ascii_of_string s1))) as Hu.
  rewrite !length_rev, !list_ascii_length in Hu. lia.
Qed.

Lemma similarity_below_one (u1 u2 : string) :
  u1 <> u2 ->
  Qmax 0 (inject_Z (Z.of_nat (Nat.max (String.length u1) (String.length u2))
                    - Z.of_nat (levenshteinDistance u1 u2))
          / inject_Z (Z.of_nat (Nat.max (String.length u1) (String.length u2))))
  < 1.
Proof.
  intros E.
  assert (Hd : (levenshteinDistance u1 u2 <> 0)%nat)
    by (intros Hz; apply E; now apply levenshteinDistance_zero).
  pose proof (levenshteinDistance_upper u1 u2) as Hu.
  set (m := Nat.max (String.length u1) (String.length u2)) in *.
  set (d := levenshteinDistance u1 u2) in *.
  apply Q.max_lub_lt; [reflexivity|].
  apply Qlt_shift_div_r.
  - change 0 with (inject_Z 0). rewrite <- Zlt_Qlt. lia.
  - rewrite Qmult_1_l, <- Zlt_Qlt. lia.
Qed.

End DistanceFacts.
Import DistanceFacts.

(** X1. [levenshteinDistance] is symmetric in its two arguments. *)
Theorem levenshtein_symmetric :
  forall str1 str2 : string,
    levenshteinDistance str1 str2 = levenshteinDistance str2 str1.
Proof.
  intros str1 str2. rewrite !levenshteinDistance_editDistance.
  apply editDistance_sym.
Qed.

(** X2. [levenshteinDistance] is zero exactly for equal strings. *)
Theorem levenshtein_zero_iff :
  forall str1 str2 : string,
    levenshteinDistance str1 str2 = 0%nat <-> str1 = str2.
Proof.
  intros str1 str2. rewrite levenshteinDistance_editDistance. split.
  - intros H. apply editDistance_zero in H.
    apply list_ascii_inj. rewrite <- (rev_involutive (list_ascii_of_string str1)),
      <- (rev_involutive (list_ascii_of_string str2)). now rewrite H.
  - intros ->. apply editDistance_refl.
Qed.

(** X3. [levenshteinDistance] lies between the difference of the two
    lengths and the larger of them; in particular the distance to the empty
    string is the length. *)
Theorem levenshtein_bounds :
  forall str1 str2 : string,
    (Nat.max (String.length str1) (String.length str2)
     - Nat.min (String.length str1) (String.length str2)
     <= levenshteinDistance str1 str2)%nat
    /\ (levenshteinDistance str1 str2
        <= Nat.max (String.length str1) (String.length str2))%nat.
Proof.
  intros str1 str2. rewrite levenshteinDistance_editDistance.
  pose proof (editDistance_upper (rev (list_ascii_of_string str2))
                (rev (list_ascii_of_string str1))) as Hu.
  pose proof (editDistance_lower (rev (list_ascii_of_string str2))
                (rev (list_ascii_of_string str1))) as Hl.
  pose proof (editDistance_lower (rev (list_ascii_of_string str1))
                (rev (list_ascii_of_string str2))) as Hl'.
  rewrite (editDistance_sym (rev (list_ascii_of_string str1))) in Hl'.
  rewrite !length_rev, !list_ascii_length in *. lia.
Qed.

(** X4. [calculateUsernameSimilarity] does not depend on the order of the
    two names. *)
Theorem similarity_symmetric :
  forall username1 username2 : string,
    calculateUsernameSimilarity username1 username2
    = calculateUsernameSimilarity username2 username1.
Proof.
  intros a b. unfold calculateUsernameSimilarity.
  rewrite (String.eqb_sym (toLowerCase b) (toLowerCase a)).
  rewrite (orb_comm (includes (toLowerCase b) (toLowerCase a))).
  rewrite (Nat.max_comm (String.length (toLowerCase b))).
  now rewrite (levenshteinDistance_sym (toLowerCase b)).
Qed.

(** X5. The similarity of two names is 1 exactly when they are equal up to
    case.  For two names that differ up to case it is strictly below 1, and
    when one of them contains the other (up to case) it is 0.8. *)
Theorem similarity_one_iff :
  forall username1 username2 : string,
    (calculateUsernameSimilarity username1 username2 == 1
     <-> toLowerCase username1 = toLowerCase username2)
    /\ (toLowerCase username1 <> toLowerCase username2 ->
        calculateUsernameSimilarity username1 username2 < 1
        /\ (includes (toLowerCase username1) (toLowerCase username2)
            || includes (toLowerCase username2) (toLowerCase username1) = true ->
            calculateUsernameSimilarity username1 username2 == 8 # 10)).
Proof.
  intros a b. unfold calculateUsernameSimilarity.
  destruct (String.eqb_spec (toLowerCase a) (toLowerCase b)) as [E|E].
  - split; [|intros H; contradiction].
    split; [intros _; exact E|reflexivity].
  - pose proof (similarity_below_one (toLowerCase a) (toLowerCase b) E) as Hlt.
    destruct (includes (toLowerCase a) (toLowerCase b)
              || includes (toLowerCase b) (toLowerCase a)).
    + split.
      * split; [discriminate|intros H; contradiction].
      * intros _. split; [reflexivity|intros _; reflexivity].
    + split.
      * split; [|intros H; contradiction].
        intros H. exfalso. rewrite H in Hlt. discriminate.
      * intros _. split; [exact Hlt|discriminate].
Qed.

Lemma similarity_one_iff_witness :
  toLowerCase "AlphaChannel_news" <> toLowerCase "alphachannel"
  /\ includes (toLowerCase "AlphaChannel_news") (toLowerCase "alphachannel")
     || includes (toLowerCase "alphachannel") (toLowerCase "AlphaChannel_news")
     = true
  /\ calculateUsernameSimilarity "AlphaChannel_news" "alphachannel" == 8 # 10.
Proof.
  assert (H1 : toLowerCase "AlphaChannel_news" <> toLowerCase "alphachannel")
    by (vm_compute; discriminate).
  assert (H2 : includes (toLowerCase "AlphaChannel_news") (toLowerCase "alphachannel")
               || includes (toLowerCase "alphachannel")
                    (toLowerCase "AlphaChannel_news") = true)
    by (vm_compute; reflexivity).
  split; [exact H1|]. split; [exact H2|].
  exact (proj2 (proj2 (similarity_one_iff "AlphaChannel_news" "alphachannel") H1)
           H2).
Defined.

(** X6. Two names of which one contains the other (up to case) have a
    similarity of at least 0.8 and always pass
    [isSimilarToSearchUsername]. *)
Theorem containment_is_similar :
  forall username searchUsername : string,
    includes (toLowerCase username) (toLowerCase searchUsername) = true
    \/ includes (toLowerCase searchUsername) (toLowerCase username) = true ->
    (8 # 10) <= calculateUsernameSimilarity username searchUsername
    /\ isSimilarToSearchUsername username searchUsername = true.
Proof.
  intros a b H.
  assert (Hs : (8 # 10) <= calculateUsernameSimilarity a b).
  { unfold calculateUsernameSimilarity.
    destruct (String.eqb _ _); [discriminate|].
    replace (includes (toLowerCase a) (toLowerCase b)
             || includes (toLowerCase b) (toLowerCase a)) with true.
    - apply Qle_refl.
    - symmetry. apply orb_true_iff. exact H. }
  split; [exact Hs|].
  unfold isSimilarToSearchUsername. apply negb_true_iff.
  destruct (Qle_bool _ _) eqn:E; [|reflexivity].
  apply Qle_bool_iff in E. exfalso.
  assert (C : (8 # 10) <= (6 # 10)) by (eapply Qle_trans; eassumption).
  apply C. reflexivity.
Qed.

Lemma containment_is_similar_witness :
  (includes (toLowerCase "AlphaChannel_news") (toLowerCase "alphachannel") = true
   \/ includes (toLowerCase "alphachannel") (toLowerCase "AlphaChannel_news") = true)
  /\ isSimilarToSearchUsername "AlphaChannel_news" "alphachannel" = true.
Proof.
  assert (H : includes (toLowerCase "AlphaChannel_news") (toLowerCase "alphachannel")
              = true
              \/ includes (toLowerCase "alphachannel") (toLowerCase "AlphaChannel_news")
                 = true) by (left; reflexivity).
  split; [exact H|].
  exact (proj2 (containment_is_similar "AlphaChannel_news" "alphachannel" H)).
Defined.

(** ** User names and URLs *)
Module NameFacts.

Lemma alnum_not_slash (c : ascii) :
  isAlnumChar c = true -> Ascii.eqb (charToLower c) "/" = false.
Proof.
  destruct c as [[] [] [] [] [] [] [] []]; intros H; try reflexivity;
    discriminate H.
Qed.

Lemma stripLastChar_cons (c d e : ascii) (r : string) :
  stripLastChar c (String d (String e r)) = String d (stripLastChar c (String e r)).
Proof. reflexivity. Qed.

Lemma identifierTail_keeps_end (r : string) :
  identifierTail r = true ->
  stripLastChar "/" (toLowerCase r) = toLowerCase r.
Proof.
  induction r as [|c r IH]; [discriminate|].
  destruct r as [|d r'].
  - intros H. change (isAlnumChar c = true) in H.
    change ((if Ascii.eqb (charToLower c) "/" then EmptyString
             else String (charToLower c) EmptyString)
            = String (charToLower c) EmptyString).
    now rewrite (alnum_not_slash c H).
  - intros H.
    change ((isAlnumChar c || Ascii.eqb c "_") && identifierTail (String d r') = true)
      in H.
    apply andb_prop in H. destruct H as [_ H].
    change (toLowerCase (String c (String d r')))
      with (String (charToLower c) (toLowerCase (String d r'))).
    change (toLowerCase (String d r'))
      with (String (charToLower d) (toLowerCase r')) at 1.
    rewrite stripLastChar_cons.
    change (String (charToLower d) (toLowerCase r'))
      with (toLowerCase (String d r')).
    now rewrite (IH H).
Qed.

Lemma identifierTail_chars (r : string) :
  identifierTail r = true -> strForall identifierChar r = true.
Proof.
  induction r as [|c r IH]; [discriminate|].
  destruct r as [|d r'].
  - intros H. change (isAlnumChar c = true) in H.
    change (identifierChar c && true = true). unfold identifierChar.
    now rewrite H.
  - intros H.
    change ((isAlnumChar c || Ascii.eqb c "_") && identifierTail (String d r') = true)
      in H.
    apply andb_prop in H. destruct H as [Hc H].
    change (identifierChar c && strForall identifierChar (String d r') = true).
    unfold identifierChar at 1. rewrite Hc. exact (IH H).
Qed.

Lemma identifierTail_last (r : string) :
  identifierTail r = true ->
  exists c, lastChar r = Some c /\ isAlnumChar c = true.
Proof.
  induction r as [|c r IH]; [discriminate|].
  destruct r as [|d r'].
  - intros H. exists c. split; [reflexivity|exact H].
  - intros H.
    change ((isAlnumChar c || Ascii.eqb c "_") && identifierTail (String d r') = true)
      in H.
    apply andb_prop in H. destruct H as [_ H].
    exact (IH H).
Qed.

Lemma identifierTail_complete (r : string) (c : ascii) :
  strForall identifierChar r = true ->
  lastChar r = Some c -> isAlnumChar c = true ->
  identifierTail r = true.
Proof.
  induction r as [|d r IH]; [discriminate|].
  destruct r as [|e r'].
  - intros _ H Hc. injection H as ->. exact Hc.
  - intros Hall Hlast Hc.
    change (identifierChar d && strForall identifierChar (String e r') = true) in Hall.
    apply andb_prop in Hall. destruct Hall as [Hd Hall].
    change ((isAlnumChar d || Ascii.eqb d "_") && identifierTail (String e r') = true).
    unfold identifierChar in Hd. rewrite Hd. exact (IH Hall Hlast Hc).
Qed.



End NameFacts.
Import NameFacts.

(** X7. The URL built for a candidate that is not an invite link has the
    normalized form [t.me/<user name in lower case>], for every user name of
    identifier shape; so two such candidates are merged by the deduplicator
    exactly when their user names agree up to case. *)
Theorem canonical_url_key :
  forall username1 original1 username2 original2 : string,
    identifierShape username1 = true ->
    identifierShape username2 = true ->
    normalizeTelegramUrl (constructTelegramUrl username1 false original1)
    = ("t.me/" ++ toLowerCase username1)%string
    /\ (normalizeTelegramUrl (constructTelegramUrl username1 false original1)
        = normalizeTelegramUrl (constructTelegramUrl username2 false original2)
        <-> toLowerCase username1 = toLowerCase username2).
Proof.
  assert (K : forall u o, identifierShape u = true ->
                normalizeTelegramUrl (constructTelegramUrl u false o)
                = ("t.me/" ++ toLowerCase u)%string).
  { intros u o H. destruct u as [|c r]; [discriminate|].
    change (isLetterChar c && identifierTail r = true) in H.
    apply andb_prop in H. destruct H as [_ H].
    assert (Hne : exists d r', toLowerCase r = String d r').
    { destruct r as [|d r']; [discriminate|].
      exists (charToLower d), (toLowerCase r'). reflexivity. }
    destruct Hne as [d [r' Hr]].
    change (normalizeTelegramUrl (constructTelegramUrl (String c r) false o))
      with (stripLastChar "/"
              ("t.me/" ++ String (charToLower c) (toLowerCase r))%string).
    change (toLowerCase (String c r)) with (String (charToLower c) (toLowerCase r)).
    pose proof (identifierTail_keeps_end r H) as Hk.
    rewrite Hr in *.
    cbn [append]. rewrite !stripLastChar_cons. now rewrite Hk. }
  intros u1 o1 u2 o2 H1 H2. split; [now apply K|].
  rewrite (K u1 o1 H1), (K u2 o2 H2). split.
  - intros E. now injection E.
  - now intros ->.
Qed.

Lemma canonical_url_key_witness :
  identifierShape "AlphaChannel" = true
  /\ identifierShape "alphachannel" = true
  /\ normalizeTelegramUrl (constructTelegramUrl "AlphaChannel" false "")
     = normalizeTelegramUrl (constructTelegramUrl "alphachannel" false "t.me/x").
Proof.
  split; [reflexivity|]. split; [reflexivity|].
  apply (proj2 (canonical_url_key "AlphaChannel" "" "alphachannel" "t.me/x"
                  eq_refl eq_refl)).
  reflexivity.
Defined.

(** X8. [isValidTelegramUsername] accepts exactly the names of 5 to 32
    characters from [a-zA-Z0-9_] that start with a letter, do not end with
    an underscore and are not a stop word (compared in lower case). *)
Theorem valid_username_iff :
  forall username : string,
    isValidTelegramUsername username = true
    <-> (5 <= String.length username)%nat
        /\ (String.length username <= 32)%nat
        /\ strForall identifierChar username = true
        /\ (exists c, firstChar username = Some c /\ isLetterChar c = true)
        /\ (exists c, lastChar username = Some c /\ isAlnumChar c = true)
        /\ ~ In (toLowerCase username) commonWords.
Proof.
  intros u.
  assert (Hcw : negb (isCommonWord u) = true <-> ~ In (toLowerCase u) commonWords).
  { unfold isCommonWord, listIncludes. rewrite negb_true_iff, <- not_true_iff_false.
    rewrite existsb_exists. split.
    - intros H Hin. apply H. exists (toLowerCase u).
      split; [exact Hin|apply String.eqb_refl].
    - intros H [y [Hy E]]. apply String.eqb_eq in E. subst. tauto. }
  unfold isValidTelegramUsername.
  rewrite !andb_true_iff, Hcw, !Nat.leb_le. split.
  - intros [[[[_ H5] H32] Hs] Hc].
    destruct u as [|c r]; [discriminate|].
    change (isLetterChar c && identifierTail r = true) in Hs.
    apply andb_prop in Hs. destruct Hs as [Hl Ht].
    repeat split; try assumption.
    + change (identifierChar c && strForall identifierChar r = true).
      rewrite (identifierTail_chars r Ht). unfold identifierChar, isAlnumChar.
      now rewrite Hl.
    + exists c. now split.
    + destruct (identifierTail_last r Ht) as [d [Hd Hda]].
      exists d. split; [|exact Hda].
      destruct r; [discriminate|exact Hd].
  - intros [H5 [H32 [Hall [[c [Hf Hl]] [[d [Hd Hda]] Hc]]]]].
    destruct u as [|c' r]; [discriminate|].
    injection Hf as ->.
    destruct r as [|e r']; [simpl in H5; lia|].
    repeat split; try assumption; try reflexivity.
    change (isLetterChar c && identifierTail (String e r') = true).
    rewrite Hl.
    change (identifierChar c && strForall identifierChar (String e r') = true) in Hall.
    apply andb_prop in Hall. destruct Hall as [_ Hall].
    exact (identifierTail_complete (String e r') d Hall Hd Hda).
Qed.



(** ** The extractor and the deduplicator *)
Module MergeFacts.

Lemma mapGet_mapSet (k' k : string) (v : Link) (m : list (string * Link)) :
  mapGet String.eqb k' (mapSet String.eqb k v m)
  = if String.eqb k' k then Some v else mapGet String.eqb k' m.
Proof.
  induction m as [|[k0 v0] r IH]; simpl.
  - destruct (String.eqb k' k); reflexivity.
  - destruct (String.eqb_spec k k0) as [->|Hk]; simpl.
    + destruct (String.eqb k' k0); reflexivity.
    + rewrite IH. destruct (String.eqb_spec k' k0) as [->|Hk'];
        [|reflexivity].
      destruct (String.eqb_spec k0 k); [congruence|reflexivity].
Qed.

Lemma mapGet_absent (k : string) (m : list (string * Link)) :
  ~ In k (mapKeys m) -> mapGet String.eqb k m = None.
Proof.
  induction m as [|[k0 v0] r IH]; simpl; [reflexivity|].
  intros H. destruct (String.eqb_spec k k0) as [->|_]; [tauto|].
  apply IH. tauto.
Qed.

Lemma mapSet_absent (k : string) (v : Link) (m : list (string * Link)) :
  mapGet String.eqb k m = None -> mapSet String.eqb k v m = m ++ [(k, v)].
Proof.
  induction m as [|[k0 v0] r IH]; simpl; [reflexivity|].
  destruct (String.eqb k k0); [discriminate|].
  intros H. now rewrite IH.
Qed.

Lemma dedupStep_fresh (m : list (string * Link)) (link : Link) :
  mapGet String.eqb (dedupKey link) m = None ->
  dedupStep m link = m ++ [(dedupKey link, link)].
Proof.
  intros G. unfold dedupStep. rewrite G. now apply mapSet_absent.
Qed.

Lemma setMergedSources_same (ms : list RedditSource) (x y : Link) :
  sameCandidate x y -> sameCandidate x (setMergedSources ms y).
Proof.
  intros [->|[ms' ->]]; right; exists ms; reflexivity.
Qed.

(** Each stored candidate is one of the input, up to its merged sources. *)
Lemma dedup_Forall (P : Link -> Prop) (links : list Link) :
  (forall ms x, P x -> P (setMergedSources ms x)) ->
  Forall P links -> Forall P (ultraIntelligentDeduplication links).
Proof.
  intros Hset H. unfold ultraIntelligentDeduplication, mapValues, dedupMap.
  apply Forall_map.
  assert (G : forall l m,
             Forall P l -> Forall (fun e => P (snd e)) m ->
             Forall (fun e : string * Link => P (snd e)) (fold_left dedupStep l m)).
  { induction l as [|x r IH]; intros m Hl Hm; simpl; [exact Hm|].
    inversion Hl as [|? ? Hx Hr]; subst. apply IH; [exact Hr|].
    destruct (mapGet String.eqb (dedupKey x) m) as [existing|] eqn:E.
    - rewrite (dedupStep_collision _ _ _ E). apply mapSet_Forall; [|exact Hm].
      apply (mapGet_In _ String.eqb_eq) in E.
      pose proof (proj1 (Forall_forall _ m) Hm _ E) as He.
      unfold mergeSurvivor. destruct (Qltb _ _); now apply Hset.
    - unfold dedupStep. rewrite E. now apply mapSet_Forall. }
  apply G; [exact H|constructor].
Qed.

Lemma heldSources_mapSet (k : string) (v v' : Link) (s : RedditSource)
  (m : list (string * Link)) :
  mapGet String.eqb k m = Some v ->
  Permutation (provenance v') (provenance v ++ [s]) ->
  Permutation (heldSources (mapSet String.eqb k v' m)) (heldSources m ++ [s]).
Proof.
  intros G Hp. induction m as [|[k0 v0] r IH]; [discriminate|].
  cbn [mapGet] in G. cbn [mapSet]. destruct (String.eqb k k0).
  - injection G as ->. unfold heldSources. cbn [flat_map snd].
    rewrite Hp, <- !app_assoc.
    apply Permutation_app_head, Permutation_app_comm.
  - unfold heldSources in *. cbn [flat_map snd]. rewrite (IH G).
    now rewrite app_assoc.
Qed.

Lemma heldSources_fold (links : list Link) :
  Forall unmerged links ->
  forall m,
    Permutation (heldSources (fold_left dedupStep links m))
      (heldSources m ++ map ownSource links).
Proof.
  induction 1 as [|x r Hx Hr IH]; intros m; simpl.
  - now rewrite app_nil_r.
  - rewrite IH.
    assert (Hs : Permutation (heldSources (dedupStep m x))
                   (heldSources m ++ [ownSource x])).
    { destruct (mapGet String.eqb (dedupKey x) m) as [existing|] eqn:E.
      - rewrite (dedupStep_collision _ _ _ E).
        apply (heldSources_mapSet _ existing); [exact E|].
        apply mergeSurvivor_provenance.
      - rewrite (dedupStep_fresh _ _ E). unfold heldSources.
        rewrite flat_map_app. simpl. rewrite app_nil_r.
        unfold provenance, mergedList. unfold unmerged in Hx. now rewrite Hx. }
    rewrite Hs, <- app_assoc. reflexivity.
Qed.

Section Extracted.
Context {RE : RegexEngine}.

Lemma extract_extractedFrom (raw : list RawResult) (u : string) :
  Forall (extractedFrom raw u) (extractAllTelegramLinksUltra raw u).
Proof.
  apply Forall_forall. intros l Hl.
  unfold extractAllTelegramLinksUltra in Hl. apply in_flat_map in Hl.
  destruct Hl as [r [Hr Hl]].
  apply in_app_or in Hl. destruct Hl as [Hl|Hl]; [|apply in_app_or in Hl;
                                                     destruct Hl as [Hl|Hl]].
  - apply in_map_iff in Hl. destruct Hl as [t [<- _]].
    split; [exists r; split; [exact Hr|reflexivity]|].
    repeat split.
  - unfold ultraAdvancedLinkExtraction in Hl. apply in_flat_map in Hl.
    destruct Hl as [[i [m0 m1]] [_ Hl]].
    destruct (isValidTelegramUsername m1) eqn:V; [|destruct Hl].
    destruct Hl as [<-|[]].
    split; [exists r; split; [exact Hr|reflexivity]|].
    split; [reflexivity|]. split; [reflexivity|exact V].
  - unfold inferPossibleTelegramLinks in Hl.
    destruct (_ && _); [|destruct Hl].
    apply in_flat_map in Hl. destruct Hl as [t [_ Hl]].
    destruct (isValidTelegramUsername t && isSimilarToSearchUsername t u) eqn:V;
      [|destruct Hl].
    destruct Hl as [<-|[]]. apply andb_prop in V. destruct V as [V1 V2].
    split; [exists r; split; [exact Hr|reflexivity]|].
    split; [reflexivity|]. split; [reflexivity|].
    repeat split; assumption.
Qed.

Lemma extract_unmerged (raw : list RawResult) (u : string) :
  Forall unmerged (extractAllTelegramLinksUltra raw u).
Proof.
  eapply Forall_impl; [|apply extract_extractedFrom].
  intros l [_ [H _]]. exact H.
Qed.

End Extracted.

End MergeFacts.
Import MergeFacts.

(** X10. Every candidate the extractor builds stems from one of the raw
    hits, carries that hit as its only source, is unverified, and, unless it
    was merely attached to the hit by [extractTelegramLinks], has a user name
    that passes [isValidTelegramUsername]; an inferred candidate moreover
    resembles the searched name and has confidence 45. *)
Theorem extractor_builds_fresh_candidates :
  forall (RE : RegexEngine) (allResults : list RawResult) (username : string),
    Forall (extractedFrom allResults username)
      (extractAllTelegramLinksUltra allResults username).
Proof.
  intros RE allResults username. apply extract_extractedFrom.
Qed.

(** X11. The deduplicator loses no source: when the incoming candidates
    carry no merged sources, as those of the extractor do, the sources held
    by the candidates it returns are, with multiplicity, exactly the sources
    of the candidates it was given. *)
Theorem dedup_conserves_sources :
  (forall links : list Link,
      Forall unmerged links ->
      Permutation (flat_map provenance (ultraIntelligentDeduplication links))
        (map ownSource links))
  /\ (forall (RE : RegexEngine) (allResults : list RawResult) (username : string),
         Permutation
           (flat_map provenance
              (ultraIntelligentDeduplication
                 (extractAllTelegramLinksUltra allResults username)))
           (map ownSource (extractAllTelegramLinksUltra allResults username))).
Proof.
  assert (G : forall links : list Link,
             Forall unmerged links ->
             Permutation (flat_map provenance (ultraIntelligentDeduplication links))
               (map ownSource links)).
  { intros links H.
    pose proof (heldSources_fold links H []) as Hf.
    unfold heldSources in Hf. simpl in Hf.
    unfold ultraIntelligentDeduplication, mapValues, dedupMap.
    rewrite flat_map_concat_map, map_map, <- flat_map_concat_map. exact Hf. }
  split; [exact G|].
  intros RE allResults username. apply G, extract_unmerged.
Qed.

Lemma dedup_conserves_sources_witness :
  Forall unmerged [singleLink; incomingLink; tiedLink]
  /\ Permutation
       (flat_map provenance
          (ultraIntelligentDeduplication [singleLink; incomingLink; tiedLink]))
       (map ownSource [singleLink; incomingLink; tiedLink]).
Proof.
  assert (H : Forall unmerged [singleLink; incomingLink; tiedLink])
    by (repeat constructor).
  split; [exact H|].
  exact (proj1 dedup_conserves_sources [singleLink; incomingLink; tiedLink] H).
Defined.

(** ** The best candidate of a destination *)
Module BestFacts.

Lemma mergeSurvivor_confidence (existing link : Link) :
  confidence existing <= confidence (mergeSurvivor existing link)
  /\ confidence link <= confidence (mergeSurvivor existing link).
Proof.
  unfold mergeSurvivor. destruct (Qltb _ _) eqn:E.
  - apply Qltb_true in E. rewrite !orElseQ_zero in E.
    split; [now apply Qlt_le_weak|apply Qle_refl].
  - apply Qltb_false in E. rewrite !orElseQ_zero in E.
    split; [apply Qle_refl|exact E].
Qed.

Lemma dedupStep_covered (m : list (string * Link)) (seen : list Link) (l : Link) :
  covered m seen -> covered (dedupStep m l) (seen ++ [l]).
Proof.
  intros Hc.
  assert (Hv : exists v, dedupStep m l = mapSet String.eqb (dedupKey l) v m
                         /\ confidence l <= confidence v
                         /\ (forall y, mapGet String.eqb (dedupKey l) m = Some y ->
                                       confidence y <= confidence v)).
  { destruct (mapGet String.eqb (dedupKey l) m) as [existing|] eqn:E.
    - exists (mergeSurvivor existing l). split; [now apply dedupStep_collision|].
      destruct (mergeSurvivor_confidence existing l) as [H1 H2].
      split; [exact H2|]. intros y Hy. injection Hy as <-. exact H1.
    - exists l. split; [unfold dedupStep; now rewrite E|].
      split; [apply Qle_refl|discriminate]. }
  destruct Hv as [v [-> [Hl Hold]]].
  intros x Hx. rewrite mapGet_mapSet.
  destruct (String.eqb_spec (dedupKey x) (dedupKey l)) as [Ek|Ek].
  - exists v. split; [reflexivity|].
    apply in_app_or in Hx. destruct Hx as [Hx|[<-|[]]]; [|exact Hl].
    destruct (Hc x Hx) as [y [Hy Hxy]]. rewrite Ek in Hy.
    exact (Qle_trans _ _ _ Hxy (Hold y Hy)).
  - apply in_app_or in Hx. destruct Hx as [Hx|[<-|[]]]; [|congruence].
    exact (Hc x Hx).
Qed.

Lemma dedupMap_covered (links : list Link) :
  forall m seen, covered m seen ->
                 covered (fold_left dedupStep links m) (seen ++ links).
Proof.
  induction links as [|l r IH]; intros m seen Hc; simpl.
  - now rewrite app_nil_r.
  - replace (seen ++ l :: r) with ((seen ++ [l]) ++ r)
      by (now rewrite <- app_assoc).
    apply IH. now apply dedupStep_covered.
Qed.

Lemma fold_distinct (links : list Link) :
  forall m,
    NoDup (mapKeys m ++ map dedupKey links) ->
    fold_left dedupStep links m = m ++ map (fun x => (dedupKey x, x)) links.
Proof.
  induction links as [|l r IH]; intros m H; simpl.
  - now rewrite app_nil_r.
  - assert (Hk : ~ In (dedupKey l) (mapKeys m)).
    { apply NoDup_remove_2 in H. intros Hin. apply H.
      apply in_or_app. now left. }
    rewrite (dedupStep_fresh _ _ (mapGet_absent _ _ Hk)).
    rewrite IH.
    + now rewrite <- app_assoc.
    + unfold mapKeys in *. rewrite map_app, <- app_assoc. exact H.
Qed.

End BestFacts.
Import BestFacts.

(** X12. For every candidate given to the deduplicator, the result holds a
    candidate for the same normalized URL whose confidence is at least as
    high; and every candidate of the result is one of those given, changed
    in its merged sources at most. *)
Theorem dedup_keeps_best :
  forall (links : list Link) (x : Link),
    In x links ->
    (exists y, In y (ultraIntelligentDeduplication links)
               /\ normalizedUrl y = normalizedUrl x
               /\ confidence x <= confidence y)
    /\ Forall (fun y => exists x', In x' links /\ sameCandidate x' y)
         (ultraIntelligentDeduplication links).
Proof.
  intros links x Hx. split.
  - assert (Hc : covered (dedupMap links) links).
    { apply (dedupMap_covered links [] []). intros z []. }
    destruct (Hc x Hx) as [y [Hy Hxy]].
    apply (mapGet_In _ String.eqb_eq) in Hy.
    exists y. split; [|split; [|exact Hxy]].
    + unfold ultraIntelligentDeduplication, mapValues.
      apply (in_map snd) in Hy. exact Hy.
    + destruct (dedupMap_invariant links []) as [_ Hk];
        [constructor|constructor|].
      pose proof (proj1 (Forall_forall _ _) Hk _ Hy) as E. simpl in E.
      unfold normalizedUrl. now rewrite <- !dedupKey_normalized.
  - apply dedup_Forall.
    + intros ms z [x' [Hin Hs]]. exists x'. split; [exact Hin|].
      now apply setMergedSources_same.
    + apply Forall_forall. intros z Hz. exists z. split; [exact Hz|now left].
Qed.

Lemma dedup_keeps_best_witness :
  In incomingLink [incomingLink; singleLink]
  /\ exists y, In y (ultraIntelligentDeduplication [incomingLink; singleLink])
               /\ confidence incomingLink <= confidence y.
Proof.
  assert (H : In incomingLink [incomingLink; singleLink]) by (left; reflexivity).
  split; [exact H|].
  destruct (proj1 (dedup_keeps_best [incomingLink; singleLink] incomingLink H))
    as [y [Hy [_ Hc]]].
  exists y. split; assumption.
Defined.

(** X13. A list of candidates with pairwise different normalized URLs is
    returned unchanged by the deduplicator; hence deduplicating twice is the
    same as deduplicating once. *)
Theorem dedup_idempotent :
  (forall links : list Link,
      NoDup (map normalizedUrl links) ->
      ultraIntelligentDeduplication links = links)
  /\ (forall links : list Link,
         ultraIntelligentDeduplication (ultraIntelligentDeduplication links)
         = ultraIntelligentDeduplication links).
Proof.
  assert (G : forall links : list Link,
             NoDup (map normalizedUrl links) ->
             ultraIntelligentDeduplication links = links).
  { intros links H.
    unfold ultraIntelligentDeduplication, mapValues, dedupMap.
    rewrite fold_distinct.
    - simpl. rewrite map_map. simpl. apply map_id.
    - simpl. erewrite map_ext; [exact H|].
      intros l. apply dedupKey_normalized. }
  split; [exact G|]. intros links. apply G, dedup_unique.
Qed.

Lemma dedup_idempotent_witness :
  NoDup (map normalizedUrl [singleLink; newsLink; sampleLink "T.ME/Durov/" 55 "third" None])
  /\ ultraIntelligentDeduplication
       [singleLink; newsLink; sampleLink "T.ME/Durov/" 55 "third" None]
     = [singleLink; newsLink; sampleLink "T.ME/Durov/" 55 "third" None].
Proof.
  assert (H : NoDup (map normalizedUrl
                       [singleLink; newsLink;
                        sampleLink "T.ME/Durov/" 55 "third" None])).
  { vm_compute. constructor.
    - intros [H|[H|[]]]; discriminate H.
    - constructor.
      + intros [H|[]]; discriminate H.
      + constructor; [intros []|constructor]. }
  split; [exact H|]. exact (proj1 dedup_idempotent _ H).
Defined.

(** ** Floors of the scores *)
Module FloorFacts.

Lemma clamp100_ge (k x : Q) : k <= 100 -> k <= x -> k <= clamp100 x.
Proof.
  intros Hk Hx. unfold clamp100. apply Q.min_glb; [|exact Hk].
  eapply Qle_trans; [exact Hx|apply Q.le_max_l].
Qed.

Lemma clamp100_top (x : Q) : 100 <= x -> clamp100 x == 100.
Proof.
  intros Hx. apply Qle_antisym; [apply clamp100_bounds|].
  apply clamp100_ge; [apply Qle_refl|exact Hx].
Qed.

Lemma orElseQ_nonzero (x d : Q) : ~ x == 0 -> orElseQ x d = x.
Proof.
  intros H. unfold orElseQ. destruct (Qeq_bool x 0) eqn:E; [|reflexivity].
  apply Qeq_bool_eq in E. contradiction.
Qed.

Lemma positive_nonzero (x k : Q) : 0 < k -> k <= x -> ~ x == 0.
Proof. intros Hk Hx E. lra. Qed.

Lemma patternBonus_floor (i : nat) : 10 <= patternBonus i.
Proof.
  unfold patternBonus, patternBonuses.
  do 10 (destruct i as [|i]; [vm_compute; discriminate|]).
  simpl. destruct i; discriminate.
Qed.

Lemma similarityBonus_range (a b : string) :
  0 <= similarityBonus a b /\ similarityBonus a b <= 30.
Proof.
  unfold similarityBonus. pose proof (similarity_range a b). lra.
Qed.

Lemma similarityBonus_exact (a b : string) :
  toLowerCase a = toLowerCase b -> similarityBonus a b == 30.
Proof.
  intros H. unfold similarityBonus, calculateUsernameSimilarity.
  rewrite H, String.eqb_refl. reflexivity.
Qed.

Lemma popularityBonus_nonneg (z : Z) : 0 <= popularityBonus z.
Proof. unfold popularityBonus. by_cases_bonus. Qed.

Lemma extractionPopularityBonus_nonneg (z : Z) : 0 <= extractionPopularityBonus z.
Proof. unfold extractionPopularityBonus. by_cases_bonus. Qed.

Lemma specializationBonus_nonneg (f : string) : 0 <= specializationBonus f.
Proof. unfold specializationBonus. cbv zeta. by_cases_bonus. Qed.

Lemma searchMethodBonus_nonneg (m : string) : 0 <= searchMethodBonus m.
Proof.
  unfold searchMethodBonus.
  repeat match goal with
         | |- context [if ?c then _ else _] => destruct c
         end; discriminate.
Qed.

Lemma canonicalBonus_nonneg (i : option bool) : 0 <= canonicalBonus i.
Proof. unfold canonicalBonus. by_cases_bonus. Qed.

Lemma corroborationBonus_nonneg (n : nat) : 0 <= corroborationBonus n.
Proof.
  unfold corroborationBonus. apply Qmult_le_0_compat; [|discriminate].
  change 0 with (inject_Z 0). rewrite <- Zle_Qle. lia.
Qed.

Lemma trustBonus_nonneg (t : string) : 0 <= trustBonus t.
Proof. unfold trustBonus. cbv zeta. by_cases_bonus. Qed.

Lemma scamPenalty_range (t : string) : 0 <= scamPenalty t /\ scamPenalty t <= 25.
Proof. split; unfold scamPenalty; cbv zeta; by_cases_bonus. Qed.

Lemma calculateAdvancedConfidence_floor (u : string) (r : RawResult)
  (s : string) (i : nat) :
  60 <= calculateAdvancedConfidence u r s i.
Proof.
  unfold calculateAdvancedConfidence. cbv zeta.
  apply clamp100_ge; [discriminate|].
  pose proof (patternBonus_floor i).
  pose proof (proj1 (similarityBonus_range u s)).
  pose proof (extractionPopularityBonus_nonneg (orZeroZ (m_score (r_metadata r)))).
  lra.
Qed.

Lemma calculateAdvancedConfidence_exact (u : string) (r : RawResult)
  (s : string) (i : nat) :
  toLowerCase u = toLowerCase s -> 90 <= calculateAdvancedConfidence u r s i.
Proof.
  intros E. unfold calculateAdvancedConfidence. cbv zeta.
  apply clamp100_ge; [discriminate|].
  pose proof (patternBonus_floor i).
  pose proof (similarityBonus_exact u s E).
  pose proof (extractionPopularityBonus_nonneg (orZeroZ (m_score (r_metadata r)))).
  lra.
Qed.

Ltac score_terms u l :=
  pose proof (similarityBonus_range (username l) u);
  pose proof (popularityBonus_nonneg
                (orZeroZ (redditScore (redditSource (metadata l)))));
  pose proof (specializationBonus_nonneg (foundIn (redditSource (metadata l))));
  pose proof (searchMethodBonus_nonneg (searchMethod (metadata l)));
  pose proof (canonicalBonus_nonneg (isInviteLink (metadata l)));
  pose proof (corroborationBonus_nonneg (mergedCount l));
  pose proof (trustBonus_nonneg (postTitle (redditSource (metadata l))));
  pose proof (scamPenalty_range (postTitle (redditSource (metadata l)))).

Lemma rawScore_floor (u : string) (l : Link) : solid l -> 35 <= rawScore u l.
Proof.
  intros H. unfold rawScore. cbv zeta. score_terms u l.
  destruct H as [H60|[H45 [Hm Hi]]].
  - rewrite orElseQ_nonzero
      by (apply (positive_nonzero _ 60); [reflexivity|exact H60]).
    lra.
  - assert (Ho : orElseQ (confidence l) 50 == 45).
    { rewrite orElseQ_nonzero; [exact H45|].
      apply (positive_nonzero _ 45); [reflexivity|]. rewrite H45. apply Qle_refl. }
    rewrite Hm, Hi in *.
    change (searchMethodBonus "inference") with 5%Q in *.
    change (canonicalBonus None) with 10%Q in *.
    lra.
Qed.

Lemma rawScore_exact (u : string) (l : Link) :
  explicitExact u l -> 90 <= confidence l ->
  notInvite (isInviteLink (metadata l)) = true ->
  100 <= rawScore u l.
Proof.
  intros [He Hm] H90 Hi. unfold rawScore. cbv zeta. score_terms u l.
  pose proof (similarityBonus_exact (username l) u) as Hs.
  unfold isExact in He. apply String.eqb_eq in He. specialize (Hs He).
  rewrite orElseQ_nonzero
    by (apply (positive_nonzero _ 90); [reflexivity|exact H90]).
  unfold canonicalBonus in *. rewrite Hi in *. unfold bonus in *.
  lra.
Qed.

Section Pipeline.
Context {RE : RegexEngine}.

Lemma extract_solid (raw : list RawResult) (u : string) :
  Forall (fun l => solid l /\ exactIsStrong u l)
    (extractAllTelegramLinksUltra raw u).
Proof.
  apply Forall_forall. intros l Hl.
  unfold extractAllTelegramLinksUltra in Hl. apply in_flat_map in Hl.
  destruct Hl as [r [Hr Hl]].
  apply in_app_or in Hl. destruct Hl as [Hl|Hl]; [|apply in_app_or in Hl;
                                                     destruct Hl as [Hl|Hl]].
  - apply in_map_iff in Hl. destruct Hl as [t [<- _]]. split.
    + left. apply calculateAdvancedConfidence_floor.
    + intros [He _]. unfold isExact in He. apply String.eqb_eq in He.
      now apply calculateAdvancedConfidence_exact.
  - unfold ultraAdvancedLinkExtraction in Hl. apply in_flat_map in Hl.
    destruct Hl as [[i [m0 m1]] [_ Hl]].
    destruct (isValidTelegramUsername m1); [|destruct Hl].
    destruct Hl as [<-|[]]. split.
    + left. apply calculateAdvancedConfidence_floor.
    + intros [He _]. unfold isExact in He. apply String.eqb_eq in He.
      now apply calculateAdvancedConfidence_exact.
  - unfold inferPossibleTelegramLinks in Hl.
    destruct (_ && _); [|destruct Hl].
    apply in_flat_map in Hl. destruct Hl as [t [_ Hl]].
    destruct (_ && _); [|destruct Hl].
    destruct Hl as [<-|[]]. split.
    + right. repeat split.
    + intros [_ Hm]. discriminate Hm.
Qed.

End Pipeline.

End FloorFacts.
Import FloorFacts.

(** X14. In the pipeline every candidate leaves [ultraAdvancedScoring] with
    a confidence of at least 35 (the extractor gives at least 60, or 45 to an
    inferred candidate, and the scam penalty takes 25 at most), so the
    confidence test of [ultraQualityFilter] never removes one: the filter
    acts through its tests on the user name alone. *)
Theorem scored_candidates_pass_threshold :
  forall (RE : RegexEngine) (allResults : list RawResult) (username : string),
    Forall (fun l => 35 <= confidence l)
      (ultraAdvancedScoring
         (ultraIntelligentDeduplication
            (extractAllTelegramLinksUltra allResults username)) username)
    /\ ultraQualityFilter
         (ultraAdvancedScoring
            (ultraIntelligentDeduplication
               (extractAllTelegramLinksUltra allResults username)) username)
         username
       = filter passesNameTests
           (ultraAdvancedScoring
              (ultraIntelligentDeduplication
                 (extractAllTelegramLinksUltra allResults username)) username).
Proof.
  intros RE raw u.
  assert (Hs : Forall solid
                 (ultraIntelligentDeduplication (extractAllTelegramLinksUltra raw u))).
  { apply dedup_Forall; [intros ms x H; exact H|].
    eapply Forall_impl; [|apply extract_solid]. intros l [H _]. exact H. }
  assert (Hf : Forall (fun l => 35 <= confidence l)
                 (ultraAdvancedScoring
                    (ultraIntelligentDeduplication
                       (extractAllTelegramLinksUltra raw u)) u)).
  { unfold ultraAdvancedScoring. apply Forall_map.
    eapply Forall_impl; [|exact Hs]. intros l Hl.
    apply clamp100_ge; [discriminate|now apply rawScore_floor]. }
  split; [exact Hf|].
  unfold ultraQualityFilter. apply filter_ext_in. intros l Hl.
  pose proof (proj1 (Forall_forall _ _) Hf l Hl) as H35.
  unfold passesQuality, passesNameTests.
  replace (Qltb (confidence l) 30) with false.
  - destruct (_ || _); [reflexivity|].
    destruct (isCommonWord _); [reflexivity|].
    now destruct (isSuspiciousUsername _).
  - symmetry. apply Qltb_false. eapply Qle_trans; [|exact H35]. discriminate.
Qed.

(** X15. In the pipeline an explicitly extracted candidate whose user name
    is the searched one (up to case) and that is not an invite link leaves
    [ultraAdvancedScoring] with confidence 100, whatever its source says:
    the scam penalty cannot lower it. *)
Theorem exact_matches_score_100 :
  forall (RE : RegexEngine) (allResults : list RawResult) (username : string),
    Forall (exactIsTop username)
      (ultraAdvancedScoring
         (ultraIntelligentDeduplication
            (extractAllTelegramLinksUltra allResults username)) username).
Proof.
  intros RE raw u.
  assert (Hs : Forall (exactIsStrong u)
                 (ultraIntelligentDeduplication (extractAllTelegramLinksUltra raw u))).
  { apply dedup_Forall; [intros ms x H; exact H|].
    eapply Forall_impl; [|apply extract_solid]. intros l [_ H]. exact H. }
  unfold ultraAdvancedScoring. apply Forall_map.
  eapply Forall_impl; [|exact Hs]. intros l Hl He Hi.
  apply clamp100_top. apply rawScore_exact; [exact He| |exact Hi].
  apply Hl. exact He.
Qed.

(** ** Ranking a ranked list *)
Section SortedFacts.
Context {A : Type} (compare : A -> A -> Q) (before : A -> A -> Prop).

Hypothesis before_iff :
  forall x y, Qle_bool (compare x y) 0 = true <-> before x y.

Lemma stableSort_sorted_id (l : list A) :
  StronglySorted before l -> stableSort compare l = l.
Proof.
  induction 1 as [|x r Hr IH Hx]; [reflexivity|].
  cbn [stableSort]. rewrite IH.
  destruct r as [|y r']; [reflexivity|].
  cbn [sortInsert].
  inversion Hx as [|? ? Hxy _]; subst.
  apply before_iff in Hxy. now rewrite Hxy.
Qed.
End SortedFacts.

Lemma exact_first (s : string) (l : list Link) :
  StronglySorted (rankBefore s) l ->
  l = filter (isExact s) l ++ filter (fun c => negb (isExact s c)) l.
Proof.
  induction 1 as [|x r Hr IH Hx]; [reflexivity|].
  cbn [filter]. destruct (isExact s x) eqn:Ex; cbn [negb].
  - cbn [app]. now rewrite <- IH.
  - assert (Hn : Forall (fun c => isExact s c = false) r).
    { eapply Forall_impl; [|exact Hx]. intros y Hy.
      unfold rankBefore in Hy. rewrite Ex in Hy.
      destruct (isExact s y); [contradiction|reflexivity]. }
    assert (F1 : filter (isExact s) r = []).
    { clear - Hn. induction Hn as [|y r' Hy _ IH']; [reflexivity|].
      cbn [filter]. now rewrite Hy. }
    assert (F2 : filter (fun c => negb (isExact s c)) r = r).
    { clear - Hn. induction Hn as [|y r' Hy _ IH']; [reflexivity|].
      cbn [filter]. rewrite Hy. cbn [negb]. now rewrite IH'. }
    now rewrite F1, F2.
Qed.

(** X16. Ranking an already ranked list changes nothing. *)
Theorem ranking_idempotent :
  forall (links : list Link) (searchUsername : string),
    ultraIntelligentRanking (ultraIntelligentRanking links searchUsername)
      searchUsername
    = ultraIntelligentRanking links searchUsername.
Proof.
  intros links s. unfold ultraIntelligentRanking.
  apply (stableSort_sorted_id _ (rankBefore s)).
  - apply rankBefore_compare.
  - apply stableSort_sorted.
    + apply rankBefore_compare.
    + apply rankBefore_total.
    + apply rankBefore_trans.
Qed.

(** X17. In the ranked list all candidates whose user name is the searched
    one (up to case) stand in front of all the others, whatever their
    confidence. *)
Theorem ranking_exact_first :
  forall (links : list Link) (searchUsername : string),
    ultraIntelligentRanking links searchUsername
    = filter (isExact searchUsername)
        (ultraIntelligentRanking links searchUsername)
      ++ filter (fun c => negb (isExact searchUsername c))
           (ultraIntelligentRanking links searchUsername).
Proof.
  intros links s. apply exact_first. unfold ultraIntelligentRanking.
  apply stableSort_sorted.
  - apply rankBefore_compare.
  - apply rankBefore_total.
  - apply rankBefore_trans.
Qed.

(** ** The cache *)
Section MapFacts2.
Context {K V : Type} (keqb : K -> K -> bool).
Hypothesis keqb_eq : forall a b, keqb a b = true <-> a = b.

Lemma keqb_refl (k : K) : keqb k k = true.
Proof. now apply keqb_eq. Qed.

Lemma keqb_neq (a b : K) : a <> b -> keqb a b = false.
Proof.
  intros H. destruct (keqb a b) eqn:E; [|reflexivity].
  apply keqb_eq in E. contradiction.
Qed.

Lemma mapGet_mapSet_same_key (k : K) (v : V) (m : list (K * V)) :
  mapGet keqb k (mapSet keqb k v m) = Some v.
Proof.
  induction m as [|[k0 v0] r IH]; simpl.
  - now rewrite keqb_refl.
  - destruct (keqb k k0) eqn:E; simpl.
    + now rewrite keqb_refl.
    + now rewrite E.
Qed.

Lemma mapGet_mapDelete_other (k k' : K) (m : list (K * V)) :
  k <> k' -> mapGet keqb k (mapDelete keqb k' m) = mapGet keqb k m.
Proof.
  intros Hne. induction m as [|[k0 v0] r IH]; simpl; [reflexivity|].
  destruct (keqb k' k0) eqn:E.
  - apply keqb_eq in E. subst k0. now rewrite (keqb_neq k k' Hne).
  - simpl. now rewrite IH.
Qed.

Lemma mapSet_missing (k : K) (v : V) (m : list (K * V)) :
  mapGet keqb k m = None -> mapSet keqb k v m = m ++ [(k, v)].
Proof.
  induction m as [|[k0 v0] r IH]; simpl; [reflexivity|].
  destruct (keqb k k0); [discriminate|].
  intros H. now rewrite IH.
Qed.

Lemma mapSet_present_length (k : K) (v v' : V) (m : list (K * V)) :
  mapGet keqb k m = Some v' ->
  List.length (mapSet keqb k v m) = List.length m.
Proof.
  induction m as [|[k0 v0] r IH]; simpl; [discriminate|].
  destruct (keqb k k0); [reflexivity|].
  intros H. simpl. now rewrite IH.
Qed.

Lemma mapDelete_length (k : K) (m : list (K * V)) :
  In k (mapKeys m) -> S (List.length (mapDelete keqb k m)) = List.length m.
Proof.
  induction m as [|[k0 v0] r IH]; simpl; [tauto|].
  destruct (keqb k k0) eqn:E; [reflexivity|].
  intros [H|H].
  - subst. rewrite keqb_refl in E. discriminate.
  - simpl. now rewrite IH.
Qed.
End MapFacts2.

Module EvictionFacts.

Lemma olderFirst_compare (a b : CacheKey * CacheEntry) :
  Qle_bool (inject_Z (timestamp (snd a) - timestamp (snd b))) 0 = true
  <-> olderFirst a b.
Proof.
  rewrite Qle_bool_iff. change 0 with (inject_Z 0).
  rewrite <- Zle_Qle. unfold olderFirst. lia.
Qed.

Lemma filter_all {A : Type} (p : A -> bool) (l : list A) :
  Forall (fun x => p x = true) l -> filter p l = l.
Proof.
  induction 1 as [|x r Hx _ IH]; [reflexivity|].
  cbn [filter]. now rewrite Hx, IH.
Qed.

(** The entry evicted after a new key was appended is never the new one,
    when no older entry is younger than it. *)
Lemma oldest_is_old (c : Cache) (k : CacheKey) (e : CacheEntry)
  (oldest : CacheKey * CacheEntry) (rest : Cache) :
  c <> [] ->
  ~ In k (mapKeys c) ->
  notAfter (timestamp e) c ->
  stableSort (fun a b => inject_Z (timestamp (snd a) - timestamp (snd b)))
    (c ++ [(k, e)]) = oldest :: rest ->
  In (fst oldest) (mapKeys c).
Proof.
  intros Hne Hk Hts Hsort.
  set (cmp := fun a b : CacheKey * CacheEntry =>
                inject_Z (timestamp (snd a) - timestamp (snd b))) in *.
  pose proof (stableSort_perm cmp (c ++ [(k, e)])) as Hperm.
  pose proof (stableSort_sorted cmp olderFirst olderFirst_compare
                (fun x y H => ltac:(unfold olderFirst in *; lia))
                (fun x y z H1 H2 => ltac:(unfold olderFirst in *; lia))
                (c ++ [(k, e)])) as Hsorted.
  rewrite Hsort in Hperm, Hsorted.
  assert (Hin : In oldest (c ++ [(k, e)]))
    by (apply (Permutation_in _ Hperm); now left).
  apply in_app_or in Hin. destruct Hin as [Hin|[<-|[]]].
  - now apply (in_map fst) in Hin.
  - exfalso.
    inversion Hsorted as [|? ? _ Hall]; subst.
    assert (Hsame : Forall (fun x => (timestamp (snd x) =? timestamp e)%Z = true)
                      (c ++ [(k, e)])).
    { apply Forall_app. split.
      - apply Forall_forall. intros x Hx. apply Z.eqb_eq.
        pose proof (proj1 (Forall_forall _ _) Hts x Hx) as Hle.
        assert (Hx' : In x ((k, e) :: rest))
          by (apply (Permutation_in _ (Permutation_sym Hperm));
              apply in_or_app; now left).
        destruct Hx' as [<-|Hx']; [reflexivity|].
        pose proof (proj1 (Forall_forall _ _) Hall x Hx') as Hge.
        unfold olderFirst in Hge. simpl in *. lia.
      - repeat constructor. apply Z.eqb_refl. }
    assert (Hst : filter (fun x => (timestamp (snd x) =? timestamp e)%Z)
                    (stableSort cmp (c ++ [(k, e)]))
                  = filter (fun x => (timestamp (snd x) =? timestamp e)%Z)
                      (c ++ [(k, e)])).
    { apply (stableSort_filter cmp olderFirst olderFirst_compare).
      intros x y Hx Hy. apply Z.eqb_eq in Hx, Hy. unfold olderFirst. lia. }
    rewrite Hsort in Hst.
    rewrite (filter_all _ _ Hsame) in Hst.
    rewrite filter_all in Hst
      by (eapply Permutation_Forall;
          [apply Permutation_sym; exact Hperm|exact Hsame]).
    destruct c as [|h t]; [contradiction|].
    simpl in Hst. injection Hst as Hh _.
    apply Hk. rewrite <- Hh. now left.
Qed.

Lemma setCachedResults_length (c : Cache) (u : string) (o : Options)
  (l : list Link) (now : Z) :
  (List.length c <= 100)%nat ->
  (List.length (setCachedResults c u o l now) <= 100)%nat.
Proof.
  intros Hc. unfold setCachedResults.
  set (c1 := mapSet keyEqb (getCacheKey u o) (mkCacheEntry l now) c).
  assert (H1 : (List.length c1 <= S (List.length c))%nat).
  { unfold c1. destruct (mapGet keyEqb (getCacheKey u o) c) eqn:G.
    - rewrite (mapSet_present_length _ _ _ _ _ G). lia.
    - rewrite (mapSet_missing _ _ _ _ G), length_app. simpl. lia. }
  destruct (Nat.ltb_spec 100 (List.length c1)); [|assumption].
  pose proof (stableSort_perm
                (fun a b => inject_Z (timestamp (snd a) - timestamp (snd b))) c1)
    as Hperm.
  destruct (stableSort _ c1) as [|oldest rest] eqn:Hs.
  - apply Permutation_length in Hperm. simpl in Hperm. lia.
  - assert (Hin : In (fst oldest) (mapKeys c1)).
    { apply in_map. apply (Permutation_in _ Hperm). now left. }
    pose proof (mapDelete_length keyEqb keyEqb_eq _ _ Hin). lia.
Qed.

Lemma setCachedResults_get (c : Cache) (u : string) (o : Options)
  (l : list Link) (now : Z) :
  (List.length c <= 100)%nat ->
  notAfter now c ->
  mapGet keyEqb (getCacheKey u o) (setCachedResults c u o l now)
  = Some (mkCacheEntry l now).
Proof.
  intros Hc Hts. unfold setCachedResults.
  set (k := getCacheKey u o). set (e := mkCacheEntry l now).
  pose proof (mapGet_mapSet_same_key keyEqb keyEqb_eq k e c) as Hget.
  destruct (Nat.ltb_spec 100 (List.length (mapSet keyEqb k e c))) as [Hbig|];
    [|exact Hget].
  destruct (stableSort _ (mapSet keyEqb k e c)) as [|oldest rest] eqn:Hs;
    [exact Hget|].
  destruct (mapGet keyEqb k c) as [e0|] eqn:G.
  - rewrite (mapSet_present_length _ _ _ _ _ G) in Hbig. lia.
  - rewrite (mapSet_missing _ _ _ _ G) in *.
    assert (Hk : ~ In k (mapKeys c)) by (now apply (mapGet_None _ keyEqb_eq)).
    assert (Hne : c <> []).
    { intros ->. simpl in Hbig. lia. }
    pose proof (oldest_is_old c k e oldest rest Hne Hk Hts Hs) as Hold.
    rewrite mapGet_mapDelete_other; [exact Hget|exact keyEqb_eq|].
    intros E. apply Hk. now rewrite E.
Qed.

Section Calls.
Context {RE : RegexEngine}.

(** A call leaves the cache alone or stores the results it returns. *)
Lemma search_cache_cases (env : Env) (st : ServiceState) (u : string)
  (o : Options) :
  cache (fst (searchWithAdvancedOptions env st u o)) = cache st
  \/ exists l,
      cache (fst (searchWithAdvancedOptions env st u o))
      = setCachedResults (cache st) u o l (clockStore env).
Proof.
  unfold searchWithAdvancedOptions.
  destruct (if dflt true (useCache o) then _ else None); [now left|].
  unfold searchTelegramGroupsUltraExhaustive.
  destruct (authenticated env); [|now left].
  destruct (negb _); destruct (dflt true (useCache o)); simpl; eauto.
Qed.

Lemma runCalls_cache_bound (calls : list Call) :
  forall st, (List.length (cache st) <= 100)%nat ->
             (List.length (cache (runCalls st calls)) <= 100)%nat.
Proof.
  unfold runCalls.
  induction calls as [|[[env u] o] r IH]; intros st H; simpl; [exact H|].
  apply IH.
  destruct (search_cache_cases env st u o) as [->|[l ->]]; [exact H|].
  now apply setCachedResults_length.
Qed.

End Calls.

End EvictionFacts.
Import EvictionFacts.

Lemma getCachedResults_after_set (c : Cache) (u : string) (o : Options)
  (l : list Link) (now now' : Z) :
  (List.length c <= 100)%nat ->
  notAfter now c ->
  getCachedResults (setCachedResults c u o l now) u o now'
  = if (now' - now <? cacheExpiry)%Z then Some l else None.
Proof.
  intros Hc Hts. unfold getCachedResults.
  now rewrite (setCachedResults_get c u o l now Hc Hts).
Qed.

(** X18. However many calls a service object has served, its cache never
    holds more than 100 entries. *)
Theorem cache_never_exceeds_capacity :
  forall (RE : RegexEngine) (calls : list Call),
    (List.length (cache (runCalls initialState calls)) <= 100)%nat.
Proof.
  intros RE calls. apply runCalls_cache_bound. simpl. lia.
Qed.

(** X19. Results stored in a cache of at most 100 entries, none of them
    younger than the store, are found again under the same user name and
    options for ten minutes, and no longer: the eviction that follows a
    store never removes the entry just written. *)
Theorem cache_round_trip :
  forall (c : Cache) (username : string) (options : Options)
         (results : list Link) (now now' : Z),
    (List.length c <= 100)%nat ->
    notAfter now c ->
    getCachedResults (setCachedResults c username options results now)
      username options now'
    = if (now' - now <? 600000)%Z then Some results else None.
Proof.
  intros c username options results now now' Hc Hts.
  now apply getCachedResults_after_set.
Qed.

Lemma cache_round_trip_witness :
  (List.length fullCache <= 100)%nat
  /\ notAfter 100 fullCache
  /\ getCachedResults
       (setCachedResults fullCache "alphachannel" noOptions [singleLink] 100)
       "alphachannel" noOptions 600099
     = Some [singleLink]
  /\ getCachedResults
       (setCachedResults fullCache "alphachannel" noOptions [singleLink] 100)
       "user0" noOptions 100
     = None
  /\ getCachedResults
       (setCachedResults fullCache "alphachannel" noOptions [singleLink] 100)
       "user1" noOptions 100
     = Some [].
Proof.
  assert (H1 : (List.length fullCache <= 100)%nat).
  { unfold fullCache. rewrite length_map, length_seq. lia. }
  assert (H2 : notAfter 100 fullCache).
  { unfold notAfter, fullCache. apply Forall_forall. intros e He.
    apply in_map_iff in He. destruct He as [i [<- Hi]].
    apply in_seq in Hi. cbn [snd timestamp]. lia. }
  split; [exact H1|]. split; [exact H2|]. split.
  - rewrite (cache_round_trip fullCache "alphachannel" noOptions [singleLink]
               100 600099 H1 H2).
    reflexivity.
  - split; vm_compute; reflexivity.
Defined.



(** ** Requests, tokens and summaries *)
Module ClientFacts.

Lemma retryLoop_spec {E R : Type} (respond : nat -> E + R) :
  forall remaining attempt,
    let a := retryLoop respond attempt remaining in
    (1 <= requests a)%nat
    /\ (requests a <= S remaining)%nat
    /\ outcome a = respond (attempt + requests a - 1)%nat
    /\ (forall i, (attempt <= i)%nat -> (i < attempt + requests a - 1)%nat ->
                  exists e, respond i = inl e)
    /\ waited a = (1000 * (Z.of_nat (requests a) - 1))%Z
    /\ match outcome a with
       | inl _ => requests a = S remaining
       | inr _ => True
       end.
Proof.
  induction remaining as [|k IH]; intros attempt; cbn [retryLoop].
  - destruct (respond attempt) as [e|r] eqn:Er;
      cbn [requests outcome waited];
      (split; [lia|]; split; [lia|];
       split; [now rewrite Nat.add_sub|];
       split; [intros i H1 H2; lia|];
       split; [reflexivity|]); [reflexivity|exact I].
  - destruct (respond attempt) as [e|r] eqn:Er.
    + specialize (IH (S attempt)).
      set (later := retryLoop respond (S attempt) k) in *.
      cbv zeta in IH. destruct IH as [H1 [H2 [H3 [H4 [H5 H6]]]]].
      cbn [requests outcome waited].
      split; [lia|]. split; [lia|].
      split; [rewrite H3; f_equal; lia|].
      split.
      { intros i Hi1 Hi2.
        destruct (Nat.eq_dec i attempt) as [->|Hne]; [eauto|].
        apply H4; lia. }
      split; [rewrite H5; unfold requestDelay; lia|].
      destruct (outcome later); [lia|exact I].
    + cbn [requests outcome waited].
      split; [lia|]. split; [lia|].
      split; [now rewrite Nat.add_sub|].
      split; [intros i H1 H2; lia|].
      split; [reflexivity|exact I].
Qed.

Lemma distribution_fold (results : list Link) :
  forall d,
    let d' := fold_left
                (fun d r =>
                   if Qle_bool 70 (confidence r)
                   then mkDistribution (S (high d)) (medium d) (low d)
                   else if Qle_bool 40 (confidence r)
                        then mkDistribution (high d) (S (medium d)) (low d)
                        else mkDistribution (high d) (medium d) (S (low d)))
                results d in
    (high d' + medium d' + low d'
     = high d + medium d + low d + List.length results)%nat
    /\ (high d' = high d + List.length (filter (fun r => Qle_bool 70 (confidence r)) results))%nat
    /\ (low d' = low d + List.length (filter (fun r => Qltb (confidence r) 40) results))%nat.
Proof.
  induction results as [|r rest IH]; intros d; cbn [fold_left filter List.length].
  - cbv zeta. lia.
  - cbv zeta. unfold Qltb.
    destruct (Qle_bool 70 (confidence r)) eqn:E70.
    + specialize (IH (mkDistribution (S (high d)) (medium d) (low d))).
      cbv zeta in IH. cbn [high medium low] in IH.
      assert (E40 : Qle_bool 40 (confidence r) = true).
      { apply Qle_bool_iff. apply Qle_bool_iff in E70.
        eapply Qle_trans; [|exact E70]. discriminate. }
      rewrite E40. cbn [negb List.length]. unfold Qltb in IH. lia.
    + destruct (Qle_bool 40 (confidence r)) eqn:E40; cbn [negb List.length].
      * specialize (IH (mkDistribution (high d) (S (medium d)) (low d))).
        cbv zeta in IH. cbn [high medium low] in IH. unfold Qltb in IH. lia.
      * specialize (IH (mkDistribution (high d) (medium d) (S (low d)))).
        cbv zeta in IH. cbn [high medium low] in IH. unfold Qltb in IH. lia.
Qed.

End ClientFacts.
Import ClientFacts.

(** X21. The three counts of [calculateConfidenceDistribution] add up to
    the number of results; [high] counts the confidences of at least 70 and
    [low] those below 40. *)
Theorem confidence_distribution_total :
  forall results : list Link,
    (high (calculateConfidenceDistribution results)
     + medium (calculateConfidenceDistribution results)
     + low (calculateConfidenceDistribution results)
     = List.length results)%nat
    /\ high (calculateConfidenceDistribution results)
       = List.length (filter (fun r => Qle_bool 70 (confidence r)) results)
    /\ low (calculateConfidenceDistribution results)
       = List.length (filter (fun r => Qltb (confidence r) 40) results).
Proof.
  intros results. unfold calculateConfidenceDistribution.
  pose proof (distribution_fold results (mkDistribution 0 0 0)) as H.
  cbv zeta in H. cbn [high medium low] in H. lia.
Qed.

(** X22. [performSearchWithRetry] sends at least one and at most
    [retries + 1] requests, stops at the first one that succeeds and returns
    its data; every request before the last one failed, each failure but the
    last was followed by a wait of twice the request delay (1000 ms, the
    same every time), and an error is thrown only after [retries + 1]
    failures: it is the error of the last request. *)
Theorem retry_stops_at_first_success :
  forall (E R : Type) (respond : nat -> E + R) (retries : nat),
    (1 <= requests (performSearchWithRetry respond retries))%nat
    /\ (requests (performSearchWithRetry respond retries) <= S retries)%nat
    /\ outcome (performSearchWithRetry respond retries)
       = respond (requests (performSearchWithRetry respond retries) - 1)%nat
    /\ (forall i,
           (i < requests (performSearchWithRetry respond retries) - 1)%nat ->
           exists e, respond i = inl e)
    /\ waited (performSearchWithRetry respond retries)
       = (1000 * (Z.of_nat (requests (performSearchWithRetry respond retries)) - 1))%Z
    /\ match outcome (performSearchWithRetry respond retries) with
       | inl _ => requests (performSearchWithRetry respond retries) = S retries
       | inr _ => True
       end.
Proof.
  intros E R respond retries. unfold performSearchWithRetry.
  pose proof (retryLoop_spec respond retries 0) as H. cbv zeta in H.
  destruct H as [H1 [H2 [H3 [H4 [H5 H6]]]]].
  repeat split; try assumption.
  intros i Hi. apply H4; lia.
Qed.

Lemma retry_stops_at_first_success_witness :
  (1 < requests
         (performSearchWithRetry
            (fun i : nat => if (i <? 2)%nat then @inl unit nat tt else inr i) 2)
       - 1)%nat
  /\ exists e,
       (fun i : nat => if (i <? 2)%nat then @inl unit nat tt else inr i) 1%nat
       = inl e.
Proof.
  assert (H : (1 < requests
                     (performSearchWithRetry
                        (fun i : nat =>
                           if (i <? 2)%nat then @inl unit nat tt else inr i) 2)
                   - 1)%nat) by (vm_compute; lia).
  split; [exact H|].
  exact (proj1 (proj2 (proj2 (proj2
           (retry_stops_at_first_success unit nat
              (fun i : nat => if (i <? 2)%nat then @inl unit nat tt else inr i)
              2)))) 1%nat H).
Defined.

(** X23. A token granted by the endpoint (not empty, with an expiry other
    than 0) is handed out again without any request as long as the clock is
    before the stored expiry, which lies 60 seconds before the end of the
    token's lifetime; from then on the next call asks the endpoint again,
    and a failure of that request leaves the old token in place. *)
Theorem token_reused_until_expiry :
  forall (E : Type) (st : TokenState) (nowCheck nowStore : Z) (g : TokenGrant)
         (later later' : Z) (next : E + TokenGrant),
    tokenUsable st nowCheck = None ->
    access_token g <> "" ->
    (nowStore + expires_in g * 1000 - 60000 <> 0)%Z ->
    authenticate
      (fst (fst (authenticate st nowCheck nowStore (@inr E TokenGrant g))))
      later later' next
    = if (later <? nowStore + expires_in g * 1000 - 60000)%Z
      then (fst (fst (authenticate st nowCheck nowStore (@inr E TokenGrant g))),
            inr (access_token g), 0%nat)
      else match next with
           | inr g' =>
               (mkTokenState (Some (access_token g'))
                  (Some (later' + expires_in g' * 1000 - 60000)%Z),
                inr (access_token g'), 1%nat)
           | inl error =>
               (fst (fst (authenticate st nowCheck nowStore (@inr E TokenGrant g))),
                inl error, 1%nat)
           end.
Proof.
  intros E st nowCheck nowStore g later later' next Hun Htok Hexp.
  assert (Hfirst : fst (fst (authenticate st nowCheck nowStore (@inr E TokenGrant g)))
                   = mkTokenState (Some (access_token g))
                       (Some (nowStore + expires_in g * 1000 - 60000)%Z)).
  { unfold authenticate. now rewrite Hun. }
  rewrite Hfirst.
  unfold authenticate, tokenUsable. cbn [accessToken tokenExpiry].
  replace (String.eqb (access_token g) "") with false
    by (symmetry; now apply String.eqb_neq).
  replace ((nowStore + expires_in g * 1000 - 60000 =? 0)%Z) with false
    by (symmetry; now apply Z.eqb_neq).
  cbn [negb andb].
  destruct (later <? nowStore + expires_in g * 1000 - 60000)%Z; reflexivity.
Qed.

Lemma token_reused_until_expiry_witness :
  tokenUsable (mkTokenState None None) 0 = None
  /\ access_token (mkTokenGrant "secret" 3600) <> ""
  /\ (0 + expires_in (mkTokenGrant "secret" 3600) * 1000 - 60000 <> 0)%Z
  /\ snd (authenticate
            (fst (fst (authenticate (mkTokenState None None) 0 0
                         (@inr unit TokenGrant (mkTokenGrant "secret" 3600)))))
            3539999 3539999 (@inl unit TokenGrant tt)) = 0%nat.
Proof.
  assert (H2 : access_token (mkTokenGrant "secret" 3600) <> "") by discriminate.
  assert (H3 : (0 + expires_in (mkTokenGrant "secret" 3600) * 1000 - 60000 <> 0)%Z)
    by discriminate.
  split; [reflexivity|]. split; [exact H2|]. split; [exact H3|].
  rewrite (token_reused_until_expiry unit (mkTokenState None None) 0 0
             (mkTokenGrant "secret" 3600) 3539999 3539999 (inl tt)
             eq_refl H2 H3).
  reflexivity.
Defined.

(** ** Variations, reports and the first search phase *)
Module PhaseFacts.




Lemma fold_sum_bounds (lo hi : Z) (results : list Link) :
  confidencesWithin lo hi results ->
  forall sum,
    sum + inject_Z lo * inject_Z (Z.of_nat (List.length results))
    <= fold_left (fun sum r => sum + orElseQ (confidence r) 0) results sum
    /\ fold_left (fun sum r => sum + orElseQ (confidence r) 0) results sum
       <= sum + inject_Z hi * inject_Z (Z.of_nat (List.length results)).
Proof.
  unfold confidencesWithin.
  induction 1 as [|r rest [Hlo Hhi] Hrest IH]; intros sum.
  - cbn [fold_left List.length Z.of_nat]. change (inject_Z 0) with 0.
    split; lra.
  - cbn [fold_left]. specialize (IH (sum + orElseQ (confidence r) 0)).
    change (List.length (r :: rest)) with (S (List.length rest)).
    rewrite Nat2Z.inj_succ. unfold Z.succ. rewrite inject_Z_plus.
    assert (Hor : orElseQ (confidence r) 0 == confidence r).
    { unfold orElseQ. destruct (Qeq_bool (confidence r) 0) eqn:E; [|reflexivity].
      apply Qeq_bool_iff in E. now rewrite E. }
    assert (Hlo' : inject_Z lo <= orElseQ (confidence r) 0) by now rewrite Hor.
    assert (Hhi' : orElseQ (confidence r) 0 <= inject_Z hi) by now rewrite Hor.
    set (n := inject_Z (Z.of_nat (List.length rest))) in *.
    set (c := orElseQ (confidence r) 0) in *.
    change (inject_Z 1) with 1.
    destruct IH as [IH1 IH2]. split.
    + eapply Qle_trans; [|exact IH1]. lra.
    + eapply Qle_trans; [exact IH2|]. lra.
Qed.

Lemma mathRound_within (lo hi : Z) (x : Q) :
  inject_Z lo <= x -> x <= inject_Z hi ->
  (lo <= mathRound x <= hi)%Z.
Proof.
  intros Hlo Hhi. unfold mathRound.
  pose proof (Qfloor_le (x + (1 # 2))) as Hle.
  pose proof (Qlt_floor (x + (1 # 2))) as Hlt.
  set (z := Qfloor (x + (1 # 2))) in *.
  split.
  - destruct (Z_le_gt_dec lo z) as [H|H]; [exact H|exfalso].
    assert (H' : (z + 1 <= lo)%Z) by lia.
    rewrite Zle_Qle in H'. lra.
  - destruct (Z_le_gt_dec z hi) as [H|H]; [exact H|exfalso].
    assert (H' : (hi + 1 <= z)%Z) by lia.
    rewrite Zle_Qle in H'. rewrite inject_Z_plus in H'.
    change (inject_Z 1) with 1 in H'. lra.
Qed.

Lemma readQuoted_escaped (value rest : string) :
  noQuoteAhead rest = true ->
  readQuoted (replaceAllChar quoteChar (quote ++ quote) value
              ++ String quoteChar rest)%string
  = Some (value, rest).
Proof.
  intros Hrest. induction value as [|d r IH].
  - change (readQuoted (String quoteChar rest) = Some (EmptyString, rest)).
    cbn [readQuoted]. rewrite Ascii.eqb_refl.
    destruct rest as [|c rest']; [reflexivity|].
    cbn [noQuoteAhead] in Hrest. apply negb_true_iff in Hrest.
    now rewrite Hrest.
  - cbn [replaceAllChar]. destruct (Ascii.eqb d quoteChar) eqn:Ed.
    + apply Ascii.eqb_eq in Ed. subst d.
      change (readQuoted
                (String quoteChar
                   (String quoteChar
                      (replaceAllChar quoteChar (quote ++ quote) r
                       ++ String quoteChar rest)))
              = Some (String quoteChar r, rest)).
      cbn [readQuoted]. rewrite Ascii.eqb_refl.
      cbn [readQuoted] in IH. now rewrite IH.
    + change (readQuoted
                (String d
                   (replaceAllChar quoteChar (quote ++ quote) r
                    ++ String quoteChar rest))
              = Some (String d r, rest)).
      cbn [readQuoted]. rewrite Ed.
      cbn [readQuoted] in IH. now rewrite IH.
Qed.

Lemma string_app_assoc (a b c : string) :
  ((a ++ b) ++ c = a ++ (b ++ c))%string.
Proof.
  induction a as [|x a IH]; [reflexivity|].
  cbn [String.append]. now rewrite IH.
Qed.

Section PhaseCost.

Context {E R A : Type}.
Variable respond : nat -> string -> option string -> E + R.
Variable processResults : R -> string -> string -> option (list A).
Variable tagged : string -> string -> A -> A.

Lemma search_cost (query : string) (subreddit : option string) (n : Net) :
  (sent n + 1 <= sent (snd (search respond query subreddit n)))%nat
  /\ (sent (snd (search respond query subreddit n)) <= sent n + 3)%nat
  /\ slept (snd (search respond query subreddit n))
     = (slept n
        + 1000 * (Z.of_nat (sent (snd (search respond query subreddit n))
                            - sent n) - 1))%Z
  /\ match fst (search respond query subreddit n) with
     | inl _ => sent (snd (search respond query subreddit n)) = (sent n + 3)%nat
     | inr _ => True
     end
  /\ fst (search respond query subreddit n)
     = respond (sent (snd (search respond query subreddit n)) - 1)%nat
         query subreddit.
Proof.
  unfold search, performSearchWithRetry. cbv zeta. cbn [fst snd sent slept].
  pose proof (retryLoop_spec
                (fun attempt => respond (sent n + attempt)%nat query subreddit)
                2 0) as H.
  cbv zeta in H. destruct H as [H1 [H2 [H3 [_ [H5 H6]]]]].
  set (a := retryLoop _ 0 2) in *.
  split; [lia|]. split; [lia|]. split.
  { rewrite H5. replace (sent n + requests a - sent n)%nat with (requests a) by lia.
    reflexivity. }
  split.
  { destruct (outcome a); [lia|exact I]. }
  rewrite H3. f_equal. lia.
Qed.

Lemma withinBudget_refl (p : Progress A) : withinBudget 0 0 p p.
Proof.
  unfold withinBudget. repeat split; lia.
Qed.

Lemma withinBudget_trans (a1 b1 a2 b2 : nat) (p q r : Progress A) :
  withinBudget a1 b1 p q -> withinBudget a2 b2 q r ->
  withinBudget (a1 + a2) (b1 + b2) p r.
Proof.
  unfold withinBudget. intros H1 H2. repeat split; lia.
Qed.

Lemma withinBudget_fold (a b : nat) (f : Progress A -> string -> Progress A) :
  (forall p x, withinBudget a b p (f p x)) ->
  forall l p, withinBudget (List.length l * a) (List.length l * b) p (fold_left f l p).
Proof.
  intros Hf. induction l as [|x l IH]; intros p.
  - apply withinBudget_refl.
  - cbn [fold_left List.length]. cbn [Nat.mul].
    apply (withinBudget_trans _ _ _ _ _ (f p x)); [apply Hf|apply IH].
Qed.

Lemma subredditSearch_cost (username pattern subreddit : string) (p : Progress A) :
  withinBudget 1 1 p
    (subredditSearch respond processResults tagged username pattern p subreddit).
Proof.
  unfold subredditSearch.
  pose proof (search_cost pattern (Some subreddit) (net p)) as H.
  destruct (search respond pattern (Some subreddit) (net p)) as [[e|r] n].
  - cbn [fst snd] in H. destruct H as [H1 [H2 [H3 [H4 _]]]].
    unfold withinBudget. cbn [queryCount net].
    repeat split; try lia.
  - cbn [fst snd] in H. destruct H as [H1 [H2 [H3 [_ _]]]].
    destruct (processResults r username pattern) as [processed|].
    + unfold withinBudget, delay, requestDelay. cbn [queryCount net sent slept].
      repeat split; try lia.
    + unfold withinBudget. cbn [queryCount net].
      repeat split; try lia.
Qed.

Lemma patternSearch_cost (username pattern : string) (p : Progress A) :
  withinBudget 1 9 p
    (patternSearch respond processResults tagged username p pattern).
Proof.
  unfold patternSearch.
  pose proof (search_cost pattern None (net p)) as H.
  destruct (search respond pattern None (net p)) as [[e|r] n].
  - cbn [fst snd] in H. destruct H as [H1 [H2 [H3 [H4 _]]]].
    unfold withinBudget. cbn [queryCount net].
    repeat split; try lia.
  - cbn [fst snd] in H. destruct H as [H1 [H2 [H3 [_ _]]]].
    destruct (processResults r username pattern) as [processed|].
    + pose proof (withinBudget_fold 1 1
                    (subredditSearch respond processResults tagged username pattern)
                    (fun q x => subredditSearch_cost username pattern x q)
                    prioritySubreddits
                    (mkProgress (found p ++ processed) (S (queryCount p))
                       (delay requestDelay n))) as Hin.
      set (after := fold_left _ prioritySubreddits _) in *.
      change (List.length prioritySubreddits) with 8%nat in Hin.
      unfold withinBudget in *. unfold delay, requestDelay in Hin.
      cbn [queryCount net sent slept] in Hin.
      repeat split; lia.
    + unfold withinBudget. cbn [queryCount net].
      repeat split; try lia.
Qed.

Lemma search_fails (query : string) (subreddit : option string) (n : Net) :
  alwaysFails respond ->
  exists e, search respond query subreddit n
            = (inl e, mkNet (sent n + 3) (slept n + 2000)).
Proof.
  intros Hfail.
  pose proof (search_cost query subreddit n) as [H1 [H2 [H3 [H4 H5]]]].
  destruct (Hfail (sent (snd (search respond query subreddit n)) - 1)%nat
              query subreddit) as [e He].
  rewrite He in H5.
  destruct (search respond query subreddit n) as [o [s w]].
  cbn [fst snd sent slept] in *. subst o. exists e.
  f_equal. f_equal; lia.
Qed.

Lemma search_answers (query : string) (subreddit : option string) (n : Net) :
  alwaysAnswers respond ->
  exists r, respond (sent n + 0)%nat query subreddit = inr r
            /\ search respond query subreddit n
               = (inr r, mkNet (sent n + 1) (slept n)).
Proof.
  intros Hok. unfold search, performSearchWithRetry. cbn [retryLoop].
  destruct (Hok (sent n + 0)%nat query subreddit) as [r Hr].
  rewrite Hr. cbn [outcome requests waited]. exists r.
  split; [reflexivity|]. f_equal. f_equal; lia.
Qed.

Lemma dead_fold (username : string) :
  alwaysFails respond ->
  forall (l : list string) (p : Progress A),
    fold_left (patternSearch respond processResults tagged username) l p
    = mkProgress (found p) (queryCount p)
        (mkNet (sent (net p) + 3 * List.length l)
               (slept (net p) + 2000 * Z.of_nat (List.length l))).
Proof.
  intros Hfail. induction l as [|x l IH]; intros p.
  - cbn [fold_left List.length]. destruct p as [f q [s w]].
    cbn [found queryCount net sent slept]. f_equal. f_equal; lia.
  - cbn [fold_left]. rewrite IH. unfold patternSearch.
    destruct (search_fails x None (net p) Hfail) as [e He]. rewrite He.
    cbn [found queryCount net sent slept].
    change (List.length (x :: l)) with (S (List.length l)).
    f_equal. f_equal; lia.
Qed.

Lemma healthy_inner (username pattern : string) :
  alwaysAnswers respond ->
  alwaysProcessed respond processResults ->
  forall (l : list string) (p : Progress A),
    queryCount (fold_left
                  (subredditSearch respond processResults tagged username pattern)
                  l p)
    = (queryCount p + List.length l)%nat
    /\ net (fold_left
              (subredditSearch respond processResults tagged username pattern)
              l p)
       = mkNet (sent (net p) + List.length l)
               (slept (net p) + 500 * Z.of_nat (List.length l)).
Proof.
  intros Hok Hpr. induction l as [|x l IH]; intros p.
  - cbn [fold_left List.length]. destruct p as [f q [s w]].
    cbn [found queryCount net sent slept]. split; [lia|]. f_equal; lia.
  - cbn [fold_left]. destruct (IH (subredditSearch respond processResults tagged
                                     username pattern p x)) as [IH1 IH2].
    rewrite IH1, IH2. unfold subredditSearch.
    destruct (search_answers pattern (Some x) (net p) Hok) as [r [Hr Hs]].
    rewrite Hs.
    destruct (Hpr _ _ _ r username pattern Hr) as [processed ->].
    unfold delay, requestDelay. cbn [found queryCount net sent slept].
    change (List.length (x :: l)) with (S (List.length l)).
    split; [lia|]. f_equal; lia.
Qed.

Lemma healthy_fold (username : string) :
  alwaysAnswers respond ->
  alwaysProcessed respond processResults ->
  forall (l : list string) (p : Progress A),
    queryCount (fold_left (patternSearch respond processResults tagged username) l p)
    = (queryCount p + 9 * List.length l)%nat
    /\ net (fold_left (patternSearch respond processResults tagged username) l p)
       = mkNet (sent (net p) + 9 * List.length l)
               (slept (net p) + 4500 * Z.of_nat (List.length l)).
Proof.
  intros Hok Hpr. induction l as [|x l IH]; intros p.
  - cbn [fold_left List.length]. destruct p as [f q [s w]].
    cbn [found queryCount net sent slept]. split; [lia|]. f_equal; lia.
  - cbn [fold_left].
    destruct (IH (patternSearch respond processResults tagged username p x))
      as [IH1 IH2].
    rewrite IH1, IH2. unfold patternSearch.
    destruct (search_answers x None (net p) Hok) as [r [Hr Hs]]. rewrite Hs.
    destruct (Hpr _ _ _ r username x Hr) as [processed ->].
    destruct (healthy_inner username x Hok Hpr prioritySubreddits
                (mkProgress (found p ++ processed) (S (queryCount p))
                   (delay requestDelay (mkNet (sent (net p) + 1) (slept (net p))))))
      as [H1 H2].
    rewrite H1, H2. unfold delay, requestDelay.
    cbn [found queryCount net sent slept].
    change (List.length prioritySubreddits) with 8%nat.
    change (List.length (x :: l)) with (S (List.length l)).
    split; [lia|]. f_equal; lia.
Qed.

Lemma unprocessed_fold (username : string) :
  alwaysAnswers respond ->
  neverProcessed respond processResults ->
  forall (l : list string) (p : Progress A),
    fold_left (patternSearch respond processResults tagged username) l p
    = mkProgress (found p) (queryCount p)
        (mkNet (sent (net p) + List.length l) (slept (net p))).
Proof.
  intros Hok Hno. induction l as [|x l IH]; intros p.
  - cbn [fold_left List.length]. destruct p as [f q [s w]].
    cbn [found queryCount net sent slept]. f_equal. f_equal; lia.
  - cbn [fold_left]. rewrite IH. unfold patternSearch.
    destruct (search_answers x None (net p) Hok) as [r [Hr Hs]]. rewrite Hs.
    rewrite (Hno _ _ _ r username x Hr).
    cbn [found queryCount net sent slept].
    change (List.length (x :: l)) with (S (List.length l)).
    f_equal. f_equal; lia.
Qed.

End PhaseCost.

End PhaseFacts.
Import PhaseFacts.




(** X26. [calculateAverageConfidence] of a list that is not empty lies
    between any two integers that bound all its confidences: rounding the
    mean does not leave the range 0..100 of the confidences. *)
Theorem average_confidence_within :
  forall (lo hi : Z) (results : list Link),
    results <> [] ->
    confidencesWithin lo hi results ->
    (lo <= calculateAverageConfidence results <= hi)%Z.
Proof.
  intros lo hi results Hne Hall. unfold calculateAverageConfidence.
  destruct results as [|r rest]; [congruence|].
  change (List.length (r :: rest) =? 0)%nat with false. cbv iota.
  destruct (fold_sum_bounds lo hi (r :: rest) Hall 0) as [H1 H2].
  set (total := fold_left _ (r :: rest) 0) in *.
  set (n := inject_Z (Z.of_nat (List.length (r :: rest)))) in *.
  assert (Hn : 0 < n).
  { unfold n. change 0 with (inject_Z 0). rewrite <- Zlt_Qlt.
    change (List.length (r :: rest)) with (S (List.length rest)). lia. }
  apply mathRound_within.
  - apply Qle_shift_div_l; [exact Hn|]. lra.
  - apply Qle_shift_div_r; [exact Hn|]. lra.
Qed.

Lemma average_confidence_within_witness :
  [storedLink; incomingLink] <> []
  /\ confidencesWithin 0 100 [storedLink; incomingLink]
  /\ (0 <= calculateAverageConfidence [storedLink; incomingLink] <= 100)%Z.
Proof.
  assert (H1 : [storedLink; incomingLink] <> []) by discriminate.
  assert (H2 : confidencesWithin 0 100 [storedLink; incomingLink]).
  { repeat constructor; vm_compute; discriminate. }
  split; [exact H1|]. split; [exact H2|].
  exact (average_confidence_within 0 100 [storedLink; incomingLink] H1 H2).
Defined.

(** X27. A field written by [escapeCsv] is read back unchanged by a reader
    of quoted CSV fields, whatever the value contains (commas, line feeds,
    quotation marks), and the reader stops exactly at the end of the field,
    provided the text after the field does not begin with a quotation
    mark. *)
Theorem escaped_field_round_trip :
  forall value rest : string,
    noQuoteAhead rest = true ->
    readField (escapeCsv value ++ rest) = Some (value, rest).
Proof.
  intros value rest Hrest. unfold escapeCsv, quote.
  change (readField
            (String quoteChar
               ((replaceAllChar quoteChar
                   (String quoteChar EmptyString ++ String quoteChar EmptyString)
                   value
                 ++ String quoteChar EmptyString) ++ rest))
          = Some (value, rest)).
  cbn [readField]. rewrite Ascii.eqb_refl.
  rewrite string_app_assoc.
  change (String quoteChar EmptyString ++ rest)%string
    with (String quoteChar rest).
  now apply readQuoted_escaped.
Qed.

Lemma escaped_field_round_trip_witness :
  noQuoteAhead ",next" = true
  /\ readField (escapeCsv (quote ++ "a,b" ++ quote) ++ ",next")
     = Some ((quote ++ "a,b" ++ quote)%string, ",next").
Proof.
  split; [reflexivity|].
  apply (escaped_field_round_trip (quote ++ "a,b" ++ quote) ",next").
  reflexivity.
Defined.

(** X28. Whatever the provider answers and whether or not [processResults]
    throws on an answer, [executeExhaustivePatternSearch] counts at most 153
    queries (17 patterns, each searched globally and in 8 subreddits) and
    sends between 17 and 459 requests; it never counts more queries than it
    has sent requests, and it waits at least 500 ms per counted query and at
    most 1000 ms per request less 500 ms per counted query. *)
Theorem pattern_search_budget :
  forall (E R A : Type) (respond : nat -> string -> option string -> E + R)
         (processResults : R -> string -> string -> option (list A))
         (tagged : string -> string -> A -> A)
         (username : string) (start : Net),
    withinBudget 17 153 (mkProgress [] 0%nat start)
      (executeExhaustivePatternSearch respond processResults tagged
         username start).
Proof.
  intros E R A respond processResults tagged username start.
  unfold executeExhaustivePatternSearch.
  exact (withinBudget_fold 1 9
           (patternSearch respond processResults tagged username)
           (fun p x => patternSearch_cost respond processResults tagged username x p)
           (exhaustivePatterns username) (mkProgress [] 0%nat start)).
Qed.

(** X29. When every request fails, [executeExhaustivePatternSearch] gives up
    each pattern after the three attempts of its global search and never
    tries the subreddits: it returns no result and a query count of 0 after
    exactly 51 requests and 34 seconds of waiting. *)
Theorem pattern_search_dead_provider :
  forall (E R A : Type) (respond : nat -> string -> option string -> E + R)
         (processResults : R -> string -> string -> option (list A))
         (tagged : string -> string -> A -> A)
         (username : string) (start : Net),
    alwaysFails respond ->
    executeExhaustivePatternSearch respond processResults tagged username start
    = mkProgress [] 0%nat (mkNet (sent start + 51) (slept start + 34000)).
Proof.
  intros E R A respond processResults tagged username start Hfail.
  unfold executeExhaustivePatternSearch.
  rewrite (dead_fold respond processResults tagged username Hfail).
  reflexivity.
Qed.

Lemma pattern_search_dead_provider_witness :
  alwaysFails (fun (_ : nat) (_ : string) (_ : option string) => @inl unit unit tt)
  /\ executeExhaustivePatternSearch
       (fun (_ : nat) (_ : string) (_ : option string) => @inl unit unit tt)
       (fun (_ : unit) (_ _ : string) => Some (@nil unit))
       (fun (_ _ : string) (x : unit) => x)
       "durov" (mkNet 0 0)
     = mkProgress [] 0%nat (mkNet 51 34000).
Proof.
  assert (H : alwaysFails
                (fun (_ : nat) (_ : string) (_ : option string) =>
                   @inl unit unit tt)).
  { intros n query subreddit. exists tt. reflexivity. }
  split; [exact H|].
  exact (pattern_search_dead_provider unit unit unit _ _ _ "durov" (mkNet 0 0) H).
Defined.

(** X30. When every request succeeds at once and [processResults] returns
    normally on every answer, the phase counts all 153 queries with one
    request each, and waits 500 ms after every one of them.  When every
    request succeeds but [processResults] throws on every answer, each
    pattern is given up after its global search: 17 requests are sent, no
    query is counted, no result is returned and the phase does not wait. *)
Theorem pattern_search_healthy_provider :
  forall (E R A : Type) (respond : nat -> string -> option string -> E + R)
         (processResults : R -> string -> string -> option (list A))
         (tagged : string -> string -> A -> A)
         (username : string) (start : Net),
    alwaysAnswers respond ->
    (alwaysProcessed respond processResults ->
     queryCount (executeExhaustivePatternSearch respond processResults tagged
                   username start) = 153%nat
     /\ net (executeExhaustivePatternSearch respond processResults tagged
               username start)
        = mkNet (sent start + 153) (slept start + 76500))
    /\ (neverProcessed respond processResults ->
        executeExhaustivePatternSearch respond processResults tagged
          username start
        = mkProgress [] 0%nat (mkNet (sent start + 17) (slept start))).
Proof.
  intros E R A respond processResults tagged username start Hok.
  unfold executeExhaustivePatternSearch. split.
  - intros Hpr.
    destruct (healthy_fold respond processResults tagged username Hok Hpr
                (exhaustivePatterns username) (mkProgress [] 0%nat start))
      as [H1 H2].
    rewrite H1, H2. split; reflexivity.
  - intros Hno.
    rewrite (unprocessed_fold respond processResults tagged username Hok Hno).
    reflexivity.
Qed.

Lemma pattern_search_healthy_provider_witness :
  alwaysAnswers (fun (_ : nat) (_ : string) (_ : option string) => @inr unit unit tt)
  /\ alwaysProcessed
       (fun (_ : nat) (_ : string) (_ : option string) => @inr unit unit tt)
       (fun (_ : unit) (_ _ : string) => Some [tt])
  /\ neverProcessed
       (fun (_ : nat) (_ : string) (_ : option string) => @inr unit unit tt)
       (fun (_ : unit) (_ _ : string) => @None (list unit))
  /\ queryCount
       (executeExhaustivePatternSearch
          (fun (_ : nat) (_ : string) (_ : option string) => @inr unit unit tt)
          (fun (_ : unit) (_ _ : string) => Some [tt])
          (fun (_ _ : string) (x : unit) => x)
          "durov" (mkNet 0 0))
     = 153%nat
  /\ executeExhaustivePatternSearch
       (fun (_ : nat) (_ : string) (_ : option string) => @inr unit unit tt)
       (fun (_ : unit) (_ _ : string) => @None (list unit))
       (fun (_ _ : string) (x : unit) => x)
       "durov" (mkNet 0 0)
     = mkProgress [] 0%nat (mkNet 17 0).
Proof.
  assert (H : alwaysAnswers
                (fun (_ : nat) (_ : string) (_ : option string) =>
                   @inr unit unit tt)).
  { intros n query subreddit. exists tt. reflexivity. }
  assert (H1 : alwaysProcessed
                 (fun (_ : nat) (_ : string) (_ : option string) =>
                    @inr unit unit tt)
                 (fun (_ : unit) (_ _ : string) => Some [tt])).
  { intros n query subreddit r username pattern _. exists [tt]. reflexivity. }
  assert (H2 : neverProcessed
                 (fun (_ : nat) (_ : string) (_ : option string) =>
                    @inr unit unit tt)
                 (fun (_ : unit) (_ _ : string) => @None (list unit))).
  { intros n query subreddit r username pattern _. reflexivity. }
  split; [exact H|]. split; [exact H1|]. split; [exact H2|]. split.
  - exact (proj1 (proj1 (pattern_search_healthy_provider unit unit unit _ _
                           (fun (_ _ : string) (x : unit) => x)
                           "durov" (mkNet 0 0) H) H1)).
  - exact (proj2 (pattern_search_healthy_provider unit unit unit _ _
                    (fun (_ _ : string) (x : unit) => x)
                    "durov" (mkNet 0 0) H) H2).
Defined.
